(** * Blocked Metropolis-Hastings engine of Cosmo++ (mcmc.hpp)

    A shallow embedding of [Math::MetropolisHastings]: the prior model, the
    blocked propose/accept loop, the stopping rule, the chain writer and the
    binary resume file, followed by the properties of the engine. The line
    numbers in the comments are those of src/source/test_polychord.cpp, which
    carries the header from line 249 on.

    Conventions of the embedding.
    - [double] is the binary64 type of the kernel ([float]), with the
      infinities and the NaN of IEEE 754.
    - [unsigned long] is an [N] below [2^64]; increments wrap.
    - [int] is a [Z].
    - [std::vector<T>] is a [list T]; [v[i]] is [vget], [v[i] = x] is [vset].
    - Files are byte lists (the resume file) or lists of stream insertions
      (the text files).
    - What the engine takes from outside its class ([std::exp], [Math::pi],
      the two random generators, whether a file can be opened, whether
      [CHECKS_ON] is defined) is gathered in [Env]; the likelihood and the
      external prior and proposal are members of the engine, as in the
      class. *)

From Stdlib Require Import String Ascii.
From Stdlib Require Import ZArith NArith List Lia Bool.
From Stdlib Require Import Floats.
From Stdlib Require Strings.Byte.
Import ListNotations.

Local Open Scope Z_scope.

(** ** Results of fallible code *)

Inductive error : Type :=
| CheckFailed (msg : string)      (* a failed [check] under CHECKS_ON *)
| StandardException (msg : string) (* [throw exc] *)
| LengthError                      (* a vector built with a negative size *)
| OutOfBounds                      (* an index outside its vector: undefined *)
| FuelExhausted.                   (* the loop model ran out of steps *)

Inductive result (A : Type) : Type :=
| Ok (a : A)
| Err (e : error).
Arguments Ok {A} a.
Arguments Err {A} e.

Definition bind {A B : Type} (r : result A) (k : A -> result B) : result B :=
  match r with
  | Ok a => k a
  | Err e => Err e
  end.

Notation "x <- c1 ;; c2" := (bind c1 (fun x => c2))
  (at level 61, c1 at next level, right associativity).
Notation "' pat <- c1 ;; c2" := (bind c1 (fun x => match x with pat => c2 end))
  (at level 61, pat pattern, c1 at next level, right associativity).
Notation "c1 ;;; c2" := (bind c1 (fun _ => c2))
  (at level 61, right associativity).

(** ** Vectors *)

Definition vget {A : Type} (d : A) (v : list A) (i : Z) : A :=
  nth (Z.to_nat i) v d.

Fixpoint list_set {A : Type} (v : list A) (k : nat) (x : A) : list A :=
  match v, k with
  | [], _ => []
  | _ :: t, O => x :: t
  | h :: t, S k' => h :: list_set t k' x
  end.

Definition vset {A : Type} (v : list A) (i : Z) (x : A) : list A :=
  if i <? 0 then v else list_set v (Z.to_nat i) x.

(** The indices [lo, lo+1, ..., hi-1] of [for(int j = lo; j < hi; ++j)]. *)
Definition Zrange (lo hi : Z) : list Z :=
  map (fun k => lo + Z.of_nat k) (seq 0 (Z.to_nat (hi - lo))).

Definition for_range {S : Type} (lo hi : Z) (body : Z -> S -> S) (s : S) : S :=
  fold_left (fun acc j => body j acc) (Zrange lo hi) s.

(** ** Machine numbers *)

Definition ULONG_MOD : N := 18446744073709551616%N. (* 2^64 *)

Definition ulong_incr (x : N) : N := ((x + 1) mod ULONG_MOD)%N.

(** Conversion of an integer to [double] (round to nearest even). *)
Definition Z_to_double (z : Z) : float :=
  SF2Prim (binary_normalize prec emax z 0 false).

Definition ulong_to_double (x : N) : float := Z_to_double (Z.of_N x).

Definition is_nan (x : float) : bool := negb (PrimFloat.eqb x x).

(** ** Object representations (LP64, little endian, IEEE 754 binary64) *)

Definition byte_of_Z (z : Z) : Byte.byte :=
  match Byte.of_N (Z.to_N (z mod 256)) with
  | Some b => b
  | None => Byte.x00
  end.

Definition Z_of_byte (b : Byte.byte) : Z := Z.of_N (Byte.to_N b).

Fixpoint le_bytes (k : nat) (z : Z) : list Byte.byte :=
  match k with
  | O => []
  | S k' => byte_of_Z z :: le_bytes k' (z / 256)
  end.

Fixpoint le_value (bs : list Byte.byte) : Z :=
  match bs with
  | [] => 0
  | b :: rest => Z_of_byte b + 256 * le_value rest
  end.

Definition ulong_to_bytes (x : N) : list Byte.byte := le_bytes 8 (Z.of_N x).
Definition ulong_of_bytes (bs : list Byte.byte) : N := Z.to_N (le_value bs).

(** [int] is 32 bits, two's complement. *)
Definition int_to_bytes (x : Z) : list Byte.byte := le_bytes 4 (x mod 4294967296).
Definition int_of_bytes (bs : list Byte.byte) : Z :=
  let u := le_value bs in
  if u <? 2147483648 then u else u - 4294967296.

Definition sign_bit (s : bool) : Z := if s then 9223372036854775808 else 0.

(** The 64 bits of a [double]. The floats here have one not-a-number, written
    as the quiet one, 7ff8000000000000; [writeResumeInfo] copies the stored
    bits of a not-a-number, payload and sign included. *)
Definition double_to_bits (f : float) : Z :=
  match Prim2SF f with
  | S754_zero s => sign_bit s
  | S754_infinity s => sign_bit s + 9218868437227405312
  | S754_nan => 9221120237041090560
  | S754_finite s m e =>
      sign_bit s +
      (if Z.pos m <? 4503599627370496 then Z.pos m
       else (e + 1075) * 4503599627370496 + (Z.pos m - 4503599627370496))
  end.

Definition bits_to_double (z : Z) : float :=
  let s := 9223372036854775808 <=? z in
  let bexp := (z / 4503599627370496) mod 2048 in
  let frac := z mod 4503599627370496 in
  SF2Prim
    (if bexp =? 0 then
       if frac =? 0 then S754_zero s else S754_finite s (Z.to_pos frac) (-1074)
     else if bexp =? 2047 then
       if frac =? 0 then S754_infinity s else S754_nan
     else S754_finite s (Z.to_pos (frac + 4503599627370496)) (bexp - 1075)).

Definition double_to_bytes (f : float) : list Byte.byte :=
  le_bytes 8 (double_to_bits f).
Definition double_of_bytes (bs : list Byte.byte) : float :=
  bits_to_double (le_value bs).

Definition doubles_to_bytes (v : list float) : list Byte.byte :=
  flat_map double_to_bytes v.

Fixpoint doubles_of_bytes (bs : list Byte.byte) : list float :=
  match bs with
  | b0 :: b1 :: b2 :: b3 :: b4 :: b5 :: b6 :: b7 :: rest =>
      double_of_bytes [b0; b1; b2; b3; b4; b5; b6; b7] :: doubles_of_bytes rest
  | _ => []
  end.

(** ** Streams *)

(** What [operator<<] inserted into a text stream, in order. *)
Inductive piece : Type :=
| PInt (z : Z)
| PDouble (f : float)
| PStr (s : string)
| PChar (c : ascii)
| PEndl.

(** An [std::ifstream] being read: the bytes left and whether the stream is
    still good. *)
Record istream : Type := {
  is_bytes : list Byte.byte;
  is_good : bool
}.

(** [in.read(dst, count)] where [old] is the object representation of the
    destination. A stream that is not good extracts nothing; a short read
    stores what it got and fails the stream. *)
Definition stream_read (count : nat) (old : list Byte.byte) (s : istream)
  : list Byte.byte * istream :=
  if is_good s then
    let got := firstn count (is_bytes s) in
    (got ++ skipn (length got) old,
     {| is_bytes := skipn count (is_bytes s);
        is_good := Nat.eqb (length got) count |})
  else (old, s).

Definition read_ulong (old : N) (s : istream) : N * istream :=
  let (b, s') := stream_read 8 (ulong_to_bytes old) s in (ulong_of_bytes b, s').

Definition read_double (old : float) (s : istream) : float * istream :=
  let (b, s') := stream_read 8 (double_to_bytes old) s in (double_of_bytes b, s').

Definition read_int (old : Z) (s : istream) : Z * istream :=
  let (b, s') := stream_read 4 (int_to_bytes old) s in (int_of_bytes b, s').

Definition read_doubles (n : Z) (old : list float) (s : istream)
  : list float * istream :=
  let (b, s') := stream_read (Z.to_nat n * 8) (doubles_to_bytes old) s in
  (doubles_of_bytes b, s').

(** ** The engine and its collaborators *)

Inductive PRIOR_MODE : Type := UNIFORM_PRIOR | GAUSSIAN_PRIOR | PRIOR_MODE_MAX.

(** [PriorFunctionBase::calculate(params, nPar)]. *)
Definition PriorFunctionBase : Type := list float -> Z -> float.

(** [LikelihoodFunction::calculate(params, nPar)]. *)
Definition LikelihoodFunction : Type := list float -> Z -> float.

(** [ProposalFunctionBase]. [generate] fills the block buffer it is given; its
    first argument counts the calls made so far, for proposals that draw
    random numbers of their own. *)
Record ProposalFunctionBase : Type := {
  generate : nat -> list float -> Z -> list float -> Z -> list float;
  calculate : list float -> Z -> list float -> Z -> float;
  isSymmetric : Z -> bool
}.

(** What the engine takes from its surroundings. *)
Record Env : Type := {
  checks_on : bool;               (* is CHECKS_ON defined *)
  std_exp : float -> float;       (* std::exp *)
  Math_pi : float;                (* Math::pi *)
  generator_generate : nat -> float; (* k-th value of generator_->generate() *)
  std_rand : nat -> Z;            (* k-th value of std::rand() *)
  RAND_MAX : Z;
  can_open_paramnames : bool;     (* does the .paramnames ofstream open *)
  can_open_chain : bool;          (* does the .txt ofstream open *)
  can_open_resume : bool          (* does the resume.dat ofstream open *)
}.

(** The files of one engine and the state of [std::rand]. *)
Record World : Type := {
  resume_dat : option (list Byte.byte);
  chain_txt : option (list piece);
  paramnames_txt : option (list piece);
  rand_calls : nat
}.

Record MetropolisHastings : Type := {
  n_ : Z;
  like_ : LikelihoodFunction;
  param1_ : list float;
  param2_ : list float;
  starting_ : list float;
  samplingWidth_ : list float;
  accuracy_ : list float;
  priorMods_ : list PRIOR_MODE;
  paramNames_ : list string;
  paramSum_ : list float;
  paramSquaredSum_ : list float;
  corSum_ : list float;
  externalPrior_ : option PriorFunctionBase;
  externalProposal_ : option ProposalFunctionBase;
  blocks_ : list Z;
  generator_calls : nat;          (* draws taken from generator_ *)
  proposal_calls : nat;           (* calls made to the external generate *)
  prev_ : list float;
  current_ : list float;
  maxChainLength_ : N;
  iteration_ : N;
  currentLike_ : float;
  currentPrior_ : float;
  resumeCode_ : Z;
  out_ : bool                     (* is the chain stream open *)
}.

(** [check(condition, message)]. The macro is defined in macros.hpp, which is
    not among the sources; it is taken to throw when its condition fails and
    CHECKS_ON is defined, and to expand to nothing otherwise, as the
    [#ifdef CHECKS_ON] around the loop of [specifyParameterBlocks] has it.
    Whether CHECKS_ON is defined is a parameter of the environment. *)
Definition check (E : Env) (condition : bool) (msg : string) : result unit :=
  if checks_on E && negb condition then Err (CheckFailed msg) else Ok tt.

Fixpoint for_list_r {S : Type} (idx : list Z) (body : Z -> S -> result S) (s : S)
  : result S :=
  match idx with
  | [] => Ok s
  | j :: rest => s' <- body j s ;; for_list_r rest body s'
  end.

Definition for_range_r {S : Type} (lo hi : Z) (body : Z -> S -> result S) (s : S)
  : result S :=
  for_list_r (Zrange lo hi) body s.

Definition DBL_MAX : float := 0x1.fffffffffffffp1023%float.

(** *** Assignments to the members that change during a run *)

Definition set_sampler (st : MetropolisHastings)
    (maxChainLength iteration : N) (currentLike currentPrior : float)
    (current prev paramSum paramSquaredSum corSum : list float)
  : MetropolisHastings :=
  {| n_ := n_ st; like_ := like_ st; param1_ := param1_ st;
     param2_ := param2_ st; starting_ := starting_ st;
     samplingWidth_ := samplingWidth_ st; accuracy_ := accuracy_ st;
     priorMods_ := priorMods_ st; paramNames_ := paramNames_ st;
     paramSum_ := paramSum; paramSquaredSum_ := paramSquaredSum;
     corSum_ := corSum;
     externalPrior_ := externalPrior_ st;
     externalProposal_ := externalProposal_ st; blocks_ := blocks_ st;
     generator_calls := generator_calls st;
     proposal_calls := proposal_calls st;
     prev_ := prev; current_ := current;
     maxChainLength_ := maxChainLength; iteration_ := iteration;
     currentLike_ := currentLike; currentPrior_ := currentPrior;
     resumeCode_ := resumeCode_ st; out_ := out_ st |}.

Definition set_current_ (st : MetropolisHastings) (v : list float) :=
  set_sampler st (maxChainLength_ st) (iteration_ st) (currentLike_ st)
    (currentPrior_ st) v (prev_ st) (paramSum_ st) (paramSquaredSum_ st)
    (corSum_ st).

Definition set_currentLike_ (st : MetropolisHastings) (x : float) :=
  set_sampler st (maxChainLength_ st) (iteration_ st) x
    (currentPrior_ st) (current_ st) (prev_ st) (paramSum_ st)
    (paramSquaredSum_ st) (corSum_ st).

Definition set_currentPrior_ (st : MetropolisHastings) (x : float) :=
  set_sampler st (maxChainLength_ st) (iteration_ st) (currentLike_ st)
    x (current_ st) (prev_ st) (paramSum_ st) (paramSquaredSum_ st)
    (corSum_ st).

Definition set_iteration_ (st : MetropolisHastings) (x : N) :=
  set_sampler st (maxChainLength_ st) x (currentLike_ st)
    (currentPrior_ st) (current_ st) (prev_ st) (paramSum_ st)
    (paramSquaredSum_ st) (corSum_ st).

Definition set_calls (st : MetropolisHastings) (g p : nat) : MetropolisHastings :=
  {| n_ := n_ st; like_ := like_ st; param1_ := param1_ st;
     param2_ := param2_ st; starting_ := starting_ st;
     samplingWidth_ := samplingWidth_ st; accuracy_ := accuracy_ st;
     priorMods_ := priorMods_ st; paramNames_ := paramNames_ st;
     paramSum_ := paramSum_ st; paramSquaredSum_ := paramSquaredSum_ st;
     corSum_ := corSum_ st;
     externalPrior_ := externalPrior_ st;
     externalProposal_ := externalProposal_ st; blocks_ := blocks_ st;
     generator_calls := g; proposal_calls := p;
     prev_ := prev_ st; current_ := current_ st;
     maxChainLength_ := maxChainLength_ st; iteration_ := iteration_ st;
     currentLike_ := currentLike_ st; currentPrior_ := currentPrior_ st;
     resumeCode_ := resumeCode_ st; out_ := out_ st |}.

Definition set_out_ (st : MetropolisHastings) (b : bool) : MetropolisHastings :=
  {| n_ := n_ st; like_ := like_ st; param1_ := param1_ st;
     param2_ := param2_ st; starting_ := starting_ st;
     samplingWidth_ := samplingWidth_ st; accuracy_ := accuracy_ st;
     priorMods_ := priorMods_ st; paramNames_ := paramNames_ st;
     paramSum_ := paramSum_ st; paramSquaredSum_ := paramSquaredSum_ st;
     corSum_ := corSum_ st;
     externalPrior_ := externalPrior_ st;
     externalProposal_ := externalProposal_ st; blocks_ := blocks_ st;
     generator_calls := generator_calls st;
     proposal_calls := proposal_calls st;
     prev_ := prev_ st; current_ := current_ st;
     maxChainLength_ := maxChainLength_ st; iteration_ := iteration_ st;
     currentLike_ := currentLike_ st; currentPrior_ := currentPrior_ st;
     resumeCode_ := resumeCode_ st; out_ := b |}.

Definition set_chain_txt (w : World) (c : option (list piece)) : World :=
  {| resume_dat := resume_dat w; chain_txt := c;
     paramnames_txt := paramnames_txt w; rand_calls := rand_calls w |}.

Definition set_resume_dat (w : World) (c : option (list Byte.byte)) : World :=
  {| resume_dat := c; chain_txt := chain_txt w;
     paramnames_txt := paramnames_txt w; rand_calls := rand_calls w |}.

Definition set_paramnames_txt (w : World) (c : option (list piece)) : World :=
  {| resume_dat := resume_dat w; chain_txt := chain_txt w;
     paramnames_txt := c; rand_calls := rand_calls w |}.

Definition set_rand_calls (w : World) (k : nat) : World :=
  {| resume_dat := resume_dat w; chain_txt := chain_txt w;
     paramnames_txt := paramnames_txt w; rand_calls := k |}.

Definition set_config (st : MetropolisHastings)
    (paramNames : list string) (param1 param2 : list float)
    (priorMods : list PRIOR_MODE) (starting samplingWidth accuracy : list float)
    (blocks : list Z)
    (externalPrior : option PriorFunctionBase)
    (externalProposal : option ProposalFunctionBase)
  : MetropolisHastings :=
  {| n_ := n_ st; like_ := like_ st; param1_ := param1;
     param2_ := param2; starting_ := starting;
     samplingWidth_ := samplingWidth; accuracy_ := accuracy;
     priorMods_ := priorMods; paramNames_ := paramNames;
     paramSum_ := paramSum_ st; paramSquaredSum_ := paramSquaredSum_ st;
     corSum_ := corSum_ st;
     externalPrior_ := externalPrior;
     externalProposal_ := externalProposal; blocks_ := blocks;
     generator_calls := generator_calls st;
     proposal_calls := proposal_calls st;
     prev_ := prev_ st; current_ := current_ st;
     maxChainLength_ := maxChainLength_ st; iteration_ := iteration_ st;
     currentLike_ := currentLike_ st; currentPrior_ := currentPrior_ st;
     resumeCode_ := resumeCode_ st; out_ := out_ st |}.

Definition set_blocks_ (st : MetropolisHastings) (blocks : list Z) :=
  set_config st (paramNames_ st) (param1_ st) (param2_ st) (priorMods_ st)
    (starting_ st) (samplingWidth_ st) (accuracy_ st) blocks
    (externalPrior_ st) (externalProposal_ st).

(** ** Configuration *)

(** The members the constructor leaves uninitialised hold whatever was in
    memory. *)
Record Uninitialized : Type := {
  u_maxChainLength : N;
  u_iteration : N;
  u_currentLike : float;
  u_currentPrior : float
}.

(** [MetropolisHastings(nPar, like, fileRoot, seed)]. The seed selects the
    sequences [generator_generate] and [std_rand] of the environment. *)
Definition MetropolisHastings_new (E : Env) (u : Uninitialized)
    (nPar : Z) (like : LikelihoodFunction) : result MetropolisHastings :=
  if nPar <? 0 then Err LengthError
  else
    let n := Z.to_nat nPar in
    check E (0 <? nPar) "" ;;;
    Ok {| n_ := nPar; like_ := like;
          param1_ := repeat 0%float n; param2_ := repeat 0%float n;
          starting_ := repeat DBL_MAX n;
          samplingWidth_ := repeat 0%float n; accuracy_ := repeat 0%float n;
          priorMods_ := repeat PRIOR_MODE_MAX n;
          paramNames_ := repeat EmptyString n;
          paramSum_ := repeat 0%float n;
          paramSquaredSum_ := repeat 0%float n;
          corSum_ := repeat 0%float n;
          externalPrior_ := None; externalProposal_ := None;
          blocks_ := for_range 1 (nPar + 1) (fun i b => b ++ [i]) [];
          generator_calls := 0; proposal_calls := 0;
          prev_ := repeat 0%float n; current_ := repeat 0%float n;
          maxChainLength_ := u_maxChainLength u;
          iteration_ := u_iteration u;
          currentLike_ := u_currentLike u;
          currentPrior_ := u_currentPrior u;
          resumeCode_ := 123456; out_ := false |}.

(** [setParam]; the defaulted arguments are passed explicitly
    ([DBL_MAX], [0.0], [0.0]). *)
Definition setParam (E : Env) (i : Z) (name : string) (min max : float)
    (starting samplingWidth accuracy : float) (st : MetropolisHastings)
  : result MetropolisHastings :=
  check E ((0 <=? i) && (i <? n_ st)) "invalid index" ;;;
  check E (min <? max)%float "Need max > min." ;;;
  if negb ((0 <=? i) && (i <? n_ st)) then Err OutOfBounds
  else
    let start := if (starting =? DBL_MAX)%float then ((max + min) / 2)%float
                 else starting in
    check E (0 <=? samplingWidth)%float "invalid sampling width" ;;;
    let width := if (samplingWidth =? 0)%float then ((max - min) / 100)%float
                 else samplingWidth in
    check E (0 <=? accuracy)%float "invalid accuracy" ;;;
    let acc := if (accuracy =? 0)%float then (width / 10)%float else accuracy in
    Ok (set_config st
          (vset (paramNames_ st) i name)
          (vset (param1_ st) i min) (vset (param2_ st) i max)
          (vset (priorMods_ st) i UNIFORM_PRIOR)
          (vset (starting_ st) i start)
          (vset (samplingWidth_ st) i width)
          (vset (accuracy_ st) i acc)
          (blocks_ st) (externalPrior_ st) (externalProposal_ st)).

Definition setParamGauss (E : Env) (i : Z) (name : string) (mean sigma : float)
    (starting samplingWidth accuracy : float) (st : MetropolisHastings)
  : result MetropolisHastings :=
  check E ((0 <=? i) && (i <? n_ st)) "invalid index" ;;;
  check E (0 <? sigma)%float "invalid sigma" ;;;
  if negb ((0 <=? i) && (i <? n_ st)) then Err OutOfBounds
  else
    let start := if (starting =? DBL_MAX)%float then mean else starting in
    check E (0 <=? samplingWidth)%float "invalid sampling width" ;;;
    let width := if (samplingWidth =? 0)%float then (sigma / 100)%float
                 else samplingWidth in
    check E (0 <=? accuracy)%float "invalid accuracy" ;;;
    let acc := if (accuracy =? 0)%float then (width / 10)%float else accuracy in
    Ok (set_config st
          (vset (paramNames_ st) i name)
          (vset (param1_ st) i mean) (vset (param2_ st) i sigma)
          (vset (priorMods_ st) i GAUSSIAN_PRIOR)
          (vset (starting_ st) i start)
          (vset (samplingWidth_ st) i width)
          (vset (accuracy_ st) i acc)
          (blocks_ st) (externalPrior_ st) (externalProposal_ st)).

Definition vector_empty {A : Type} (v : list A) : bool :=
  match v with [] => true | _ => false end.

Definition vector_size {A : Type} (v : list A) : Z := Z.of_nat (List.length v).

(** [specifyParameterBlocks]: the loop over the boundaries is compiled only
    under CHECKS_ON and starts at index 1. *)
Definition specifyParameterBlocks (E : Env) (blocks : list Z)
    (st : MetropolisHastings) : result MetropolisHastings :=
  check E (negb (vector_empty blocks)) "" ;;;
  (if checks_on E then
     for_range_r 1 (vector_size blocks)
       (fun i _ =>
          check E (vget 0 blocks (i - 1) <? vget 0 blocks i) "" ;;;
          check E (vget 0 blocks i <=? n_ st) "")
       tt
   else Ok tt) ;;;
  Ok (set_blocks_ st blocks).

Definition useExternalPrior (prior : PriorFunctionBase) (st : MetropolisHastings) :=
  set_config st (paramNames_ st) (param1_ st) (param2_ st) (priorMods_ st)
    (starting_ st) (samplingWidth_ st) (accuracy_ st) (blocks_ st)
    (Some prior) (externalProposal_ st).

Definition useExternalProposal (proposal : ProposalFunctionBase)
    (st : MetropolisHastings) :=
  set_config st (paramNames_ st) (param1_ st) (param2_ st) (priorMods_ st)
    (starting_ st) (samplingWidth_ st) (accuracy_ st) (blocks_ st)
    (externalPrior_ st) (Some proposal).

(** ** The prior *)

Definition uniformPrior (E : Env) (min max x : float) : result float :=
  check E (min <? max)%float "" ;;;
  Ok (if (min <=? x)%float && (x <=? max)%float then (1 / (max - min))%float
      else 0%float).

Definition gaussPrior (E : Env) (mean sigma x : float) : result float :=
  check E (0 <? sigma)%float "" ;;;
  let norm := (1 / (sqrt (2 * Math_pi E) * sigma))%float in
  Ok (norm * std_exp E (- (x - mean) * (x - mean) / (2 * sigma * sigma)))%float.

Definition calculatePrior (E : Env) (st : MetropolisHastings) : result float :=
  match externalPrior_ st with
  | Some prior => Ok (prior (current_ st) (n_ st))
  | None =>
      for_range_r 0 (n_ st)
        (fun i result_ =>
           match vget PRIOR_MODE_MAX (priorMods_ st) i with
           | UNIFORM_PRIOR =>
               u <- uniformPrior E (vget 0%float (param1_ st) i)
                      (vget 0%float (param2_ st) i)
                      (vget 0%float (current_ st) i) ;;
               Ok (result_ * u)%float
           | GAUSSIAN_PRIOR =>
               g <- gaussPrior E (vget 0%float (param1_ st) i)
                      (vget 0%float (param2_ st) i)
                      (vget 0%float (current_ st) i) ;;
               Ok (result_ * g)%float
           | PRIOR_MODE_MAX =>
               check E false "invalid prior mode" ;;; Ok result_
           end)
        1%float
  end.

(** ** The stopping rule *)

(** The body of the loop of [stop] (lines 434-442): the standard error of the
    mean of parameter [i], inflated by the lag-1 autocorrelation when that
    lies strictly between -1 and 1. *)
Definition stop_stdMean (st : MetropolisHastings) (i : Z) : float :=
  let it := ulong_to_double (iteration_ st) in
  let mean := (vget 0 (paramSum_ st) i / it)%float in
  let meanSq := (vget 0 (paramSquaredSum_ st) i / it)%float in
  let stdev := sqrt (meanSq - mean * mean)%float in
  let stdMean := (stdev / sqrt it)%float in
  let cor := ((vget 0 (corSum_ st) i / it - mean * mean) / (stdev * stdev))%float in
  if (cor <? 1)%float && (-1 <? cor)%float
  then (stdMean * sqrt ((1 + cor) / (1 - cor)))%float
  else stdMean.

Fixpoint stop_loop (st : MetropolisHastings) (idx : list Z) : bool :=
  match idx with
  | [] => true
  | i :: rest =>
      if (vget 0 (accuracy_ st) i <? stop_stdMean st i)%float then false
      else stop_loop st rest
  end.

(** [stop] (lines 422-448). *)
Definition stop (E : Env) (st : MetropolisHastings) : result bool :=
  check E (0 <=? iteration_ st)%N "" ;;;
  if (iteration_ st <? 100)%N then Ok false
  else if (maxChainLength_ st <=? iteration_ st)%N then Ok true
  else Ok (stop_loop st (Zrange 0 (n_ st))).

(** ** Proposal of one parameter *)

Definition generateNewPoint (E : Env) (st : MetropolisHastings) (draw : nat)
    (i : Z) : float :=
  (vget 0 (current_ st) i
   + generator_generate E draw * vget 0 (samplingWidth_ st) i)%float.

(** ** The chain file *)

(** [openOut] (lines 455-473). Opening truncates the file unless [append] is
    set; a stream that is already open does not open again, and a stream that
    did not open makes [openOut] throw. *)
Definition openOut (E : Env) (append : bool) (st : MetropolisHastings) (w : World)
  : result (MetropolisHastings * World) :=
  if can_open_chain E && negb (out_ st) then
    let content :=
      if append then match chain_txt w with Some c => c | None => [] end
      else [] in
    Ok (set_out_ st true, set_chain_txt w (Some content))
  else Err (StandardException "Cannot write into output file").

Definition closeOut (st : MetropolisHastings) : MetropolisHastings :=
  set_out_ st false.

(** The insertions of one call of [writeChainElement]. *)
Definition chain_element (st : MetropolisHastings) : list piece :=
  for_range 0 (n_ st)
    (fun i o => o ++ [PStr "   "; PDouble (vget 0%float (current_ st) i)])
    [PInt 1; PStr "   "; PDouble (currentLike_ st)]
  ++ [PEndl].

(** [writeChainElement] (lines 480-487); insertions into a stream that is not
    open are lost. The stream is the one flag [out_]: the source's
    check of [out_] tests the error state of the stream, which after
    [openOut] has returned is good exactly when the stream is open. The
    function is private and called at line 762 only, after [openOut]; on a
    stream that was never opened the source's check would pass where this one
    fails. *)
Definition writeChainElement (E : Env) (st : MetropolisHastings) (w : World)
  : result World :=
  check E (out_ st) "" ;;;
  if out_ st then
    Ok (set_chain_txt w
          (Some (match chain_txt w with Some c => c | None => [] end
                 ++ chain_element st)))
  else Ok w.

(** ** Running sums *)

(** [update] (lines 489-498). *)
Definition update (st : MetropolisHastings) : MetropolisHastings :=
  let st' :=
    for_range 0 (n_ st)
      (fun i s =>
         let x := vget 0%float (current_ s) i in
         set_sampler s (maxChainLength_ s) (iteration_ s) (currentLike_ s)
           (currentPrior_ s) (current_ s) (prev_ s)
           (vset (paramSum_ s) i (vget 0 (paramSum_ s) i + x)%float)
           (vset (paramSquaredSum_ s) i
              (vget 0 (paramSquaredSum_ s) i + x * x)%float)
           (vset (corSum_ s) i
              (vget 0 (corSum_ s) i + x * vget 0 (prev_ s) i)%float))
      st in
  set_sampler st' (maxChainLength_ st') (iteration_ st') (currentLike_ st')
    (currentPrior_ st') (current_ st') (current_ st') (paramSum_ st')
    (paramSquaredSum_ st') (corSum_ st').

(** ** The resume file *)

(** The [n_ * sizeof(double)] bytes at [&v[0]]. *)
Definition vector_bytes (n : Z) (v : list float) : list Byte.byte :=
  doubles_to_bytes (firstn (Z.to_nat n) v).

(** The bytes that the ten [out.write] calls of [writeResumeInfo] produce. *)
Definition resume_image (st : MetropolisHastings) : list Byte.byte :=
  ulong_to_bytes (maxChainLength_ st)
  ++ ulong_to_bytes (iteration_ st)
  ++ double_to_bytes (currentLike_ st)
  ++ double_to_bytes (currentPrior_ st)
  ++ vector_bytes (n_ st) (current_ st)
  ++ vector_bytes (n_ st) (prev_ st)
  ++ vector_bytes (n_ st) (paramSum_ st)
  ++ vector_bytes (n_ st) (paramSquaredSum_ st)
  ++ vector_bytes (n_ st) (corSum_ st)
  ++ int_to_bytes (resumeCode_ st).

(** [writeResumeInfo] (lines 500-519): nothing happens when the file does not
    open. *)
Definition writeResumeInfo (E : Env) (st : MetropolisHastings) (w : World)
  : World :=
  if can_open_resume E then set_resume_dat w (Some (resume_image st))
  else w.

(** [readResumeInfo] (lines 521-549). *)
Definition readResumeInfo (st : MetropolisHastings) (w : World)
  : bool * MetropolisHastings :=
  match resume_dat w with
  | None => (false, st)
  | Some bytes =>
      let s := {| is_bytes := bytes; is_good := true |} in
      let (maxChainLength, s) := read_ulong (maxChainLength_ st) s in
      let (iteration, s) := read_ulong (iteration_ st) s in
      let (currentLike, s) := read_double (currentLike_ st) s in
      let (currentPrior, s) := read_double (currentPrior_ st) s in
      let (current, s) := read_doubles (n_ st) (current_ st) s in
      let (prev, s) := read_doubles (n_ st) (prev_ st) s in
      let (paramSum, s) := read_doubles (n_ st) (paramSum_ st) s in
      let (paramSquaredSum, s) := read_doubles (n_ st) (paramSquaredSum_ st) s in
      let (corSum, s) := read_doubles (n_ st) (corSum_ st) s in
      let (code, s) := read_int 0 s in
      let st' := set_sampler st maxChainLength iteration currentLike
                   currentPrior current prev paramSum paramSquaredSum corSum in
      (code =? resumeCode_ st, st')
  end.

(** ** One block update *)

(** What one pass through the body of the block loop of [run] (lines 709-746)
    computes before it decides: the proposed block, the full vector with the
    block overwritten, the new likelihood and prior, the acceptance
    probability [p] before and after the clamp and the uniform draw [q]. *)
Record proposal : Type := {
  pr_blockEnd : Z;
  pr_block : list float;
  pr_current : list float;
  pr_newLike : float;
  pr_newPrior : float;
  pr_ratio : float;     (* p before [if(p > 1) p = 1] *)
  pr_p : float;
  pr_q : float;
  pr_generator_calls : nat;
  pr_proposal_calls : nat
}.

Definition clamp_probability (p : float) : float :=
  if (1 <? p)%float then 1%float else p.

(** Lines 709-746 of [run]. A block vector of negative size does not get
    built, and a block that reaches outside [0, n_) indexes outside the
    vectors, which the model reports as [OutOfBounds]. *)
Definition propose (E : Env) (i blockBegin : Z) (st : MetropolisHastings)
    (w : World) : result proposal :=
  let blockEnd := vget 0 (blocks_ st) i in
  if blockEnd - blockBegin <? 0 then Err LengthError
  else if (blockBegin <? blockEnd)
          && negb ((0 <=? blockBegin) && (blockEnd <=? n_ st))
  then Err OutOfBounds
  else
    let block0 := repeat 0%float (Z.to_nat (blockEnd - blockBegin)) in
    let '(block, gcalls, pcalls) :=
      match externalProposal_ st with
      | Some ext =>
          (generate ext (proposal_calls st) (current_ st) (n_ st) block0 i,
           generator_calls st, S (proposal_calls st))
      | None =>
          let '(b, g) :=
            for_range blockBegin blockEnd
              (fun j '(b, g) =>
                 (vset b (j - blockBegin) (generateNewPoint E st g j), S g))
              (block0, generator_calls st) in
          (b, g, proposal_calls st)
      end in
    let currentOld := current_ st in
    let current :=
      for_range blockBegin blockEnd
        (fun j c => vset c j (vget 0%float block (j - blockBegin)))
        (current_ st) in
    let oldLike := currentLike_ st in
    let currentLike := like_ st current (n_ st) in
    newPrior <- calculatePrior E (set_currentLike_ (set_current_ st current)
                                    currentLike) ;;
    let p := (newPrior / currentPrior_ st)%float in
    let deltaLike := (currentLike - oldLike)%float in
    let p := (p * std_exp E (- deltaLike / 2))%float in
    let p :=
      match externalProposal_ st with
      | Some ext =>
          if negb (isSymmetric ext i) then
            let oldBlock :=
              for_range blockBegin blockEnd
                (fun j b => vset b (j - blockBegin) (vget 0%float currentOld j))
                block0 in
            let p := (p * calculate ext current (n_ st) oldBlock i)%float in
            (p / calculate ext currentOld (n_ st) block i)%float
          else p
      | None => p
      end in
    let r := std_rand E (rand_calls w) in
    let q := (Z_to_double r / Z_to_double (RAND_MAX E))%float in
    Ok {| pr_blockEnd := blockEnd; pr_block := block; pr_current := current;
          pr_newLike := currentLike; pr_newPrior := newPrior;
          pr_ratio := p; pr_p := clamp_probability p; pr_q := q;
          pr_generator_calls := gcalls; pr_proposal_calls := pcalls |}.

(** [++accepted[i]]. *)
Definition incr_accepted (accepted : list N) (i : Z) : list N :=
  vset accepted i (ulong_incr (vget 0%N accepted i)).

(** The state of the block loop: the engine, the world, the acceptance
    counters and [blockBegin]. *)
Definition loop_state : Type := MetropolisHastings * World * list N * Z.

(** The body of the block loop (lines 709-759): propose, then accept or
    restore. *)
Definition block_step (E : Env) (i : Z) (ls : loop_state) : result loop_state :=
  let '(st, w, accepted, blockBegin) := ls in
  pr <- propose E i blockBegin st w ;;
  let st1 := set_calls st (pr_generator_calls pr) (pr_proposal_calls pr) in
  let w1 := set_rand_calls w (S (rand_calls w)) in
  if (pr_q pr <=? pr_p pr)%float then
    Ok (set_currentPrior_
          (set_currentLike_ (set_current_ st1 (pr_current pr)) (pr_newLike pr))
          (pr_newPrior pr),
        w1, incr_accepted accepted i, pr_blockEnd pr)
  else
    Ok (st1, w1, accepted, pr_blockEnd pr).

(** ** One sweep over all blocks *)

Definition run_state : Type := MetropolisHastings * World * list N.

(** The body of [while(!stop())] (lines 706-779); the messages on the screen
    are left out. *)
Definition sweep (E : Env) (writeResumeInformation : bool) (rs : run_state)
  : result run_state :=
  let '(st, w, accepted) := rs in
  '(st, w, accepted, _) <-
     for_range_r 0 (vector_size (blocks_ st)) (block_step E)
       (st, w, accepted, 0) ;;
  w <- writeChainElement E st w ;;
  let st := set_iteration_ st (ulong_incr (iteration_ st)) in
  let st := update st in
  let w := if writeResumeInformation then writeResumeInfo E st w else w in
  if (iteration_ st mod 1000 =? 0)%N then
    '(st, w) <- openOut E true (closeOut st) w ;;
    Ok (st, w, accepted)
  else Ok (st, w, accepted).

(** ** The run *)

(** [while(!stop()) { ... }], unrolled at most [fuel] times. *)
Fixpoint run_loop (E : Env) (fuel : nat) (writeResumeInformation : bool)
    (rs : run_state) : result run_state :=
  b <- stop E (fst (fst rs)) ;;
  if b then Ok rs
  else
    match fuel with
    | O => Err FuelExhausted
    | S fuel' =>
        rs' <- sweep E writeResumeInformation rs ;;
        run_loop E fuel' writeResumeInformation rs'
    end.

(** Lines 656-674 of [run]. *)
Definition write_paramnames (E : Env) (st : MetropolisHastings) (w : World)
  : result World :=
  if can_open_paramnames E then
    Ok (set_paramnames_txt w
          (Some (for_range 0 (n_ st)
                   (fun i o =>
                      let name := vget EmptyString (paramNames_ st) i in
                      o ++ [PStr name; PChar "009"%char; PStr name; PEndl])
                   [])))
  else Err (StandardException "Cannot write into paramnames file").

(** The [else] branch of lines 676-701: the state a run starts from when
    there is nothing to resume. *)
Definition fresh_start (E : Env) (maxChainLength : N) (st : MetropolisHastings)
    (w : World) : result (MetropolisHastings * World) :=
  let current := starting_ st in
  let currentLike := like_ st current (n_ st) in
  let st1 := set_sampler st maxChainLength (iteration_ st) currentLike
               (currentPrior_ st) current (prev_ st) (paramSum_ st)
               (paramSquaredSum_ st) (corSum_ st) in
  currentPrior <- calculatePrior E st1 ;;
  let st2 := set_sampler st1 maxChainLength 0%N currentLike currentPrior
               current current (paramSum_ st1) (paramSquaredSum_ st1)
               (corSum_ st1) in
  let st3 :=
    for_range 0 (n_ st2)
      (fun i s =>
         set_sampler s (maxChainLength_ s) (iteration_ s) (currentLike_ s)
           (currentPrior_ s) (current_ s) (prev_ s)
           (vset (paramSum_ s) i 0%float)
           (vset (paramSquaredSum_ s) i 0%float)
           (vset (corSum_ s) i 0%float))
      st2 in
  openOut E false st3 w.

(** Lines 676-701 of [run]. *)
Definition run_start (E : Env) (maxChainLength : N) (st : MetropolisHastings)
    (w : World) : result (MetropolisHastings * World) :=
  let (resumed, st1) := readResumeInfo st w in
  if resumed then openOut E true st1 w
  else fresh_start E maxChainLength st1 w.

(** Sweeps left before the hard cap: no run goes through its loop more often. *)
Definition run_fuel (st : MetropolisHastings) : nat :=
  N.to_nat (N.max 100 (maxChainLength_ st) - iteration_ st).

(** [run] (lines 650-797). It returns the engine, the files and the
    acceptance counters; the loop gets the fuel of [run_fuel], which
    [run_loop_finishes] shows to be enough. *)
Definition run (E : Env) (maxChainLength : N) (writeResumeInformation : bool)
    (st : MetropolisHastings) (w : World) : result run_state :=
  check E (0 <? maxChainLength)%N "invalid maxChainLength" ;;;
  check E (negb (vector_empty (blocks_ st))) "" ;;;
  w <- write_paramnames E st w ;;
  '(st, w) <- run_start E maxChainLength st w ;;
  let accepted := repeat 0%N (List.length (blocks_ st)) in
  '(st, w, accepted) <-
     run_loop E (run_fuel st) writeResumeInformation (st, w, accepted) ;;
  Ok (closeOut st, w, accepted).

(** [M] passes through the body of the loop of [run] in a row. *)
Fixpoint sweeps (E : Env) (M : nat) (writeResumeInformation : bool)
    (rs : run_state) : result run_state :=
  match M with
  | O => Ok rs
  | S M' =>
      rs' <- sweep E writeResumeInformation rs ;;
      sweeps E M' writeResumeInformation rs'
  end.

(** ** Shape of a constructed engine *)

(** The starting point and the parameter-length vectors of the sampler state
    have [n_] entries, as the constructor builds them. *)
Definition sized (st : MetropolisHastings) : bool :=
  let n := Z.to_nat (n_ st) in
  (0 <=? n_ st)
  && Nat.eqb (List.length (starting_ st)) n
  && Nat.eqb (List.length (current_ st)) n
  && Nat.eqb (List.length (prev_ st)) n
  && Nat.eqb (List.length (paramSum_ st)) n
  && Nat.eqb (List.length (paramSquaredSum_ st)) n
  && Nat.eqb (List.length (corSum_ st)) n.

(** The [unsigned long] members are below [2^64]. *)
Definition ulongs_ok (st : MetropolisHastings) : bool :=
  (maxChainLength_ st <? ULONG_MOD)%N && (iteration_ st <? ULONG_MOD)%N.

(** The number of completed lines in a text file. *)
Definition is_endl (p : piece) : bool :=
  match p with PEndl => true | _ => false end.

Definition line_count (c : list piece) : nat :=
  List.length (filter is_endl c).

(** ** Notions used in the statements

    A result other than exhausted fuel: the code came to an end, with a
    value or with an exception. *)
Definition finishes {A : Type} (r : result A) : Prop := r <> Err FuelExhausted.

(** A result that is a value or a failed [check]. *)
Definition checked {A : Type} (r : result A) : Prop :=
  match r with
  | Ok _ | Err (CheckFailed _) => True
  | Err _ => False
  end.

(** What the block loop leaves alone, as a relation between the engine and
    world before the loop and a state of the loop. *)
Definition loop_frame (st : MetropolisHastings) (w : World) (ls : loop_state)
  : Prop :=
  let '(st', w', _, _) := ls in
  iteration_ st' = iteration_ st
  /\ maxChainLength_ st' = maxChainLength_ st
  /\ n_ st' = n_ st
  /\ blocks_ st' = blocks_ st
  /\ out_ st' = out_ st
  /\ chain_txt w' = chain_txt w
  /\ resume_dat w' = resume_dat w.

(** A good stream positioned at byte [k] of a file. *)
Definition at_offset (bytes : list Byte.byte) (k : nat) : istream :=
  {| is_bytes := skipn k bytes; is_good := true |}.

(** ** A concrete engine

    The surroundings used to run the model on concrete inputs: the
    one-parameter likelihood [x * x] of the test suite, a Weyl sequence for
    [std::rand], a sum-of-uniforms Gaussian generator and a series for
    [std::exp]. *)

Definition SimpleLikelihood : LikelihoodFunction :=
  fun params _ => let x := vget 0%float params 0 in (x * x)%float.

(** The [k]-th term of a Weyl sequence modulo [2^31]. *)
Definition weyl (k : Z) : Z := (k * 1103515245 + 12345) mod 2147483648.

Definition sample_rand (k : nat) : Z := weyl (Z.of_nat (S k)).

Definition sample_gaussian (k : nat) : float :=
  (fold_left
     (fun acc j =>
        acc + Z_to_double (weyl (7 * Z.of_nat (12 * k + j) + 3)) / 2147483648)%float
     (seq 0 12) 0 - 6)%float.

Definition exp_series (x : float) : float :=
  let y := (x / 1024)%float in
  let t :=
    fold_right (fun k acc => 1 + y / Z_to_double k * acc)%float 1%float
      (Zrange 1 13) in
  fold_left (fun acc _ => acc * acc)%float (seq 0 10) t.

Definition sample_env (checks : bool) : Env :=
  {| checks_on := checks;
     std_exp := exp_series;
     Math_pi := 0x1.921fb54442d18p+1%float;
     generator_generate := sample_gaussian;
     std_rand := sample_rand;
     RAND_MAX := 2147483647;
     can_open_paramnames := true;
     can_open_chain := true;
     can_open_resume := true |}.

Definition empty_world : World :=
  {| resume_dat := None; chain_txt := None; paramnames_txt := None;
     rand_calls := 0 |}.

Definition garbage : Uninitialized :=
  {| u_maxChainLength := 7; u_iteration := 9;
     u_currentLike := 3%float; u_currentPrior := 5%float |}.

(** The engine of a failed construction or configuration, for the concrete
    inputs below (none of them fails). *)
Definition no_engine : MetropolisHastings :=
  {| n_ := 0; like_ := SimpleLikelihood; param1_ := []; param2_ := [];
     starting_ := []; samplingWidth_ := []; accuracy_ := []; priorMods_ := [];
     paramNames_ := []; paramSum_ := []; paramSquaredSum_ := []; corSum_ := [];
     externalPrior_ := None; externalProposal_ := None; blocks_ := [];
     generator_calls := 0; proposal_calls := 0; prev_ := []; current_ := [];
     maxChainLength_ := 0; iteration_ := 0; currentLike_ := 0%float;
     currentPrior_ := 0%float; resumeCode_ := 123456; out_ := false |}.

Definition engine_of (r : result MetropolisHastings) : MetropolisHastings :=
  match r with Ok st => st | Err _ => no_engine end.

(** One parameter, uniform on [-1, 1], started at the midpoint. *)
Definition sample_engine : MetropolisHastings :=
  engine_of
    (st <- MetropolisHastings_new (sample_env true) garbage 1 SimpleLikelihood ;;
     setParam (sample_env true) 0 "x" (-1) 1 DBL_MAX 0.5 0 st).

(** One parameter, uniform on [0, 1], started at 2: outside the support of
    its prior. *)
Definition outside_engine : MetropolisHastings :=
  engine_of
    (st <- MetropolisHastings_new (sample_env true) garbage 1 SimpleLikelihood ;;
     setParam (sample_env true) 0 "x" 0 1 2 0.0625 0 st).

(** [sample_engine] once a run of at most 300 sweeps has started. *)
Definition started : MetropolisHastings * World :=
  match run_start (sample_env true) 300 sample_engine empty_world with
  | Ok sw => sw
  | Err _ => (no_engine, empty_world)
  end.

(** One parameter, uniform on [0, 1], started at 1.7. *)
Definition stalled_config : MetropolisHastings :=
  engine_of
    (st <- MetropolisHastings_new (sample_env true) garbage 1 SimpleLikelihood ;;
     setParam (sample_env true) 0 "x" 0 1 0x1.b333333333333p+0 0.0625 0 st).

(** The sampler state of [stalled_config] after 100 sweeps of a run of at most
    150: no proposal was accepted, so the sums are those of a chain that stayed
    at 1.7. *)
Definition stalled_engine : MetropolisHastings :=
  set_sampler stalled_config 150 100 0x1.71eb851eb851ep+1 0
    [0x1.b333333333333p+0]%float [0x1.b333333333333p+0]%float
    [0x1.53ffffffffffbp+7]%float [0x1.20ffffffffff3p+8]%float
    [0x1.20ffffffffff3p+8]%float.

(** The members of the sampler state, for comparing two engines. *)
Definition sampler_state (st : MetropolisHastings) :=
  (maxChainLength_ st, iteration_ st, currentLike_ st, currentPrior_ st,
   current_ st, prev_ st, paramSum_ st, paramSquaredSum_ st, corSum_ st).

(** The first proposal, block update and sweep of the run [started]. *)
Definition no_proposal : proposal :=
  {| pr_blockEnd := 0; pr_block := []; pr_current := []; pr_newLike := 0%float;
     pr_newPrior := 0%float; pr_ratio := 0%float; pr_p := 0%float;
     pr_q := 0%float; pr_generator_calls := 0; pr_proposal_calls := 0 |}.

Definition started_proposal : proposal :=
  match propose (sample_env true) 0 0 (fst started) (snd started) with
  | Ok pr => pr
  | Err _ => no_proposal
  end.

Definition started_step : loop_state :=
  match block_step (sample_env true) 0 (fst started, snd started, [0%N], 0) with
  | Ok ls => ls
  | Err _ => (no_engine, empty_world, [], 0)
  end.

Definition started_sweep : run_state :=
  match sweep (sample_env true) true (fst started, snd started, [0%N]) with
  | Ok rs => rs
  | Err _ => (no_engine, empty_world, [])
  end.

(** A world holding the resume file of [stalled_engine], and one holding the
    same file with a zero marker. *)
Definition resumable_world : World :=
  writeResumeInfo (sample_env true) stalled_engine empty_world.

Definition bad_marker_world : World :=
  set_resume_dat empty_world
    (Some (firstn 72 (resume_image stalled_engine) ++ int_to_bytes 0)).

(** Three parameters, none configured yet. *)
Definition three_parameters : MetropolisHastings :=
  engine_of (MetropolisHastings_new (sample_env true) garbage 3 SimpleLikelihood).

(** ** Further notions and engines *)

(** A result other than an index outside a vector or a vector of negative
    size. *)
Definition in_bounds {A : Type} (r : result A) : Prop :=
  match r with
  | Err OutOfBounds | Err LengthError => False
  | _ => True
  end.

(** Two engines with the same configuration: what the constructor,
    [setParam], [setParamGauss], [specifyParameterBlocks],
    [useExternalPrior] and [useExternalProposal] set. *)
Definition same_config (a b : MetropolisHastings) : Prop :=
  n_ a = n_ b
  /\ like_ a = like_ b
  /\ param1_ a = param1_ b
  /\ param2_ a = param2_ b
  /\ starting_ a = starting_ b
  /\ samplingWidth_ a = samplingWidth_ b
  /\ accuracy_ a = accuracy_ b
  /\ priorMods_ a = priorMods_ b
  /\ paramNames_ a = paramNames_ b
  /\ externalPrior_ a = externalPrior_ b
  /\ externalProposal_ a = externalProposal_ b
  /\ blocks_ a = blocks_ b
  /\ resumeCode_ a = resumeCode_ b.

(** The per-parameter vectors of the configuration have [n_] entries, as the
    constructor builds them. *)
Definition config_sized (st : MetropolisHastings) : bool :=
  let n := Z.to_nat (n_ st) in
  Nat.eqb (List.length (param1_ st)) n
  && Nat.eqb (List.length (param2_ st)) n
  && Nat.eqb (List.length (samplingWidth_ st)) n
  && Nat.eqb (List.length (accuracy_ st)) n
  && Nat.eqb (List.length (priorMods_ st)) n
  && Nat.eqb (List.length (paramNames_ st)) n.

(** Is the prior of parameter [i] one that [calculatePrior] can evaluate:
    uniform on an interval with [min < max], or Gaussian with [sigma > 0]. *)
Definition prior_set (st : MetropolisHastings) (i : Z) : bool :=
  match vget PRIOR_MODE_MAX (priorMods_ st) i with
  | UNIFORM_PRIOR =>
      (vget 0 (param1_ st) i <? vget 0 (param2_ st) i)%float
  | GAUSSIAN_PRIOR => (0 <? vget 0 (param2_ st) i)%float
  | PRIOR_MODE_MAX => false
  end.

(** The engine with other accuracies. *)
Definition set_accuracy_ (st : MetropolisHastings) (accuracy : list float)
  : MetropolisHastings :=
  set_config st (paramNames_ st) (param1_ st) (param2_ st) (priorMods_ st)
    (starting_ st) (samplingWidth_ st) accuracy (blocks_ st)
    (externalPrior_ st) (externalProposal_ st).

(** The run of [sample_engine] with a maximal length of 1 and the resume
    file written: the 100 sweeps that [stop] asks for at least. *)
Definition finished : run_state :=
  match run (sample_env true) 1 true sample_engine empty_world with
  | Ok rs => rs
  | Err _ => (no_engine, empty_world, [])
  end.

(** An external proposal: every entry of the block is the first parameter
    moved by an eighth; its density is not symmetric. *)
Definition step_proposal : ProposalFunctionBase :=
  {| generate := fun _ params _ block _ =>
       map (fun _ => (vget 0 params 0 + 0.125)%float) block;
     calculate := fun _ _ block _ =>
       (1 + vget 0 block 0 * vget 0 block 0)%float;
     isSymmetric := fun _ => false |}.

(** The first proposal of the run [started] when the engine uses
    [step_proposal]. *)
Definition started_external : proposal :=
  match propose (sample_env true) 0 0
          (useExternalProposal step_proposal (fst started)) (snd started) with
  | Ok pr => pr
  | Err _ => no_proposal
  end.

(** A file with the state of [stalled_engine] followed by two more bytes,
    and one that ends two bytes into the marker. *)
Definition long_file_world : World :=
  set_resume_dat empty_world
    (Some (resume_image stalled_engine ++ [Byte.x2a; Byte.x2a])).

Definition short_file_world : World :=
  set_resume_dat empty_world (Some (firstn 74 (resume_image stalled_engine))).

(** [three_parameters] with its second parameter set, uniform on [-2, 3]
    with everything else defaulted, and with its third set, Gaussian around
    1 with sigma 0.5. *)
Definition second_set : MetropolisHastings :=
  engine_of
    (setParam (sample_env true) 1 "y" (-2) 3 DBL_MAX 0 0 three_parameters).

Definition third_set : MetropolisHastings :=
  engine_of
    (setParamGauss (sample_env true) 2 "z" 1 0.5 DBL_MAX 0 0
       three_parameters).

(** The run [started] with one block that ends at 5, past its one
    parameter. *)
Definition overlong_block : MetropolisHastings :=
  engine_of (specifyParameterBlocks (sample_env true) [5] (fst started)).

(** [sample_engine] with the blocks [-1, 1]: a first boundary below 0, in a
    list that ends at the one parameter. *)
Definition negative_block : MetropolisHastings :=
  engine_of (specifyParameterBlocks (sample_env true) [-1; 1] sample_engine).

(** ** Sequences of configuration calls *)

(** A call of one of the two parameter setting functions, with all its
    arguments. *)
Inductive setting : Type :=
| Uniform (i : Z) (name : string)
    (min max starting samplingWidth accuracy : float)
| Gaussian (i : Z) (name : string)
    (mean sigma starting samplingWidth accuracy : float).

Definition setting_index (c : setting) : Z :=
  match c with
  | Uniform i _ _ _ _ _ _ => i
  | Gaussian i _ _ _ _ _ _ => i
  end.

Definition apply_setting (E : Env) (c : setting) (st : MetropolisHastings)
  : result MetropolisHastings :=
  match c with
  | Uniform i name min max starting samplingWidth accuracy =>
      setParam E i name min max starting samplingWidth accuracy st
  | Gaussian i name mean sigma starting samplingWidth accuracy =>
      setParamGauss E i name mean sigma starting samplingWidth accuracy st
  end.

(** The calls made one after the other; the first that throws ends the
    sequence. *)
Fixpoint apply_settings (E : Env) (cs : list setting) (st : MetropolisHastings)
  : result MetropolisHastings :=
  match cs with
  | [] => Ok st
  | c :: rest => st' <- apply_setting E c st ;; apply_settings E rest st'
  end.

(** Three parameters with the first and the third set, and with all three
    set. *)
Definition two_of_three : list setting :=
  [Gaussian 2 "z" 1 0.5 DBL_MAX 0 0; Uniform 0 "x" (-1) 1 DBL_MAX 0 0].

Definition all_of_three : list setting :=
  Uniform 1 "y" (-2) 3 DBL_MAX 0 0 :: two_of_three.

Definition configured (cs : list setting) : MetropolisHastings :=
  engine_of
    (st <- MetropolisHastings_new (sample_env true) garbage 3 SimpleLikelihood ;;
     apply_settings (sample_env true) cs st).

(** An engine whose prior can be evaluated: an external prior, or every
    parameter set. *)
Definition prior_ready (st : MetropolisHastings) : Prop :=
  externalPrior_ st <> None
  \/ forall i, 0 <= i < n_ st -> prior_set st i = true.

(** Block boundaries that lie in [0, n] and do not decrease. *)
Definition blocks_in_range (st : MetropolisHastings) : Prop :=
  (forall i, 0 <= i < vector_size (blocks_ st) ->
     0 <= vget 0 (blocks_ st) i <= n_ st)
  /\ (forall i, 1 <= i < vector_size (blocks_ st) ->
        vget 0 (blocks_ st) (i - 1) <= vget 0 (blocks_ st) i).

(** * Properties *)

(** ** Comparisons of [double] values *)

Lemma SFcompare_swap (x y : spec_float) :
  SFcompare y x = option_map CompOpp (SFcompare x y).
Proof.
  destruct x as [sx | sx | | sx mx ex], y as [sy | sy | | sy my ey];
    cbn; try reflexivity;
    try (destruct sx; reflexivity); try (destruct sy; reflexivity);
    try (destruct sx, sy; reflexivity).
  f_equal. rewrite (Z.compare_antisym ex ey).
  pose proof (Pos.compare_cont_antisym mx my Eq) as Hm. cbn in Hm.
  destruct sx, sy; cbn; try reflexivity;
    destruct (ex ?= ey); cbn; try reflexivity;
    rewrite Hm; try rewrite CompOpp_involutive; reflexivity.
Qed.

Lemma SFcompare_refl (x : spec_float) :
  x <> S754_nan -> SFcompare x x = Some Eq.
Proof.
  destruct x as [s | s | | s m e]; cbn; intros H; try reflexivity.
  - destruct s; reflexivity.
  - congruence.
  - rewrite Z.compare_refl, Pos.compare_cont_refl. destruct s; reflexivity.
Qed.

Lemma is_nan_spec (x : float) : is_nan x = true <-> Prim2SF x = S754_nan.
Proof.
  unfold is_nan. rewrite eqb_spec. unfold SFeqb. split.
  - intros H. destruct (Prim2SF x) eqn:Hx; try reflexivity;
      rewrite SFcompare_refl in H by discriminate; discriminate.
  - intros ->. reflexivity.
Qed.

Lemma not_nan_spec (x : float) : is_nan x = false <-> Prim2SF x <> S754_nan.
Proof.
  rewrite <- is_nan_spec. destruct (is_nan x); split; congruence.
Qed.

Lemma SFcompare_defined (x y : spec_float) :
  x <> S754_nan -> y <> S754_nan -> exists c, SFcompare x y = Some c.
Proof.
  destruct x, y; cbn; intros Hx Hy; try congruence; eauto.
Qed.

(** Away from NaN, [x <= y] is the negation of [y < x]. *)
Lemma leb_ltb_swap (x y : float) :
  is_nan x = false -> is_nan y = false ->
  (x <=? y)%float = negb (y <? x)%float.
Proof.
  intros Hx Hy. apply not_nan_spec in Hx, Hy.
  rewrite leb_spec, ltb_spec. unfold SFleb, SFltb.
  rewrite (SFcompare_swap (Prim2SF x) (Prim2SF y)).
  destruct (SFcompare_defined _ _ Hx Hy) as [c ->].
  destruct c; reflexivity.
Qed.

(** Every comparison with NaN is false. *)
Lemma leb_nan_l (x y : float) : is_nan x = true -> (x <=? y)%float = false.
Proof.
  intros H. apply is_nan_spec in H. rewrite leb_spec. unfold SFleb.
  rewrite H. reflexivity.
Qed.

Lemma leb_nan_r (x y : float) : is_nan y = true -> (x <=? y)%float = false.
Proof.
  intros H. apply is_nan_spec in H. rewrite leb_spec. unfold SFleb.
  rewrite H. destruct (Prim2SF x); reflexivity.
Qed.

Lemma ltb_nan_r (x y : float) : is_nan y = true -> (x <? y)%float = false.
Proof.
  intros H. apply is_nan_spec in H. rewrite ltb_spec. unfold SFltb.
  rewrite H. destruct (Prim2SF x); reflexivity.
Qed.

(** ** The clamp *)

Lemma clamp_never_above_one (p : float) :
  (1 <? clamp_probability p)%float = false.
Proof.
  unfold clamp_probability. destruct (1 <? p)%float eqn:H; [reflexivity | exact H].
Qed.

Lemma clamp_le_one_iff (p : float) :
  (clamp_probability p <=? 1)%float = true <-> is_nan p = false.
Proof.
  unfold clamp_probability. destruct (is_nan p) eqn:Hn.
  - rewrite (ltb_nan_r 1 p Hn), (leb_nan_l p 1 Hn). split; discriminate.
  - destruct (1 <? p)%float eqn:H.
    + split; reflexivity.
    + rewrite (leb_ltb_swap p 1 Hn eq_refl), H. split; reflexivity.
Qed.

(** ** Loops and vectors *)

Lemma Zrange_length (lo hi : Z) : List.length (Zrange lo hi) = Z.to_nat (hi - lo).
Proof. unfold Zrange. now rewrite length_map, length_seq. Qed.

Lemma Zrange_In (lo hi j : Z) : In j (Zrange lo hi) <-> lo <= j < hi.
Proof.
  unfold Zrange. rewrite in_map_iff. split.
  - intros (k & <- & Hk). apply in_seq in Hk. lia.
  - intros H. exists (Z.to_nat (j - lo)). split; [lia |].
    apply in_seq. lia.
Qed.

Lemma Zrange_empty (lo hi : Z) : hi <= lo -> Zrange lo hi = [].
Proof.
  intros H. unfold Zrange. replace (Z.to_nat (hi - lo)) with O by lia.
  reflexivity.
Qed.

Lemma Zrange_snoc (lo hi : Z) :
  lo <= hi -> Zrange lo (hi + 1) = Zrange lo hi ++ [hi].
Proof.
  intros H. unfold Zrange.
  replace (Z.to_nat (hi + 1 - lo)) with (Z.to_nat (hi - lo) + 1)%nat by lia.
  rewrite seq_app, map_app. cbn. f_equal. f_equal. lia.
Qed.

Lemma list_set_length {A : Type} (v : list A) (k : nat) (x : A) :
  List.length (list_set v k x) = List.length v.
Proof.
  revert k. induction v as [| h t IH]; intros [| k]; cbn; auto.
Qed.

Lemma vset_length {A : Type} (v : list A) (i : Z) (x : A) :
  List.length (vset v i x) = List.length v.
Proof.
  unfold vset. destruct (i <? 0); [reflexivity | apply list_set_length].
Qed.

Lemma nth_list_set_eq {A : Type} (d : A) (v : list A) (k : nat) (x : A) :
  (k < List.length v)%nat -> nth k (list_set v k x) d = x.
Proof.
  revert k. induction v as [| h t IH]; intros [| k] H; cbn in *;
    try lia; auto. apply IH. lia.
Qed.

Lemma nth_list_set_neq {A : Type} (d : A) (v : list A) (k j : nat) (x : A) :
  j <> k -> nth j (list_set v k x) d = nth j v d.
Proof.
  revert k j. induction v as [| h t IH]; intros [| k] [| j] H; cbn;
    try congruence; auto.
Qed.

Lemma vget_vset_eq {A : Type} (d : A) (v : list A) (i : Z) (x : A) :
  0 <= i < vector_size v -> vget d (vset v i x) i = x.
Proof.
  unfold vget, vset, vector_size. intros H.
  replace (i <? 0) with false by (symmetry; apply Z.ltb_ge; lia).
  apply nth_list_set_eq. lia.
Qed.

Lemma vget_vset_neq {A : Type} (d : A) (v : list A) (i j : Z) (x : A) :
  0 <= j -> j <> i -> vget d (vset v i x) j = vget d v j.
Proof.
  unfold vget, vset. intros Hj H. destruct (i <? 0) eqn:Hi; [reflexivity |].
  apply Z.ltb_ge in Hi. apply nth_list_set_neq. lia.
Qed.

(** ** The monad *)

Lemma bind_Ok {A B : Type} (r : result A) (k : A -> result B) (b : B) :
  bind r k = Ok b -> exists a, r = Ok a /\ k a = Ok b.
Proof. destruct r as [a | e]; cbn; intros H; [eauto | discriminate]. Qed.

Lemma check_Ok (E : Env) (c : bool) (msg : string) (u : unit) :
  check E c msg = Ok u -> checks_on E = false \/ c = true.
Proof.
  unfold check. destruct (checks_on E), c; cbn; intros H;
    try discriminate; auto.
Qed.

Lemma check_true (E : Env) (msg : string) : check E true msg = Ok tt.
Proof. unfold check. now rewrite andb_false_r. Qed.

(** ** The block update *)

Lemma propose_inv (E : Env) (i blockBegin : Z)
    (st : MetropolisHastings) (w : World) (pr : proposal) :
  propose E i blockBegin st w = Ok pr ->
  calculatePrior E
    (set_currentLike_ (set_current_ st (pr_current pr)) (pr_newLike pr))
  = Ok (pr_newPrior pr)
  /\ pr_newLike pr = like_ st (pr_current pr) (n_ st)
  /\ pr_p pr = clamp_probability (pr_ratio pr)
  /\ pr_q pr = (Z_to_double (std_rand E (rand_calls w))
                / Z_to_double (RAND_MAX E))%float
  /\ pr_blockEnd pr = vget 0 (blocks_ st) i
  /\ (externalProposal_ st = None ->
      pr_ratio pr
      = (pr_newPrior pr / currentPrior_ st
         * std_exp E (- (pr_newLike pr - currentLike_ st) / 2))%float).
Proof.
  intros H. unfold propose in H.
  destruct (vget 0 (blocks_ st) i - blockBegin <? 0); [discriminate |].
  destruct ((blockBegin <? vget 0 (blocks_ st) i)
            && negb ((0 <=? blockBegin) && (vget 0 (blocks_ st) i <=? n_ st)));
    [discriminate |].
  destruct (externalProposal_ st) as [ext |].
  - apply bind_Ok in H as (newPrior & Hprior & H).
    injection H as <-. cbn. repeat split; auto. discriminate.
  - destruct (for_range blockBegin (vget 0 (blocks_ st) i) _ _) as [b g].
    apply bind_Ok in H as (newPrior & Hprior & H).
    injection H as <-. cbn. repeat split; auto.
Qed.

(** C1 (as amended): in a block update with the built-in proposal the
    probability compared with the uniform draw is the ratio
    [r = (P_new / P_current) * exp(-(L_new - L_current) / 2)], replaced by 1
    when [r > 1]. It is never above 1, and it is [<= 1] exactly when [r] is
    not NaN. *)
Theorem acceptance_probability_builtin (E : Env) (i blockBegin : Z)
    (st : MetropolisHastings) (w : World) (pr : proposal) :
  externalProposal_ st = None ->
  propose E i blockBegin st w = Ok pr ->
  let r := (pr_newPrior pr / currentPrior_ st
            * std_exp E (- (pr_newLike pr - currentLike_ st) / 2))%float in
  pr_p pr = (if (1 <? r)%float then 1%float else r)
  /\ (1 <? pr_p pr)%float = false
  /\ ((pr_p pr <=? 1)%float = true <-> is_nan r = false).
Proof.
  intros Hext H r.
  destruct (propose_inv E i blockBegin st w pr H)
    as (_ & _ & Hp & _ & _ & Hr).
  specialize (Hr Hext). fold r in Hr. rewrite Hp, Hr.
  split; [reflexivity |].
  split; [apply clamp_never_above_one | apply clamp_le_one_iff].
Qed.

(** C2: a block update either accepts, committing the new prior, keeping the
    new likelihood and the proposed vector and adding one to the counter of
    the block, or it rejects, leaving vector, likelihood, prior and counters
    as they were before the proposal. *)
Theorem block_step_accept_or_restore (E : Env) (i blockBegin : Z)
    (st : MetropolisHastings) (w : World) (accepted : list N)
    (ls' : loop_state) :
  block_step E i (st, w, accepted, blockBegin) = Ok ls' ->
  exists pr,
    propose E i blockBegin st w = Ok pr /\
    let '(st', _, accepted', _) := ls' in
    if (pr_q pr <=? pr_p pr)%float then
      currentPrior_ st' = pr_newPrior pr
      /\ currentLike_ st' = pr_newLike pr
      /\ current_ st' = pr_current pr
      /\ currentLike_ st' = like_ st' (current_ st') (n_ st')
      /\ (0 <= i < vector_size accepted ->
          (vget 0%N accepted i + 1 < ULONG_MOD)%N ->
          vget 0%N accepted' i = (vget 0%N accepted i + 1)%N)
      /\ (forall k, 0 <= k -> k <> i ->
          vget 0%N accepted' k = vget 0%N accepted k)
    else
      current_ st' = current_ st
      /\ currentLike_ st' = currentLike_ st
      /\ currentPrior_ st' = currentPrior_ st
      /\ accepted' = accepted.
Proof.
  intros H. unfold block_step in H.
  apply bind_Ok in H as (pr & Hpr & H).
  exists pr. split; [exact Hpr |].
  destruct (propose_inv E i blockBegin st w pr Hpr) as (_ & Hlike & _).
  destruct (pr_q pr <=? pr_p pr)%float; injection H as <-; cbn.
  - repeat split; try reflexivity.
    + exact Hlike.
    + intros Hi Hcount. unfold incr_accepted.
      rewrite vget_vset_eq by exact Hi.
      unfold ulong_incr. apply N.mod_small. exact Hcount.
    + intros k Hk Hne. unfold incr_accepted. now apply vget_vset_neq.
  - repeat split; reflexivity.
Qed.

(** ** The stopping rule *)

Lemma stop_loop_spec (st : MetropolisHastings) (idx : list Z) :
  stop_loop st idx = true <->
  forall i, In i idx ->
    (vget 0 (accuracy_ st) i <? stop_stdMean st i)%float = false.
Proof.
  induction idx as [| j rest IH]; cbn.
  - split; [intros _ i [] | reflexivity].
  - destruct (vget 0 (accuracy_ st) j <? stop_stdMean st j)%float eqn:Hj.
    + split; [discriminate |]. intros H. rewrite <- Hj. symmetry. apply H. now left.
    + rewrite IH. split.
      * intros H i [<- | Hi]; [exact Hj | now apply H].
      * intros H i Hi. apply H. now right.
Qed.

Lemma stop_check (E : Env) (st : MetropolisHastings) :
  check E (0 <=? iteration_ st)%N "" = Ok tt.
Proof.
  replace (0 <=? iteration_ st)%N with true; [apply check_true |].
  symmetry. apply N.leb_le. apply N.le_0_l.
Qed.

(** C3 (as amended): [stop] says no before iteration 100; from iteration 100
    on and below the maximum chain length it says yes exactly when no
    parameter has an inflated standard error above its accuracy, which is the
    same as that error being [<=] the accuracy whenever neither is NaN. *)
Theorem stop_decision (E : Env) (st : MetropolisHastings) :
  ((iteration_ st < 100)%N -> stop E st = Ok false)
  /\ ((100 <= iteration_ st < maxChainLength_ st)%N ->
      exists b, stop E st = Ok b /\
        (b = true <->
         forall i, 0 <= i < n_ st ->
           (vget 0 (accuracy_ st) i <? stop_stdMean st i)%float = false))
  /\ (forall i,
        is_nan (stop_stdMean st i) = false ->
        is_nan (vget 0%float (accuracy_ st) i) = false ->
        ((vget 0 (accuracy_ st) i <? stop_stdMean st i)%float = false <->
         (stop_stdMean st i <=? vget 0 (accuracy_ st) i)%float = true)).
Proof.
  split; [| split].
  - intros Hlt. unfold stop. rewrite stop_check. cbn.
    apply N.ltb_lt in Hlt. now rewrite Hlt.
  - intros [Hge Hlt]. unfold stop. rewrite stop_check. cbn.
    apply N.ltb_ge in Hge. apply N.leb_gt in Hlt. rewrite Hge, Hlt.
    eexists. split; [reflexivity |]. rewrite stop_loop_spec.
    split; intros H i Hi; apply H; now apply Zrange_In.
  - intros i Hs Ha. rewrite (leb_ltb_swap _ _ Hs Ha).
    destruct (vget 0 (accuracy_ st) i <? stop_stdMean st i)%float;
      split; intros H; try reflexivity; discriminate.
Qed.

(** ** Invariants of the loops *)

Lemma for_list_r_inv {S : Type} (P : S -> Prop) (idx : list Z)
    (body : Z -> S -> result S) (s s' : S) :
  (forall j x x', In j idx -> P x -> body j x = Ok x' -> P x') ->
  P s -> for_list_r idx body s = Ok s' -> P s'.
Proof.
  revert s. induction idx as [| j rest IH]; cbn; intros s Hbody Hs H.
  - now injection H as <-.
  - apply bind_Ok in H as (x & Hx & H).
    apply (IH x); [| | exact H].
    + intros k y y' Hk. apply Hbody. now right.
    + apply (Hbody j s x); auto; now left.
Qed.

Lemma for_range_inv {S : Type} (P : S -> Prop) (lo hi : Z)
    (body : Z -> S -> S) (s : S) :
  (forall j x, lo <= j < hi -> P x -> P (body j x)) ->
  P s -> P (for_range lo hi body s).
Proof.
  unfold for_range. intros Hbody.
  assert (Hin : forall j, In j (Zrange lo hi) -> lo <= j < hi)
    by (intros j; apply Zrange_In).
  revert s. induction (Zrange lo hi) as [| j rest IH]; cbn; intros s Hs.
  - exact Hs.
  - apply IH; [intros k Hk; apply Hin; now right |].
    apply Hbody; [apply Hin; now left | exact Hs].
Qed.

(** ** No operation reports exhausted fuel on its own *)

Lemma finishes_Ok {A : Type} (a : A) : finishes (Ok a).
Proof. discriminate. Qed.

Lemma finishes_bind {A B : Type} (r : result A) (k : A -> result B) :
  finishes r -> (forall a, r = Ok a -> finishes (k a)) -> finishes (bind r k).
Proof.
  destruct r as [a | e]; cbn; intros Hr Hk; [now apply Hk |].
  intros H. apply Hr. congruence.
Qed.

Lemma finishes_check (E : Env) (c : bool) (msg : string) :
  finishes (check E c msg).
Proof. unfold check. destruct (checks_on E && negb c); discriminate. Qed.

Lemma finishes_for_list_r {S : Type} (idx : list Z)
    (body : Z -> S -> result S) (s : S) :
  (forall j x, finishes (body j x)) -> finishes (for_list_r idx body s).
Proof.
  intros Hbody. revert s. induction idx as [| j rest IH]; cbn; intros s.
  - apply finishes_Ok.
  - apply finishes_bind; auto.
Qed.

Create HintDb finishes.
#[local] Hint Resolve finishes_Ok finishes_check : finishes.

(** Takes a goal [finishes c] apart along the binds, branches and pairs of
    [c], leaving the calls to the hints. *)
Ltac finish_step :=
  match goal with
  | |- finishes (Ok _) => apply finishes_Ok
  | |- finishes (Err _) => discriminate
  | |- finishes (bind _ _) => apply finishes_bind; [| intros ? _]
  | |- finishes (for_list_r _ _ _) => apply finishes_for_list_r; intros ? ?
  | |- finishes (for_range_r _ _ _ _) => apply finishes_for_list_r; intros ? ?
  | |- finishes (if ?c then _ else _) => destruct c
  | |- finishes (match ?x with _ => _ end) => destruct x
  end.

Ltac finish := repeat finish_step; auto with finishes.

Section Finishes.

Variable E : Env.

Lemma finishes_calculatePrior (st : MetropolisHastings) :
  finishes (calculatePrior E st).
Proof. unfold calculatePrior, uniformPrior, gaussPrior. finish. Qed.

Hint Resolve finishes_calculatePrior : finishes.

Lemma finishes_propose (i blockBegin : Z) (st : MetropolisHastings)
    (w : World) : finishes (propose E i blockBegin st w).
Proof. unfold propose. finish. Qed.

Hint Resolve finishes_propose : finishes.

Lemma finishes_block_step (i : Z) (ls : loop_state) :
  finishes (block_step E i ls).
Proof. unfold block_step. finish. Qed.

Lemma finishes_openOut (append : bool) (st : MetropolisHastings)
    (w : World) : finishes (openOut E append st w).
Proof. unfold openOut. finish. Qed.

Hint Resolve finishes_block_step finishes_openOut : finishes.

Lemma finishes_sweep (wri : bool) (rs : run_state) :
  finishes (sweep E wri rs).
Proof. unfold sweep, writeChainElement. finish. Qed.

End Finishes.

(** ** What a sweep leaves alone *)

Lemma block_step_frame (E : Env) (i : Z) (st st' : MetropolisHastings)
    (w w' : World) (acc acc' : list N) (bb bb' : Z) :
  block_step E i (st, w, acc, bb) = Ok (st', w', acc', bb') ->
  iteration_ st' = iteration_ st
  /\ maxChainLength_ st' = maxChainLength_ st
  /\ n_ st' = n_ st
  /\ blocks_ st' = blocks_ st
  /\ out_ st' = out_ st
  /\ chain_txt w' = chain_txt w
  /\ resume_dat w' = resume_dat w.
Proof.
  unfold block_step. intros H. apply bind_Ok in H as (pr & _ & H).
  destruct (pr_q pr <=? pr_p pr)%float; injection H as <- <- <- <-; cbn;
    repeat split; reflexivity.
Qed.

Lemma block_loop_frame (E : Env) (st : MetropolisHastings) (w : World)
    (acc : list N) (idx : list Z) (ls' : loop_state) :
  for_list_r idx (block_step E) (st, w, acc, 0) = Ok ls' ->
  loop_frame st w ls'.
Proof.
  apply for_list_r_inv.
  - intros j [[[x wx] ax] bx] [[[y wy] ay] b_y] _ Hx Hy.
    apply block_step_frame in Hy. unfold loop_frame in *.
    intuition congruence.
  - cbn. repeat split; reflexivity.
Qed.

Lemma update_frame (st : MetropolisHastings) :
  iteration_ (update st) = iteration_ st
  /\ maxChainLength_ (update st) = maxChainLength_ st
  /\ n_ (update st) = n_ st
  /\ blocks_ (update st) = blocks_ st
  /\ out_ (update st) = out_ st
  /\ current_ (update st) = current_ st
  /\ currentLike_ (update st) = currentLike_ st.
Proof.
  unfold update. cbn.
  apply (for_range_inv
           (fun s => iteration_ s = iteration_ st
                     /\ maxChainLength_ s = maxChainLength_ st
                     /\ n_ s = n_ st
                     /\ blocks_ s = blocks_ st
                     /\ out_ s = out_ st
                     /\ current_ s = current_ st
                     /\ currentLike_ s = currentLike_ st)).
  - intros j x _ H. cbn. exact H.
  - repeat split; reflexivity.
Qed.

Lemma for_range_snoc {S : Type} (lo hi : Z) (body : Z -> S -> S) (s : S) :
  lo <= hi ->
  for_range lo (hi + 1) body s = body hi (for_range lo hi body s).
Proof.
  intros H. unfold for_range. rewrite Zrange_snoc by exact H.
  now rewrite fold_left_app.
Qed.

Lemma for_range_nil {S : Type} (lo hi : Z) (body : Z -> S -> S) (s : S) :
  hi <= lo -> for_range lo hi body s = s.
Proof. intros H. unfold for_range. now rewrite Zrange_empty. Qed.

(** A loop over a record that acts on one member acts as a loop on that
    member. *)
Lemma for_range_proj {S T : Type} (proj : S -> T) (lo hi : Z)
    (body : Z -> S -> S) (g : Z -> T -> T) (s : S) :
  (forall j x, proj (body j x) = g j (proj x)) ->
  proj (for_range lo hi body s) = for_range lo hi g (proj s).
Proof.
  intros H. unfold for_range. revert s.
  induction (Zrange lo hi) as [| j rest IH]; cbn; intros s; [reflexivity |].
  now rewrite IH, H.
Qed.

Lemma list_set_app_here {A : Type} (pre : list A) (y x : A) (post : list A) :
  list_set (pre ++ y :: post) (List.length pre) x = pre ++ x :: post.
Proof. induction pre as [| h t IH]; cbn; [reflexivity | now rewrite IH]. Qed.

(** Assigning [x] to the entries [0 .. k-1] of a vector. *)
Lemma fill_loop {A : Type} (x : A) (v : list A) (k : nat) :
  (k <= List.length v)%nat ->
  for_range 0 (Z.of_nat k) (fun i u => vset u i x) v = repeat x k ++ skipn k v.
Proof.
  induction k as [| k IH]; intros Hk.
  - now rewrite for_range_nil by lia.
  - replace (Z.of_nat (S k)) with (Z.of_nat k + 1) by lia.
    rewrite for_range_snoc by lia. rewrite IH by lia.
    unfold vset. replace (Z.of_nat k <? 0) with false
      by (symmetry; apply Z.ltb_ge; lia).
    rewrite Nat2Z.id.
    destruct (skipn k v) as [| y post] eqn:Hs.
    { assert (List.length (skipn k v) = 0%nat) by now rewrite Hs.
      rewrite length_skipn in H. lia. }
    assert (Hpost : skipn (S k) v = post).
    { change (S k) with (1 + k)%nat. rewrite <- skipn_skipn, Hs. reflexivity. }
    rewrite Hpost.
    rewrite <- (repeat_length x k) at 2. rewrite list_set_app_here.
    change (repeat x (S k)) with (x :: repeat x k).
    rewrite repeat_cons, <- app_assoc. reflexivity.
Qed.

Lemma fill_all {A : Type} (x : A) (v : list A) (n : Z) :
  List.length v = Z.to_nat n -> 0 <= n ->
  for_range 0 n (fun i u => vset u i x) v = repeat x (Z.to_nat n).
Proof.
  intros Hlen Hn. rewrite <- (Z2Nat.id n) at 1 by exact Hn.
  rewrite fill_loop by lia. rewrite <- Hlen, skipn_all. apply app_nil_r.
Qed.

Lemma firstn_snoc {A : Type} (d : A) (v : list A) (k : nat) :
  (k < List.length v)%nat -> firstn (S k) v = firstn k v ++ [nth k v d].
Proof.
  revert k. induction v as [| h t IH]; intros [| k] H; cbn in *; try lia;
    [reflexivity |]. f_equal. apply IH. lia.
Qed.

(** Appending [f (v[i])] for [i] in [0 .. k-1]. *)
Lemma append_loop {A B : Type} (d : A) (f : A -> list B) (v : list A)
    (init : list B) (k : nat) :
  (k <= List.length v)%nat ->
  for_range 0 (Z.of_nat k) (fun i o => o ++ f (vget d v i)) init
  = init ++ flat_map f (firstn k v).
Proof.
  induction k as [| k IH]; intros Hk.
  - rewrite for_range_nil by lia. cbn. now rewrite app_nil_r.
  - replace (Z.of_nat (S k)) with (Z.of_nat k + 1) by lia.
    rewrite for_range_snoc by lia. rewrite IH by lia.
    unfold vget. rewrite Nat2Z.id.
    rewrite <- app_assoc. f_equal.
    rewrite (firstn_snoc d v k) by lia.
    rewrite flat_map_app. cbn. now rewrite app_nil_r.
Qed.

(** ** One sweep *)

Lemma writeChainElement_inv (E : Env) (st : MetropolisHastings) (w w' : World) :
  writeChainElement E st w = Ok w' ->
  resume_dat w' = resume_dat w
  /\ (out_ st = true ->
      chain_txt w'
      = Some (match chain_txt w with Some c => c | None => [] end
              ++ chain_element st)).
Proof.
  unfold writeChainElement. intros H. apply bind_Ok in H as (u & _ & H).
  destruct (out_ st); injection H as <-; cbn; split; auto. discriminate.
Qed.

Lemma sweep_inv (E : Env) (wri : bool) (st st' : MetropolisHastings)
    (w w' : World) (acc acc' : list N) :
  sweep E wri (st, w, acc) = Ok (st', w', acc') ->
  exists st1 w1 bb w2,
    for_range_r 0 (vector_size (blocks_ st)) (block_step E) (st, w, acc, 0)
    = Ok (st1, w1, acc', bb)
    /\ writeChainElement E st1 w1 = Ok w2
    /\ iteration_ st' = ulong_incr (iteration_ st)
    /\ maxChainLength_ st' = maxChainLength_ st
    /\ n_ st' = n_ st
    /\ blocks_ st' = blocks_ st
    /\ current_ st' = current_ st1
    /\ currentLike_ st' = currentLike_ st1
    /\ (out_ st = true -> out_ st' = true)
    /\ (forall c, chain_txt w2 = Some c -> chain_txt w' = Some c).
Proof.
  unfold sweep. intros H.
  apply bind_Ok in H as ([[[st1 w1] acc1] bb] & Hloop & H).
  apply bind_Ok in H as (w2 & Hw2 & H).
  exists st1, w1, bb, w2.
  pose proof (block_loop_frame E st w acc _ _ Hloop) as Hf. cbn in Hf.
  destruct Hf as (Hit & Hmax & Hn & Hbl & Hout & _ & _).
  set (st3 := update (set_iteration_ st1 (ulong_incr (iteration_ st1)))) in *.
  destruct (update_frame (set_iteration_ st1 (ulong_incr (iteration_ st1))))
    as (Uit & Umax & Un & Ubl & Uout & Ucur & Ulike).
  fold st3 in Uit, Umax, Un, Ubl, Uout, Ucur, Ulike.
  cbn [set_iteration_ set_sampler iteration_ maxChainLength_ n_ blocks_ out_
       current_ currentLike_] in Uit, Umax, Un, Ubl, Uout, Ucur, Ulike.
  assert (Hchain : forall c, chain_txt w2 = Some c ->
            chain_txt (if wri then writeResumeInfo E st3 w2 else w2) = Some c).
  { intros c Hc. destruct wri; [| exact Hc].
    unfold writeResumeInfo. destruct (can_open_resume E); cbn; exact Hc. }
  match type of H with
  | (if ?c then _ else _) = _ => destruct c
  end.
  - apply bind_Ok in H as ([st5 w5] & Hopen & H).
    injection H as <- <- <-.
    unfold openOut in Hopen.
    destruct (can_open_chain E && negb (out_ (closeOut st3))); [| discriminate].
    injection Hopen as <- <-.
    split; [exact Hloop |]. split; [exact Hw2 |].
    cbn [closeOut set_out_ set_chain_txt iteration_ maxChainLength_ n_ blocks_
         out_ current_ currentLike_ chain_txt].
    repeat split; try congruence.
    intros c Hc. now rewrite (Hchain c Hc).
  - injection H as <- <- <-.
    split; [exact Hloop |]. split; [exact Hw2 |].
    repeat split; try congruence. exact Hchain.
Qed.

(** ** The loop of [run] *)

Lemma stop_total (E : Env) (st : MetropolisHastings) :
  exists b, stop E st = Ok b.
Proof.
  unfold stop. rewrite stop_check. cbn.
  destruct (iteration_ st <? 100)%N; [eauto |].
  destruct (maxChainLength_ st <=? iteration_ st)%N; eauto.
Qed.

Lemma stop_false_below (E : Env) (st : MetropolisHastings) :
  stop E st = Ok false ->
  (iteration_ st < N.max 100 (maxChainLength_ st))%N.
Proof.
  unfold stop. rewrite stop_check. cbn.
  destruct (iteration_ st <? 100)%N eqn:H100.
  - intros _. apply N.ltb_lt in H100. lia.
  - destruct (maxChainLength_ st <=? iteration_ st)%N eqn:Hmax;
      [discriminate |]. intros _. apply N.leb_gt in Hmax. lia.
Qed.

Lemma ulong_incr_below (x m : N) :
  (x < m)%N -> (m < ULONG_MOD)%N -> ulong_incr x = (x + 1)%N.
Proof.
  intros Hx Hm. unfold ulong_incr. apply N.mod_small. lia.
Qed.

(** The loop ends before the fuel given by [run_fuel] runs out. *)
Lemma run_loop_finishes (E : Env) (wri : bool) (fuel : nat) (rs : run_state) :
  (maxChainLength_ (fst (fst rs)) < ULONG_MOD)%N ->
  (run_fuel (fst (fst rs)) <= fuel)%nat ->
  finishes (run_loop E fuel wri rs).
Proof.
  revert rs. induction fuel as [| fuel IH]; intros [[st w] acc] Hmax Hfuel;
    cbn [run_loop fst] in *; unfold run_fuel in Hfuel;
    destruct (stop_total E st) as [b Hb]; rewrite Hb; cbn [bind];
    destruct b; try apply finishes_Ok.
  - apply stop_false_below in Hb. lia.
  - apply stop_false_below in Hb.
    apply finishes_bind; [apply finishes_sweep |].
    intros [[st' w'] acc'] Hs. apply sweep_inv in Hs
      as (st1 & w1 & bb & w2 & _ & _ & Hit & Hm & _).
    apply IH; cbn [fst].
    + now rewrite Hm.
    + unfold run_fuel. rewrite Hm, Hit.
      rewrite (ulong_incr_below _ (N.max 100 (maxChainLength_ st))); unfold ULONG_MOD in *; lia.
Qed.

(** When the loop ends, [stop] holds and the iteration count has not passed
    the larger of 100 and the maximum chain length. *)
Lemma run_loop_result (E : Env) (wri : bool) (fuel : nat)
    (rs rs' : run_state) :
  (maxChainLength_ (fst (fst rs)) < ULONG_MOD)%N ->
  (iteration_ (fst (fst rs)) <= N.max 100 (maxChainLength_ (fst (fst rs))))%N ->
  run_loop E fuel wri rs = Ok rs' ->
  stop E (fst (fst rs')) = Ok true
  /\ maxChainLength_ (fst (fst rs')) = maxChainLength_ (fst (fst rs))
  /\ (iteration_ (fst (fst rs)) <= iteration_ (fst (fst rs'))
      <= N.max 100 (maxChainLength_ (fst (fst rs))))%N.
Proof.
  revert rs. induction fuel as [| fuel IH]; intros [[st w] acc] Hmax Hle H;
    cbn [run_loop fst] in *;
    destruct (stop_total E st) as [b Hb]; rewrite Hb in H; cbn [bind] in H;
    destruct b; try discriminate;
    try (injection H as <-; cbn; repeat split; auto; lia).
  apply stop_false_below in Hb.
  apply bind_Ok in H as ([[st1 w1] acc1] & Hs & H).
  apply sweep_inv in Hs as (st0 & w0 & bb & w2 & _ & _ & Hit & Hm & _).
  rewrite (ulong_incr_below _ (N.max 100 (maxChainLength_ st))) in Hit
    by (unfold ULONG_MOD in *; lia).
  apply IH in H; cbn [fst] in *; [| rewrite Hm; auto | rewrite Hm, Hit; lia].
  rewrite Hm, Hit in H. destruct H as (Hstop & Hm' & Hbounds).
  repeat split; auto; lia.
Qed.

(** ** Object representations *)

Lemma Z_of_byte_of_Z (z : Z) : Z_of_byte (byte_of_Z z) = z mod 256.
Proof.
  unfold Z_of_byte, byte_of_Z.
  assert (Hz : 0 <= z mod 256 < 256) by (apply Z.mod_pos_bound; lia).
  destruct (Byte.of_N (Z.to_N (z mod 256))) as [b |] eqn:Hb.
  - apply Byte.to_of_N in Hb. rewrite Hb. lia.
  - apply Byte.of_N_None_iff in Hb. lia.
Qed.

Lemma Z_of_byte_range (b : Byte.byte) : 0 <= Z_of_byte b < 256.
Proof.
  unfold Z_of_byte. pose proof (Byte.to_N_bounded b). lia.
Qed.

Lemma le_bytes_length (k : nat) (z : Z) : List.length (le_bytes k z) = k.
Proof. revert z. induction k as [| k IH]; intros z; cbn; auto. Qed.

Lemma le_value_le_bytes (k : nat) (z : Z) :
  le_value (le_bytes k z) = z mod 256 ^ Z.of_nat k.
Proof.
  revert z. induction k as [| k IH]; intros z.
  - cbn. now rewrite Z.mod_1_r.
  - cbn [le_bytes le_value]. rewrite Z_of_byte_of_Z, IH.
    rewrite Nat2Z.inj_succ, Z.pow_succ_r by lia.
    rewrite Z.rem_mul_r by lia. reflexivity.
Qed.

Lemma ulong_of_to_bytes (x : N) :
  (x < ULONG_MOD)%N -> ulong_of_bytes (ulong_to_bytes x) = x.
Proof.
  intros H. unfold ulong_of_bytes, ulong_to_bytes.
  rewrite le_value_le_bytes. change (256 ^ Z.of_nat 8) with 18446744073709551616.
  unfold ULONG_MOD in H. rewrite Z.mod_small by lia. apply N2Z.id.
Qed.

Lemma int_of_to_bytes (x : Z) :
  -2147483648 <= x < 2147483648 -> int_of_bytes (int_to_bytes x) = x.
Proof.
  intros H. unfold int_of_bytes, int_to_bytes.
  rewrite le_value_le_bytes. change (256 ^ Z.of_nat 4) with 4294967296.
  rewrite Z.mod_mod by lia.
  destruct (Z_lt_le_dec x 0) as [Hneg | Hpos].
  - replace (x mod 4294967296) with (x + 4294967296)
      by (apply Z.mod_unique with (q := -1); lia).
    replace (x + 4294967296 <? 2147483648) with false
      by (symmetry; apply Z.ltb_ge; lia). lia.
  - rewrite Z.mod_small by lia.
    replace (x <? 2147483648) with true by (symmetry; apply Z.ltb_lt; lia).
    reflexivity.
Qed.

Lemma digits2_pos_bounds (m : positive) :
  2 ^ (Z.pos (digits2_pos m) - 1) <= Z.pos m < 2 ^ Z.pos (digits2_pos m).
Proof.
  induction m as [p IH | p IH |]; cbn [digits2_pos].
  - rewrite Pos2Z.inj_succ.
    replace (Z.succ (Z.pos (digits2_pos p)) - 1)
      with (Z.succ (Z.pos (digits2_pos p) - 1)) by lia.
    rewrite !Z.pow_succ_r by lia. lia.
  - rewrite Pos2Z.inj_succ.
    replace (Z.succ (Z.pos (digits2_pos p)) - 1)
      with (Z.succ (Z.pos (digits2_pos p) - 1)) by lia.
    rewrite !Z.pow_succ_r by lia. lia.
  - cbn. lia.
Qed.

(** The fields of a binary64 word: sign, biased exponent, fraction. *)
Lemma bits_fields (s : bool) (k f : Z) :
  0 <= k < 2048 -> 0 <= f < 4503599627370496 ->
  let z := sign_bit s + (k * 4503599627370496 + f) in
  (9223372036854775808 <=? z) = s /\
  (z / 4503599627370496) mod 2048 = k /\
  z mod 4503599627370496 = f /\
  0 <= z < 18446744073709551616.
Proof.
  intros Hk Hf z. subst z. unfold sign_bit.
  destruct s; repeat split;
    try (apply Z.leb_le; lia); try (apply Z.leb_gt; lia); try lia;
    Z.to_euclidean_division_equations; lia.
Qed.

(** A valid finite binary64 number is subnormal with the least exponent or
    has a 53-bit mantissa. *)
Lemma valid_finite_cases (m : positive) (e : Z) :
  valid_binary (S754_finite false m e) = true ->
  (Z.pos m < 4503599627370496 /\ e = -1074) \/
  (4503599627370496 <= Z.pos m < 9007199254740992 /\ -1074 <= e <= 971).
Proof.
  cbn [SpecFloat.valid_binary].
  unfold bounded, canonical_mantissa, fexp, SpecFloat.emin, prec, emax.
  intros H. apply andb_true_iff in H as [H1 H2].
  apply Z.eqb_eq in H1. apply Z.leb_le in H2.
  pose proof (digits2_pos_bounds m) as [Hlo Hhi].
  set (d := Z.pos (digits2_pos m)) in *.
  assert (Hd : 0 < d) by (subst d; lia).
  destruct (Z_lt_le_dec (Z.pos m) 4503599627370496) as [Hs | Hn].
  - left. split; [assumption |].
    assert (d <= 52).
    { destruct (Z_le_gt_dec d 52); [assumption |].
      assert (2 ^ 52 <= 2 ^ (d - 1)) by (apply Z.pow_le_mono_r; lia).
      change (2 ^ 52) with 4503599627370496 in *. lia. }
    lia.
  - right.
    assert (53 <= d).
    { destruct (Z_le_gt_dec 53 d); [assumption |].
      assert (2 ^ d <= 2 ^ 52) by (apply Z.pow_le_mono_r; lia).
      change (2 ^ 52) with 4503599627370496 in *. lia. }
    assert (d = 53) by lia.
    replace d with 53 in * by lia.
    change (2 ^ 53) with 9007199254740992 in Hhi. lia.
Qed.

Lemma double_to_bits_range (f : float) :
  0 <= double_to_bits f < 18446744073709551616.
Proof.
  unfold double_to_bits. pose proof (Prim2SF_valid f) as Hv.
  destruct (Prim2SF f) as [s | s | | s m e].
  - destruct s; cbn; lia.
  - destruct s; cbn; lia.
  - lia.
  - assert (Hv' : valid_binary (S754_finite false m e) = true) by exact Hv.
    apply valid_finite_cases in Hv' as [[Hm He] | [Hm He]].
    + apply Z.ltb_lt in Hm as Hm'. rewrite Hm'.
      destruct (bits_fields s 0 (Z.pos m)) as (_ & _ & _ & Hr); [lia | lia |].
      exact Hr.
    + assert (Hm' : (Z.pos m <? 4503599627370496) = false)
        by (apply Z.ltb_ge; lia).
      rewrite Hm'.
      destruct (bits_fields s (e + 1075) (Z.pos m - 4503599627370496))
        as (_ & _ & _ & Hr); [lia | lia |].
      exact Hr.
Qed.

Lemma bits_to_double_to_bits (f : float) : bits_to_double (double_to_bits f) = f.
Proof.
  rewrite <- (SF2Prim_Prim2SF f) at 2.
  unfold bits_to_double, double_to_bits.
  pose proof (Prim2SF_valid f) as Hv.
  destruct (Prim2SF f) as [s | s | | s m e].
  - destruct s; reflexivity.
  - destruct s; reflexivity.
  - reflexivity.
  - assert (Hv' : valid_binary (S754_finite false m e) = true) by exact Hv.
    apply valid_finite_cases in Hv'. f_equal.
    destruct Hv' as [[Hm He] | [Hm He]].
    + apply Z.ltb_lt in Hm as Hm'. rewrite Hm'.
      destruct (bits_fields s 0 (Z.pos m)) as (Hs & Hk & Hf & _); [lia | lia |].
      cbn beta zeta in Hs, Hk, Hf.
      change (0 * 4503599627370496 + Z.pos m) with (Z.pos m) in *.
      rewrite Hs, Hk, Hf. cbn. subst e. reflexivity.
    + assert (Hm' : (Z.pos m <? 4503599627370496) = false)
        by (apply Z.ltb_ge; lia).
      rewrite Hm'.
      destruct (bits_fields s (e + 1075) (Z.pos m - 4503599627370496))
        as (Hs & Hk & Hf & _); [lia | lia |].
      cbn beta zeta in Hs, Hk, Hf.
      rewrite Hs, Hk, Hf.
      replace (e + 1075 =? 0) with false by (symmetry; apply Z.eqb_neq; lia).
      replace (e + 1075 =? 2047) with false by (symmetry; apply Z.eqb_neq; lia).
      replace (Z.pos m - 4503599627370496 + 4503599627370496) with (Z.pos m)
        by lia.
      replace (e + 1075 - 1075) with e by lia.
      reflexivity.
Qed.

Lemma double_of_to_bytes (f : float) : double_of_bytes (double_to_bytes f) = f.
Proof.
  unfold double_of_bytes, double_to_bytes. rewrite le_value_le_bytes.
  change (256 ^ Z.of_nat 8) with 18446744073709551616.
  rewrite Z.mod_small by apply double_to_bits_range.
  apply bits_to_double_to_bits.
Qed.

Lemma double_to_bytes_length (f : float) : List.length (double_to_bytes f) = 8%nat.
Proof. apply le_bytes_length. Qed.

Lemma doubles_to_bytes_length (v : list float) :
  List.length (doubles_to_bytes v) = (List.length v * 8)%nat.
Proof.
  induction v as [| f t IH]; [reflexivity |].
  cbn [doubles_to_bytes flat_map]. rewrite length_app, double_to_bytes_length.
  fold (doubles_to_bytes t). rewrite IH. cbn. lia.
Qed.

Lemma doubles_of_bytes_cons (f : float) (rest : list Byte.byte) :
  doubles_of_bytes (double_to_bytes f ++ rest) = f :: doubles_of_bytes rest.
Proof.
  pose proof (double_of_to_bytes f) as Hf.
  pose proof (double_to_bytes_length f) as Hl.
  destruct (double_to_bytes f)
    as [| b0 [| b1 [| b2 [| b3 [| b4 [| b5 [| b6 [| b7 [| b8 t]]]]]]]]];
    try discriminate.
  cbn [app doubles_of_bytes]. now rewrite Hf.
Qed.

Lemma doubles_of_to_bytes (v : list float) :
  doubles_of_bytes (doubles_to_bytes v) = v.
Proof.
  induction v as [| f t IH]; [reflexivity |].
  cbn [doubles_to_bytes flat_map]. fold (doubles_to_bytes t).
  now rewrite doubles_of_bytes_cons, IH.
Qed.

(** ** Reading the resume file *)

Lemma stream_read_exact (count : nat) (data rest old : list Byte.byte) :
  List.length data = count -> List.length old = count ->
  stream_read count old {| is_bytes := data ++ rest; is_good := true |}
  = (data, {| is_bytes := rest; is_good := true |}).
Proof.
  intros Hd Ho. unfold stream_read. cbn [is_good is_bytes].
  rewrite <- Hd, firstn_app, Nat.sub_diag, firstn_all, firstn_O, app_nil_r.
  rewrite skipn_app, Nat.sub_diag, skipn_all, skipn_O. cbn [app].
  rewrite skipn_all2 by lia. rewrite app_nil_r, Nat.eqb_refl. reflexivity.
Qed.

Lemma stream_read_bad (count : nat) (old : list Byte.byte) (s : istream) :
  is_good s = false -> stream_read count old s = (old, s).
Proof. intros H. unfold stream_read. now rewrite H. Qed.

Lemma stream_read_good_after (count : nat) (old : list Byte.byte) (s : istream) :
  is_good (snd (stream_read count old s)) = true ->
  is_good s = true
  /\ (count <= List.length (is_bytes s))%nat
  /\ (List.length old = count ->
      fst (stream_read count old s) = firstn count (is_bytes s)).
Proof.
  unfold stream_read. destruct (is_good s) eqn:Hg; cbn; [| congruence].
  intros H. apply Nat.eqb_eq in H. rewrite length_firstn in H.
  repeat split; [lia |].
  intros Ho. rewrite length_firstn, skipn_all2 by lia. apply app_nil_r.
Qed.

Lemma read_ulong_exact (x old : N) (rest : list Byte.byte) :
  (x < ULONG_MOD)%N ->
  read_ulong old {| is_bytes := ulong_to_bytes x ++ rest; is_good := true |}
  = (x, {| is_bytes := rest; is_good := true |}).
Proof.
  intros H. unfold read_ulong.
  rewrite stream_read_exact by apply le_bytes_length.
  now rewrite ulong_of_to_bytes.
Qed.

Lemma read_double_exact (x old : float) (rest : list Byte.byte) :
  read_double old {| is_bytes := double_to_bytes x ++ rest; is_good := true |}
  = (x, {| is_bytes := rest; is_good := true |}).
Proof.
  unfold read_double.
  rewrite stream_read_exact by apply le_bytes_length.
  now rewrite double_of_to_bytes.
Qed.

Lemma read_int_exact (x old : Z) (rest : list Byte.byte) :
  -2147483648 <= x < 2147483648 ->
  read_int old {| is_bytes := int_to_bytes x ++ rest; is_good := true |}
  = (x, {| is_bytes := rest; is_good := true |}).
Proof.
  intros H. unfold read_int.
  rewrite stream_read_exact by apply le_bytes_length.
  now rewrite int_of_to_bytes.
Qed.

Lemma read_doubles_exact (n : Z) (v old : list float) (rest : list Byte.byte) :
  List.length v = Z.to_nat n -> List.length old = Z.to_nat n ->
  read_doubles n old {| is_bytes := vector_bytes n v ++ rest; is_good := true |}
  = (v, {| is_bytes := rest; is_good := true |}).
Proof.
  intros Hv Ho. unfold read_doubles, vector_bytes.
  rewrite <- Hv, firstn_all.
  rewrite stream_read_exact by (rewrite doubles_to_bytes_length; lia).
  now rewrite doubles_of_to_bytes.
Qed.

Lemma sized_inv (st : MetropolisHastings) :
  sized st = true ->
  0 <= n_ st
  /\ List.length (starting_ st) = Z.to_nat (n_ st)
  /\ List.length (current_ st) = Z.to_nat (n_ st)
  /\ List.length (prev_ st) = Z.to_nat (n_ st)
  /\ List.length (paramSum_ st) = Z.to_nat (n_ st)
  /\ List.length (paramSquaredSum_ st) = Z.to_nat (n_ st)
  /\ List.length (corSum_ st) = Z.to_nat (n_ st).
Proof.
  unfold sized. intros H.
  repeat (apply andb_true_iff in H as [H ?]).
  apply Z.leb_le in H.
  repeat match goal with
         | Hx : Nat.eqb _ _ = true |- _ => apply Nat.eqb_eq in Hx
         end.
  auto 10.
Qed.

Lemma ulongs_ok_inv (st : MetropolisHastings) :
  ulongs_ok st = true ->
  (maxChainLength_ st < ULONG_MOD)%N /\ (iteration_ st < ULONG_MOD)%N.
Proof.
  unfold ulongs_ok. intros H. apply andb_true_iff in H as [H1 H2].
  split; now apply N.ltb_lt.
Qed.

(** Reading back what [writeResumeInfo] wrote. *)
Lemma read_written_image (saved st0 : MetropolisHastings) (w : World) :
  sized saved = true -> ulongs_ok saved = true -> sized st0 = true ->
  n_ st0 = n_ saved -> resumeCode_ st0 = resumeCode_ saved ->
  -2147483648 <= resumeCode_ saved < 2147483648 ->
  resume_dat w = Some (resume_image saved) ->
  readResumeInfo st0 w
  = (true,
     set_sampler st0 (maxChainLength_ saved) (iteration_ saved)
       (currentLike_ saved) (currentPrior_ saved) (current_ saved)
       (prev_ saved) (paramSum_ saved) (paramSquaredSum_ saved)
       (corSum_ saved)).
Proof.
  intros Hs Hu Hs0 Hn Hcode Hrange Hw.
  apply sized_inv in Hs as (_ & _ & Hc & Hp & Hps & Hpq & Hcs).
  apply sized_inv in Hs0 as (_ & _ & Hc0 & Hp0 & Hps0 & Hpq0 & Hcs0).
  apply ulongs_ok_inv in Hu as [Hmax Hit].
  unfold readResumeInfo. rewrite Hw. unfold resume_image.
  rewrite read_ulong_exact by exact Hmax.
  rewrite read_ulong_exact by exact Hit.
  rewrite !read_double_exact.
  rewrite Hn in *.
  rewrite !read_doubles_exact by assumption.
  rewrite <- (app_nil_r (int_to_bytes (resumeCode_ saved))).
  rewrite read_int_exact by exact Hrange.
  rewrite Hcode, Z.eqb_refl. reflexivity.
Qed.

(** ** The start of a run *)

Lemma calculatePrior_current (E : Env) (st : MetropolisHastings)
    (m it : N) (l p : float) (cur prev s1 s2 s3 : list float) :
  calculatePrior E (set_sampler st m it l p cur prev s1 s2 s3)
  = calculatePrior E (set_current_ st cur).
Proof. reflexivity. Qed.

Lemma fresh_start_inv (E : Env) (m : N) (st st' : MetropolisHastings)
    (w w' : World) :
  fresh_start E m st w = Ok (st', w') ->
  calculatePrior E (set_current_ st (starting_ st)) = Ok (currentPrior_ st')
  /\ maxChainLength_ st' = m
  /\ iteration_ st' = 0%N
  /\ current_ st' = starting_ st
  /\ prev_ st' = starting_ st
  /\ currentLike_ st' = like_ st (starting_ st) (n_ st)
  /\ paramSum_ st'
     = for_range 0 (n_ st) (fun i u => vset u i 0%float) (paramSum_ st)
  /\ paramSquaredSum_ st'
     = for_range 0 (n_ st) (fun i u => vset u i 0%float) (paramSquaredSum_ st)
  /\ corSum_ st'
     = for_range 0 (n_ st) (fun i u => vset u i 0%float) (corSum_ st)
  /\ n_ st' = n_ st
  /\ blocks_ st' = blocks_ st
  /\ out_ st' = true
  /\ chain_txt w' = Some []
  /\ resume_dat w' = resume_dat w.
Proof.
  unfold fresh_start. intros H.
  apply bind_Ok in H as (prior & Hprior & H).
  rewrite calculatePrior_current in Hprior.
  unfold openOut in H.
  match type of H with
  | (if ?c then _ else _) = _ => destruct c; [| discriminate]
  end.
  injection H as <- <-.
  cbn [set_out_ set_chain_txt maxChainLength_ iteration_ current_ prev_
       currentLike_ currentPrior_ paramSum_ paramSquaredSum_ corSum_ n_
       blocks_ out_ chain_txt resume_dat].
  match goal with
  | |- context [for_range 0 ?n ?body ?s0] =>
      set (body0 := body); set (s := s0); set (loop := for_range 0 n body0 s)
  end.
  assert (Hframe :
    maxChainLength_ loop = m /\ iteration_ loop = 0%N
    /\ current_ loop = starting_ st /\ prev_ loop = starting_ st
    /\ currentLike_ loop = like_ st (starting_ st) (n_ st)
    /\ currentPrior_ loop = prior /\ n_ loop = n_ st
    /\ blocks_ loop = blocks_ st).
  { subst loop. apply for_range_inv.
    - intros j x _ Hx. exact Hx.
    - subst s. cbn. repeat split; reflexivity. }
  destruct Hframe as (F1 & F2 & F3 & F4 & F5 & F6 & F7 & F8).
  rewrite F1, F2, F3, F4, F5, F6, F7, F8.
  repeat split; try reflexivity; try exact Hprior.
  - subst loop.
    rewrite (for_range_proj paramSum_ 0 (n_ st) body0
               (fun i u => vset u i 0%float) s) by reflexivity.
    reflexivity.
  - subst loop.
    rewrite (for_range_proj paramSquaredSum_ 0 (n_ st) body0
               (fun i u => vset u i 0%float) s) by reflexivity.
    reflexivity.
  - subst loop.
    rewrite (for_range_proj corSum_ 0 (n_ st) body0
               (fun i u => vset u i 0%float) s) by reflexivity.
    reflexivity.
Qed.

Lemma fresh_start_runs (E : Env) (m : N) (st : MetropolisHastings) (w : World)
    (prior : float) :
  calculatePrior E (set_current_ st (starting_ st)) = Ok prior ->
  can_open_chain E = true -> out_ st = false ->
  exists st' w', fresh_start E m st w = Ok (st', w').
Proof.
  intros Hprior Hopen Hout. unfold fresh_start.
  rewrite calculatePrior_current, Hprior. cbn [bind].
  unfold openOut. rewrite Hopen.
  match goal with
  | |- context [out_ (for_range 0 ?n ?body ?s0)] =>
      assert (Hf : out_ (for_range 0 n body s0) = false)
        by (apply for_range_inv; [intros j x _ Hx; exact Hx | exact Hout])
  end.
  rewrite Hf. cbn [negb andb]. eauto.
Qed.

Lemma doubles_of_bytes_length (k : nat) (bs : list Byte.byte) :
  List.length bs = (k * 8)%nat -> List.length (doubles_of_bytes bs) = k.
Proof.
  revert bs. induction k as [| k IH]; intros bs H.
  - destruct bs; [reflexivity | discriminate].
  - destruct bs as [| b0 [| b1 [| b2 [| b3 [| b4 [| b5 [| b6 [| b7 t]]]]]]]];
      try discriminate.
    cbn [doubles_of_bytes List.length]. f_equal. apply IH.
    cbn in H. lia.
Qed.

Lemma stream_read_length (count : nat) (old : list Byte.byte) (s : istream) :
  List.length old = count ->
  List.length (fst (stream_read count old s)) = count.
Proof.
  intros H. unfold stream_read. destruct (is_good s); cbn; [| exact H].
  rewrite length_app, length_skipn, length_firstn. lia.
Qed.

Lemma read_doubles_length (n : Z) (old : list float) (s : istream) :
  List.length old = Z.to_nat n ->
  List.length (fst (read_doubles n old s)) = Z.to_nat n.
Proof.
  intros H. unfold read_doubles.
  pose proof (stream_read_length (Z.to_nat n * 8) (doubles_to_bytes old) s) as Hl.
  destruct (stream_read (Z.to_nat n * 8) (doubles_to_bytes old) s) as [b s'].
  cbn [fst] in *. apply doubles_of_bytes_length. apply Hl.
  rewrite doubles_to_bytes_length. lia.
Qed.

(** [readResumeInfo] only assigns members of the sampler state, and keeps
    the sizes of the vectors. *)
Lemma readResumeInfo_shape (st : MetropolisHastings) (w : World) :
  exists m it l p cur prev s1 s2 s3,
    snd (readResumeInfo st w) = set_sampler st m it l p cur prev s1 s2 s3
    /\ (sized st = true ->
        List.length s1 = Z.to_nat (n_ st)
        /\ List.length s2 = Z.to_nat (n_ st)
        /\ List.length s3 = Z.to_nat (n_ st)).
Proof.
  unfold readResumeInfo. destruct (resume_dat w) as [bytes |].
  - destruct (read_ulong _ _) as [m s1].
    destruct (read_ulong _ s1) as [it s2].
    destruct (read_double _ s2) as [l s3].
    destruct (read_double _ s3) as [p s4].
    destruct (read_doubles _ (current_ st) s4) as [cur s5].
    destruct (read_doubles _ (prev_ st) s5) as [prev s6].
    pose proof (read_doubles_length (n_ st) (paramSum_ st) s6) as L1.
    destruct (read_doubles _ (paramSum_ st) s6) as [v1 s7].
    pose proof (read_doubles_length (n_ st) (paramSquaredSum_ st) s7) as L2.
    destruct (read_doubles _ (paramSquaredSum_ st) s7) as [v2 s8].
    pose proof (read_doubles_length (n_ st) (corSum_ st) s8) as L3.
    destruct (read_doubles _ (corSum_ st) s8) as [v3 s9].
    destruct (read_int 0 s9) as [code s10].
    exists m, it, l, p, cur, prev, v1, v2, v3. cbn [snd fst] in *.
    split; [reflexivity |]. intros Hs.
    apply sized_inv in Hs as (_ & _ & _ & _ & H1 & H2 & H3). auto.
  - exists (maxChainLength_ st), (iteration_ st), (currentLike_ st),
      (currentPrior_ st), (current_ st), (prev_ st), (paramSum_ st),
      (paramSquaredSum_ st), (corSum_ st).
    cbn [snd]. split; [destruct st; reflexivity |].
    intros Hs. apply sized_inv in Hs as (_ & _ & _ & _ & H1 & H2 & H3). auto.
Qed.

(** ** Positions in the resume file *)

Lemma stream_read_at (count k : nat) (old bytes : list Byte.byte) :
  (k + count <= List.length bytes)%nat -> List.length old = count ->
  stream_read count old (at_offset bytes k)
  = (firstn count (skipn k bytes), at_offset bytes (k + count)).
Proof.
  intros Hk Ho. unfold stream_read, at_offset. cbn [is_good is_bytes].
  assert (Hl : List.length (firstn count (skipn k bytes)) = count)
    by (rewrite length_firstn, length_skipn; lia).
  rewrite Hl, (skipn_all2 (n := count) old) by lia.
  rewrite app_nil_r, Nat.eqb_refl.
  rewrite skipn_skipn, (Nat.add_comm count k). reflexivity.
Qed.

(** The marker that [readResumeInfo] compares, for a file long enough to
    hold it. *)
Lemma readResumeInfo_marker (st : MetropolisHastings) (w : World)
    (bytes : list Byte.byte) :
  sized st = true ->
  resume_dat w = Some bytes ->
  (32 + Z.to_nat (n_ st) * 40 + 4 <= List.length bytes)%nat ->
  fst (readResumeInfo st w)
  = (int_of_bytes (firstn 4 (skipn (32 + Z.to_nat (n_ st) * 40) bytes))
     =? resumeCode_ st).
Proof.
  intros Hs Hw Hlen.
  apply sized_inv in Hs as (_ & _ & Hc & Hp & H1 & H2 & H3).
  unfold readResumeInfo. rewrite Hw.
  change {| is_bytes := bytes; is_good := true |} with (at_offset bytes 0).
  unfold read_ulong, read_double, read_doubles, read_int.
  set (n := Z.to_nat (n_ st)) in *.
  rewrite (stream_read_at 8 0) by (try apply le_bytes_length; lia).
  rewrite (stream_read_at 8 (0 + 8)) by (try apply le_bytes_length; lia).
  rewrite (stream_read_at 8 (0 + 8 + 8)) by (try apply le_bytes_length; lia).
  rewrite (stream_read_at 8 (0 + 8 + 8 + 8))
    by (try apply le_bytes_length; lia).
  rewrite (stream_read_at (n * 8) (0 + 8 + 8 + 8 + 8))
    by (try rewrite doubles_to_bytes_length; lia).
  rewrite (stream_read_at (n * 8) (0 + 8 + 8 + 8 + 8 + n * 8))
    by (try rewrite doubles_to_bytes_length; lia).
  rewrite (stream_read_at (n * 8) (0 + 8 + 8 + 8 + 8 + n * 8 + n * 8))
    by (try rewrite doubles_to_bytes_length; lia).
  rewrite (stream_read_at (n * 8) (0 + 8 + 8 + 8 + 8 + n * 8 + n * 8 + n * 8))
    by (try rewrite doubles_to_bytes_length; lia).
  rewrite (stream_read_at (n * 8)
             (0 + 8 + 8 + 8 + 8 + n * 8 + n * 8 + n * 8 + n * 8))
    by (try rewrite doubles_to_bytes_length; lia).
  rewrite (stream_read_at 4
             (0 + 8 + 8 + 8 + 8 + n * 8 + n * 8 + n * 8 + n * 8 + n * 8))
    by (try apply le_bytes_length; lia).
  cbn [fst]. do 4 f_equal. lia.
Qed.

Lemma readResumeInfo_world (st : MetropolisHastings) (w w0 : World) :
  resume_dat w0 = resume_dat w -> readResumeInfo st w0 = readResumeInfo st w.
Proof. intros H. unfold readResumeInfo. now rewrite H. Qed.

Lemma write_paramnames_inv (E : Env) (st : MetropolisHastings) (w w' : World) :
  write_paramnames E st w = Ok w' ->
  resume_dat w' = resume_dat w /\ chain_txt w' = chain_txt w.
Proof.
  unfold write_paramnames. destruct (can_open_paramnames E); [| discriminate].
  intros H. injection H as <-. split; reflexivity.
Qed.

Lemma run_inv (E : Env) (m : N) (wri : bool) (st st' : MetropolisHastings)
    (w w' : World) (acc' : list N) :
  run E m wri st w = Ok (st', w', acc') ->
  exists w0 st1 w1 st2,
    write_paramnames E st w = Ok w0
    /\ run_start E m st w0 = Ok (st1, w1)
    /\ run_loop E (run_fuel st1) wri
         (st1, w1, repeat 0%N (List.length (blocks_ st1)))
       = Ok (st2, w', acc')
    /\ st' = closeOut st2.
Proof.
  unfold run. intros H.
  apply bind_Ok in H as (u1 & _ & H).
  apply bind_Ok in H as (u2 & _ & H).
  apply bind_Ok in H as (w0 & Hw0 & H).
  apply bind_Ok in H as ([st1 w1] & Hstart & H).
  apply bind_Ok in H as ([[st2 w2] acc2] & Hloop & H).
  injection H as <- <- <-.
  exists w0, st1, w1, st2. auto.
Qed.

Lemma run_start_fresh (E : Env) (m : N) (st : MetropolisHastings) (w : World) :
  fst (readResumeInfo st w) = false ->
  run_start E m st w = fresh_start E m (snd (readResumeInfo st w)) w.
Proof.
  unfold run_start. destruct (readResumeInfo st w) as [b st1]. cbn.
  now intros ->.
Qed.

Lemma stop_true_inv (E : Env) (st : MetropolisHastings) :
  stop E st = Ok true ->
  (100 <= iteration_ st)%N
  /\ ((maxChainLength_ st <= iteration_ st)%N
      \/ stop_loop st (Zrange 0 (n_ st)) = true).
Proof.
  unfold stop. rewrite stop_check. cbn [bind].
  destruct (iteration_ st <? 100)%N eqn:H100; [discriminate |].
  apply N.ltb_ge in H100.
  destruct (maxChainLength_ st <=? iteration_ st)%N eqn:Hmax.
  - intros _. apply N.leb_le in Hmax. auto.
  - intros H. injection H as H. auto.
Qed.

Lemma stop_loop_closeOut (st : MetropolisHastings) (idx : list Z) :
  stop_loop (closeOut st) idx = stop_loop st idx.
Proof.
  induction idx as [| i rest IH]; [reflexivity |].
  cbn [stop_loop]. rewrite IH. reflexivity.
Qed.

(** C4: a run that starts afresh ends, with at least 100 and at most
    [max 100 maxChainLength] iterations. With a maximum chain length of 100
    or more it ends at the maximum unless the accuracy criterion of [stop]
    held earlier; with a maximum below 100 it still makes 100 iterations. *)
Theorem run_fresh_iterations (E : Env) (m : N) (wri : bool)
    (st : MetropolisHastings) (w : World) :
  fst (readResumeInfo st w) = false ->
  (m < ULONG_MOD)%N ->
  finishes (run E m wri st w)
  /\ forall st' w' acc',
       run E m wri st w = Ok (st', w', acc') ->
       (100 <= iteration_ st' <= N.max 100 m)%N
       /\ ((100 <= m)%N ->
           iteration_ st' = m
           \/ ((iteration_ st' < m)%N
               /\ stop_loop st' (Zrange 0 (n_ st')) = true))
       /\ ((m <= 100)%N -> iteration_ st' = 100%N).
Proof.
  intros Hfresh Hm. split.
  - unfold run.
    apply finishes_bind; [apply finishes_check | intros _ _].
    apply finishes_bind; [apply finishes_check | intros _ _].
    apply finishes_bind.
    { unfold write_paramnames. destruct (can_open_paramnames E); discriminate. }
    intros w0 Hw0. apply write_paramnames_inv in Hw0 as [Hr _].
    rewrite run_start_fresh by (now rewrite (readResumeInfo_world st w w0 Hr)).
    apply finishes_bind.
    { unfold fresh_start.
      apply finishes_bind; [apply finishes_calculatePrior |].
      intros; apply finishes_openOut. }
    intros [st1 w1] Hstart.
    apply fresh_start_inv in Hstart as (_ & Hmax & _).
    apply finishes_bind.
    + apply run_loop_finishes; cbn [fst]; [now rewrite Hmax | lia].
    + intros [[st2 w2] acc2] _. apply finishes_Ok.
  - intros st' w' acc' H.
    apply run_inv in H as (w0 & st1 & w1 & st2 & Hw0 & Hstart & Hloop & ->).
    apply write_paramnames_inv in Hw0 as [Hr _].
    rewrite run_start_fresh in Hstart
      by (now rewrite (readResumeInfo_world st w w0 Hr)).
    apply fresh_start_inv in Hstart as (_ & Hmax & Hit & _).
    apply run_loop_result in Hloop; cbn [fst] in *;
      [| now rewrite Hmax | rewrite Hit; lia].
    destruct Hloop as (Hstop & Hmax2 & Hbounds).
    apply stop_true_inv in Hstop as (H100 & Hwhy).
    rewrite Hmax in Hbounds, Hmax2. rewrite Hmax2 in Hwhy.
    change (iteration_ (closeOut st2)) with (iteration_ st2).
    change (n_ (closeOut st2)) with (n_ st2). rewrite stop_loop_closeOut.
    split; [lia |]. split.
    + intros Hm100. destruct Hwhy as [Hcap | Hacc]; [left; lia |].
      destruct (N.eq_dec (iteration_ st2) m) as [Heq | Hne]; [now left |].
      right. split; [lia | exact Hacc].
    + intros Hle. lia.
Qed.

(** C6 (as amended): without a resume file, or with one that reaches past
    the marker and holds at the place of the marker, byte [32 + 40 n],
    another number than the engine's, [readResumeInfo] says no and the run
    starts afresh: current and previous point at the starting values,
    likelihood and prior evaluated there, iteration 0, the three sums zero,
    the chain file emptied; [run] is then its loop from that state. The
    start throws nothing when the prior of the starting point evaluates and
    the chain file opens. *)
Theorem run_without_checkpoint (E : Env) (m : N) (wri : bool)
    (st : MetropolisHastings) (w : World) :
  sized st = true ->
  (resume_dat w = None
   \/ exists bytes,
        resume_dat w = Some bytes
        /\ (32 + Z.to_nat (n_ st) * 40 + 4 <= List.length bytes)%nat
        /\ int_of_bytes (firstn 4 (skipn (32 + Z.to_nat (n_ st) * 40) bytes))
           <> resumeCode_ st) ->
  fst (readResumeInfo st w) = false
  /\ forall prior,
       calculatePrior E (set_current_ st (starting_ st)) = Ok prior ->
       can_open_chain E = true -> out_ st = false ->
       forall w0, resume_dat w0 = resume_dat w ->
       exists st1 w1,
         run_start E m st w0 = Ok (st1, w1)
         /\ sampler_state st1
            = (m, 0%N, like_ st (starting_ st) (n_ st), prior,
               starting_ st, starting_ st,
               repeat 0%float (Z.to_nat (n_ st)),
               repeat 0%float (Z.to_nat (n_ st)),
               repeat 0%float (Z.to_nat (n_ st)))
         /\ chain_txt w1 = Some []
         /\ out_ st1 = true
         /\ (write_paramnames E st w = Ok w0 ->
             (0 < m)%N -> blocks_ st <> [] ->
             run E m wri st w
             = ('(st2, w2, accepted) <-
                  run_loop E (run_fuel st1) wri
                    (st1, w1, repeat 0%N (List.length (blocks_ st1))) ;;
                Ok (closeOut st2, w2, accepted))).
Proof.
  intros Hs Hfile.
  assert (Hfalse : fst (readResumeInfo st w) = false).
  { destruct Hfile as [Hnone | (bytes & Hw & Hlen & Hne)].
    - unfold readResumeInfo. now rewrite Hnone.
    - rewrite (readResumeInfo_marker st w bytes Hs Hw Hlen).
      now apply Z.eqb_neq. }
  split; [exact Hfalse |].
  intros prior Hprior Hopen Hout w0 Hw0.
  pose proof (readResumeInfo_world st w w0 Hw0) as Hread.
  assert (Hfalse0 : fst (readResumeInfo st w0) = false) by congruence.
  destruct (readResumeInfo_shape st w0)
    as (m0 & it0 & l0 & p0 & c0 & pv0 & s1 & s2 & s3 & Hshape & Hlen).
  destruct (Hlen Hs) as (L1 & L2 & L3).
  pose proof (sized_inv _ Hs) as (Hn & _).
  set (st0 := set_sampler st m0 it0 l0 p0 c0 pv0 s1 s2 s3).
  destruct (fresh_start_runs E m st0 w0 prior) as (st1 & w1 & Hrun);
    [exact Hprior | exact Hopen | exact Hout |].
  assert (Hstart : run_start E m st w0 = Ok (st1, w1)).
  { rewrite run_start_fresh by exact Hfalse0. rewrite Hshape. exact Hrun. }
  exists st1, w1. split; [exact Hstart |].
  apply fresh_start_inv in Hrun
    as (Hp & Hmax & Hit & Hcur & Hprev & Hlike & H1 & H2 & H3 & _ & _ & Ho
        & Hchain & _).
  change (calculatePrior E (set_current_ st (starting_ st))
          = Ok (currentPrior_ st1)) in Hp.
  cbn [st0 set_sampler starting_ like_ n_ paramSum_ paramSquaredSum_ corSum_]
    in Hcur, Hprev, Hlike, H1, H2, H3.
  assert (currentPrior_ st1 = prior) by congruence.
  rewrite fill_all in H1, H2, H3 by assumption.
  split; [unfold sampler_state; congruence |].
  split; [exact Hchain |]. split; [exact Ho |].
  intros Hpn Hm Hne. unfold run.
  rewrite (proj2 (N.ltb_lt 0 m) Hm), check_true. cbn [bind].
  replace (vector_empty (blocks_ st)) with false
    by (destruct (blocks_ st); [contradiction | reflexivity]).
  cbn [negb]. rewrite check_true. cbn [bind].
  rewrite Hpn. cbn [bind]. rewrite Hstart. reflexivity.
Qed.

(** ** A starting point of zero prior density *)

Lemma eqb_zero_inv (x : float) :
  (x =? 0)%float = true -> exists s, Prim2SF x = S754_zero s.
Proof.
  rewrite eqb_spec. unfold SFeqb.
  change (Prim2SF 0) with (S754_zero false).
  destruct (Prim2SF x) as [s | s | | s m e]; cbn; intros H;
    try discriminate; eauto.
  - destruct s; discriminate.
  - destruct s; discriminate.
Qed.

Lemma zero_div_zero_nan (x y : float) :
  (x =? 0)%float = true -> (y =? 0)%float = true -> is_nan (x / y) = true.
Proof.
  intros Hx Hy. apply eqb_zero_inv in Hx as [sx Hx], Hy as [sy Hy].
  apply is_nan_spec. rewrite div_spec, Hx, Hy. reflexivity.
Qed.

Lemma nan_mul_l (x y : float) : is_nan x = true -> is_nan (x * y) = true.
Proof.
  intros H. apply is_nan_spec in H. apply is_nan_spec.
  rewrite mul_spec, H. reflexivity.
Qed.

Lemma clamp_nan (p : float) :
  is_nan p = true -> is_nan (clamp_probability p) = true.
Proof.
  intros H. unfold clamp_probability. now rewrite (ltb_nan_r 1 p H).
Qed.

(** C7 (as amended): a starting point of zero prior density raises no error.
    The fresh start completes with [P_current = 0], the acceptance ratios are
    formed against that zero, and a proposal that also has zero prior density
    gets a NaN probability and is rejected. *)
Theorem zero_prior_start_runs (E : Env) (m : N) (st : MetropolisHastings)
    (w : World) (z : float) :
  calculatePrior E (set_current_ st (starting_ st)) = Ok z ->
  (z =? 0)%float = true ->
  resume_dat w = None -> can_open_chain E = true -> out_ st = false ->
  exists st' w',
    run_start E m st w = Ok (st', w')
    /\ currentPrior_ st' = z
    /\ forall i blockBegin w1 pr,
         externalProposal_ st' = None ->
         propose E i blockBegin st' w1 = Ok pr ->
         pr_ratio pr
         = (pr_newPrior pr / z
            * std_exp E (- (pr_newLike pr - currentLike_ st') / 2))%float
         /\ ((pr_newPrior pr =? 0)%float = true ->
             is_nan (pr_p pr) = true
             /\ (pr_q pr <=? pr_p pr)%float = false).
Proof.
  intros Hz Hzero Hnone Hopen Hout.
  assert (Hread : readResumeInfo st w = (false, st))
    by (unfold readResumeInfo; now rewrite Hnone).
  rewrite run_start_fresh by now rewrite Hread.
  rewrite Hread. cbn [snd].
  destruct (fresh_start_runs E m st w z Hz Hopen Hout) as (st' & w' & Hrun).
  exists st', w'. split; [exact Hrun |].
  apply fresh_start_inv in Hrun as (Hp & _).
  assert (Hprior : currentPrior_ st' = z) by congruence.
  split; [exact Hprior |].
  intros i blockBegin w1 pr Hext Hpr.
  destruct (propose_inv E i blockBegin st' w1 pr Hpr)
    as (_ & _ & Hclamp & _ & _ & Hratio).
  specialize (Hratio Hext). rewrite Hprior in Hratio.
  split; [exact Hratio |].
  intros Hnew.
  assert (Hnan : is_nan (pr_p pr) = true).
  { rewrite Hclamp. apply clamp_nan. rewrite Hratio.
    apply nan_mul_l. now apply zero_div_zero_nan. }
  split; [exact Hnan | now apply leb_nan_r].
Qed.

(** ** Resuming *)

Lemma read_int_bad (s : istream) :
  is_good s = false -> fst (read_int 0 s) = 0.
Proof.
  intros H. unfold read_int. rewrite stream_read_bad by exact H. reflexivity.
Qed.

Lemma read_ulong_good_after (old : N) (s : istream) :
  is_good (snd (read_ulong old s)) = true ->
  is_good s = true
  /\ (8 <= List.length (is_bytes s))%nat
  /\ fst (read_ulong old s) = ulong_of_bytes (firstn 8 (is_bytes s)).
Proof.
  unfold read_ulong.
  pose proof (stream_read_good_after 8 (ulong_to_bytes old) s) as H.
  destruct (stream_read 8 (ulong_to_bytes old) s) as [b s']. cbn [fst snd] in *.
  intros Hg. destruct (H Hg) as (H1 & H2 & H3).
  rewrite H3 by apply le_bytes_length. auto.
Qed.

Lemma read_double_good_after (old : float) (s : istream) :
  is_good (snd (read_double old s)) = true -> is_good s = true.
Proof.
  unfold read_double.
  pose proof (stream_read_good_after 8 (double_to_bytes old) s) as H.
  destruct (stream_read 8 (double_to_bytes old) s) as [b s']. cbn [fst snd] in *.
  intros Hg. now destruct (H Hg).
Qed.

Lemma read_doubles_good_after (n : Z) (old : list float) (s : istream) :
  is_good (snd (read_doubles n old s)) = true -> is_good s = true.
Proof.
  unfold read_doubles.
  pose proof (stream_read_good_after (Z.to_nat n * 8) (doubles_to_bytes old) s)
    as H.
  destruct (stream_read (Z.to_nat n * 8) (doubles_to_bytes old) s) as [b s'].
  cbn [fst snd] in *. intros Hg. now destruct (H Hg).
Qed.

(** When [readResumeInfo] says yes, the maximum chain length of the engine is
    the first eight bytes of the file. *)
Lemma readResumeInfo_true_inv (st : MetropolisHastings) (w : World) :
  fst (readResumeInfo st w) = true -> resumeCode_ st <> 0 ->
  exists bytes,
    resume_dat w = Some bytes
    /\ (8 <= List.length bytes)%nat
    /\ maxChainLength_ (snd (readResumeInfo st w))
       = ulong_of_bytes (firstn 8 bytes).
Proof.
  unfold readResumeInfo. destruct (resume_dat w) as [bytes |];
    [| discriminate].
  set (s0 := {| is_bytes := bytes; is_good := true |}).
  pose proof (read_ulong_good_after (maxChainLength_ st) s0) as G1.
  destruct (read_ulong (maxChainLength_ st) s0) as [m s1].
  pose proof (read_ulong_good_after (iteration_ st) s1) as G2.
  destruct (read_ulong (iteration_ st) s1) as [it s2].
  pose proof (read_double_good_after (currentLike_ st) s2) as G3.
  destruct (read_double (currentLike_ st) s2) as [l s3].
  pose proof (read_double_good_after (currentPrior_ st) s3) as G4.
  destruct (read_double (currentPrior_ st) s3) as [p s4].
  pose proof (read_doubles_good_after (n_ st) (current_ st) s4) as G5.
  destruct (read_doubles (n_ st) (current_ st) s4) as [cur s5].
  pose proof (read_doubles_good_after (n_ st) (prev_ st) s5) as G6.
  destruct (read_doubles (n_ st) (prev_ st) s5) as [prev s6].
  pose proof (read_doubles_good_after (n_ st) (paramSum_ st) s6) as G7.
  destruct (read_doubles (n_ st) (paramSum_ st) s6) as [v1 s7].
  pose proof (read_doubles_good_after (n_ st) (paramSquaredSum_ st) s7) as G8.
  destruct (read_doubles (n_ st) (paramSquaredSum_ st) s7) as [v2 s8].
  pose proof (read_doubles_good_after (n_ st) (corSum_ st) s8) as G9.
  destruct (read_doubles (n_ st) (corSum_ st) s8) as [v3 s9].
  pose proof (read_int_bad s9) as G10.
  destruct (read_int 0 s9) as [code s10].
  cbn [fst snd] in *. intros Hcode Hne. apply Z.eqb_eq in Hcode.
  assert (Hg9 : is_good s9 = true).
  { destruct (is_good s9); [reflexivity |]. specialize (G10 eq_refl). congruence. }
  destruct (G2 (G3 (G4 (G5 (G6 (G7 (G8 (G9 Hg9))))))))
    as (Hg1 & _ & _).
  destruct (G1 Hg1) as (_ & Hlen & Hm).
  exists bytes. cbn [maxChainLength_ set_sampler]. auto.
Qed.

(** C10: once [readResumeInfo] has accepted the resume file, the
    [maxChainLength] argument of [run] has no effect: two runs that differ
    only in it are the same run, and the maximum chain length the engine
    works with is the one stored in the file. *)
Theorem resumed_run_ignores_maxChainLength (E : Env) (m1 m2 : N) (wri : bool)
    (st : MetropolisHastings) (w : World) :
  fst (readResumeInfo st w) = true -> resumeCode_ st <> 0 ->
  (0 < m1)%N -> (0 < m2)%N ->
  run E m1 wri st w = run E m2 wri st w
  /\ exists bytes,
       resume_dat w = Some bytes
       /\ forall w0 st1 w1,
            write_paramnames E st w = Ok w0 ->
            run_start E m1 st w0 = Ok (st1, w1) ->
            maxChainLength_ st1 = ulong_of_bytes (firstn 8 bytes).
Proof.
  intros Hres Hcode H1 H2.
  assert (Hstart : forall m w0, resume_dat w0 = resume_dat w ->
            run_start E m st w0
            = openOut E true (snd (readResumeInfo st w)) w0).
  { intros m w0 Hr. unfold run_start.
    rewrite (readResumeInfo_world st w w0 Hr).
    destruct (readResumeInfo st w) as [b st1]. cbn in *. now rewrite Hres. }
  split.
  - unfold run.
    apply N.ltb_lt in H1, H2. rewrite H1, H2.
    rewrite check_true. cbn [bind].
    destruct (check E (negb (vector_empty (blocks_ st))) ""); [| reflexivity].
    cbn [bind].
    destruct (write_paramnames E st w) as [w0 |] eqn:Hw0; [| reflexivity].
    cbn [bind]. apply write_paramnames_inv in Hw0 as [Hr _].
    now rewrite (Hstart m1 w0 Hr), (Hstart m2 w0 Hr).
  - destruct (readResumeInfo_true_inv st w Hres Hcode)
      as (bytes & Hw & _ & Hm).
    exists bytes. split; [exact Hw |].
    intros w0 st1 w1 Hw0 Hrun.
    apply write_paramnames_inv in Hw0 as [Hr _].
    rewrite (Hstart m1 w0 Hr) in Hrun. unfold openOut in Hrun.
    match type of Hrun with
    | (if ?c then _ else _) = _ => destruct c; [| discriminate]
    end.
    injection Hrun as <- <-. exact Hm.
Qed.

(** ** Continuing after a resume *)

Lemma sweeps_iteration (E : Env) (wri : bool) (M : nat) (rs rs' : run_state) :
  sweeps E M wri rs = Ok rs' ->
  (iteration_ (fst (fst rs)) + N.of_nat M < ULONG_MOD)%N ->
  iteration_ (fst (fst rs')) = (iteration_ (fst (fst rs)) + N.of_nat M)%N.
Proof.
  revert rs. induction M as [| M IH]; intros [[st w] acc] H Hbound;
    cbn [sweeps fst] in *.
  - injection H as <-. cbn. lia.
  - apply bind_Ok in H as ([[st1 w1] acc1] & Hs & H).
    apply sweep_inv in Hs as (st0 & w0 & bb & w2 & _ & _ & Hit & _).
    rewrite (ulong_incr_below _ (iteration_ st + N.of_nat (S M))) in Hit by lia.
    apply IH in H; cbn [fst] in *; rewrite Hit in *; lia.
Qed.

(** C5: what [writeResumeInfo] wrote, [readResumeInfo] accepts, and it
    restores the maximum chain length, the iteration count, likelihood and
    prior, the current and previous point and the three sums to the saved
    values; [M] sweeps after resuming at iteration [N] end at iteration
    [N + M]. *)
Theorem resume_round_trip (E : Env) (wri : bool)
    (saved st0 : MetropolisHastings) (w : World) (accepted : list N) :
  sized saved = true -> ulongs_ok saved = true ->
  resumeCode_ saved = 123456 ->
  sized st0 = true -> n_ st0 = n_ saved -> resumeCode_ st0 = 123456 ->
  can_open_resume E = true ->
  let w1 := writeResumeInfo E saved w in
  exists st1,
    readResumeInfo st0 w1 = (true, st1)
    /\ sampler_state st1 = sampler_state saved
    /\ forall M rs',
         sweeps E M wri (st1, w1, accepted) = Ok rs' ->
         (iteration_ saved + N.of_nat M < ULONG_MOD)%N ->
         iteration_ (fst (fst rs')) = (iteration_ saved + N.of_nat M)%N.
Proof.
  intros Hs Hu Hcode Hs0 Hn Hcode0 Hopen w1.
  assert (Hw1 : resume_dat w1 = Some (resume_image saved)).
  { subst w1. unfold writeResumeInfo. now rewrite Hopen. }
  eexists. split.
  - apply (read_written_image saved st0 w1); auto; try congruence.
    rewrite Hcode. lia.
  - split; [reflexivity |].
    intros M rs' Hrun Hbound.
    apply sweeps_iteration in Hrun; cbn [fst set_sampler iteration_] in *; auto.
Qed.

(** ** The chain file *)

Lemma propose_current_length (E : Env) (i blockBegin : Z)
    (st : MetropolisHastings) (w : World) (pr : proposal) :
  propose E i blockBegin st w = Ok pr ->
  List.length (pr_current pr) = List.length (current_ st).
Proof.
  intros H. unfold propose in H.
  destruct (vget 0 (blocks_ st) i - blockBegin <? 0); [discriminate |].
  destruct ((blockBegin <? vget 0 (blocks_ st) i)
            && negb ((0 <=? blockBegin) && (vget 0 (blocks_ st) i <=? n_ st)));
    [discriminate |].
  assert (Hlen : forall block,
            List.length
              (for_range blockBegin (vget 0 (blocks_ st) i)
                 (fun j c => vset c j (vget 0%float block (j - blockBegin)))
                 (current_ st))
            = List.length (current_ st)).
  { intros block. apply for_range_inv; [| reflexivity].
    intros j x _ Hx. now rewrite vset_length. }
  destruct (externalProposal_ st) as [ext |].
  - apply bind_Ok in H as (newPrior & _ & H). injection H as <-. apply Hlen.
  - destruct (for_range blockBegin (vget 0 (blocks_ st) i) _ _) as [b g].
    apply bind_Ok in H as (newPrior & _ & H). injection H as <-. apply Hlen.
Qed.

Lemma block_loop_current_length (E : Env) (st st' : MetropolisHastings)
    (w w' : World) (acc acc' : list N) (bb : Z) (idx : list Z) :
  for_list_r idx (block_step E) (st, w, acc, 0) = Ok (st', w', acc', bb) ->
  List.length (current_ st') = List.length (current_ st).
Proof.
  intros H.
  apply (for_list_r_inv
           (fun ls : loop_state =>
              List.length (current_ (fst (fst (fst ls))))
              = List.length (current_ st)) _ _ _ _ ) in H; [exact H | | reflexivity].
  intros j [[[x wx] ax] bx] [[[y wy] ay] b_y] _ Hx Hy. cbn [fst] in *.
  unfold block_step in Hy. apply bind_Ok in Hy as (pr & Hpr & Hy).
  apply propose_current_length in Hpr.
  destruct (pr_q pr <=? pr_p pr)%float; injection Hy as <- <- <- <-; cbn;
    congruence.
Qed.

(** The insertions of one row, spelled out. *)
Lemma chain_element_row (st : MetropolisHastings) :
  List.length (current_ st) = Z.to_nat (n_ st) -> 0 <= n_ st ->
  chain_element st
  = [PInt 1; PStr "   "; PDouble (currentLike_ st)]
    ++ flat_map (fun x => [PStr "   "; PDouble x]) (current_ st)
    ++ [PEndl].
Proof.
  intros Hlen Hn. unfold chain_element.
  rewrite <- (Z2Nat.id (n_ st)) at 1 by exact Hn.
  rewrite (append_loop 0%float (fun x => [PStr "   "; PDouble x])) by lia.
  rewrite <- Hlen, firstn_all, <- app_assoc. reflexivity.
Qed.

Lemma line_count_app (a b : list piece) :
  line_count (a ++ b) = (line_count a + line_count b)%nat.
Proof. unfold line_count. now rewrite filter_app, length_app. Qed.

Lemma line_count_cons (p : piece) (a : list piece) :
  is_endl p = false -> line_count (p :: a) = line_count a.
Proof. intros H. unfold line_count. cbn [filter]. now rewrite H. Qed.

Lemma line_count_values (v : list float) :
  line_count (flat_map (fun x => [PStr "   "; PDouble x]) v) = 0%nat.
Proof. induction v as [| x t IH]; [reflexivity | exact IH]. Qed.

(** C8 (as amended): a completed sweep appends exactly one line to the chain
    file: the repeat count 1, the current likelihood value as it is stored
    (the value the likelihood function returned, not a multiple of it) and
    the current parameter values, separated by blanks. *)
Theorem sweep_appends_row (E : Env) (wri : bool) (st st' : MetropolisHastings)
    (w w' : World) (acc acc' : list N) (c : list piece) :
  sweep E wri (st, w, acc) = Ok (st', w', acc') ->
  out_ st = true -> chain_txt w = Some c ->
  List.length (current_ st) = Z.to_nat (n_ st) -> 0 <= n_ st ->
  chain_txt w'
  = Some (c ++ [PInt 1; PStr "   "; PDouble (currentLike_ st')]
            ++ flat_map (fun x => [PStr "   "; PDouble x]) (current_ st')
            ++ [PEndl])
  /\ List.length (current_ st') = Z.to_nat (n_ st)
  /\ forall c', chain_txt w' = Some c' -> line_count c' = S (line_count c).
Proof.
  intros H Hout Hc Hlen Hn.
  apply sweep_inv in H
    as (st1 & w1 & bb & w2 & Hloop & Hw2 & _ & _ & _ & _ & Hcur & Hlike & _
        & Hchain).
  pose proof (block_loop_frame E st w acc _ _ Hloop) as Hf. cbn in Hf.
  destruct Hf as (_ & _ & Hn1 & _ & Hout1 & Hc1 & _).
  apply block_loop_current_length in Hloop.
  apply writeChainElement_inv in Hw2 as [_ Hw2].
  rewrite Hout1, Hc1, Hc in Hw2. specialize (Hw2 Hout).
  rewrite chain_element_row in Hw2 by congruence.
  rewrite <- Hcur, <- Hlike in Hw2.
  apply Hchain in Hw2.
  split; [exact Hw2 |]. split; [congruence |].
  intros c' Hc'. rewrite Hw2 in Hc'. injection Hc' as <-.
  rewrite line_count_app, !line_count_cons by reflexivity.
  rewrite line_count_app, line_count_values. cbn. lia.
Qed.

(** ** Block boundaries *)

Lemma for_list_r_unit (idx : list Z) (body : Z -> unit -> result unit)
    (P : Z -> Prop) :
  (forall i u, (exists u', body i u = Ok u') <-> P i) ->
  (exists u, for_list_r idx body tt = Ok u) <-> (forall i, In i idx -> P i).
Proof.
  intros Hbody. induction idx as [| j rest IH]; cbn [for_list_r].
  - split; [intros _ i [] | eauto].
  - split.
    + intros [u H]. apply bind_Ok in H as ([] & Hj & H).
      intros i [<- | Hi].
      * apply (Hbody j tt). eauto.
      * apply IH; eauto.
    + intros H.
      destruct (proj2 (Hbody j tt) (H j (or_introl eq_refl))) as [[] Hj].
      rewrite Hj. cbn [bind]. apply IH. intros i Hi. apply H. now right.
Qed.

Lemma check_on_Ok (E : Env) (c : bool) (msg : string) (u : unit) :
  checks_on E = true -> check E c msg = Ok u -> c = true.
Proof.
  intros Hon H. apply check_Ok in H as [H | H]; congruence.
Qed.

Lemma push_back_loop (lo hi : Z) (init : list Z) :
  for_range lo hi (fun i b => b ++ [i]) init = init ++ Zrange lo hi.
Proof.
  unfold for_range. revert init.
  induction (Zrange lo hi) as [| j rest IH]; intros init; cbn.
  - now rewrite app_nil_r.
  - rewrite IH, <- app_assoc. reflexivity.
Qed.

Lemma vget_Zrange (lo hi i : Z) :
  0 <= i < hi - lo -> vget 0 (Zrange lo hi) i = lo + i.
Proof.
  intros H. unfold vget, Zrange.
  rewrite (nth_indep _ 0 (lo + Z.of_nat 0))
    by (rewrite length_map, length_seq; lia).
  rewrite (map_nth (fun k => lo + Z.of_nat k)), seq_nth by lia. lia.
Qed.

Lemma checked_check (E : Env) (c : bool) (msg : string) :
  checked (check E c msg).
Proof. unfold check. destruct (checks_on E && negb c); exact I. Qed.

Lemma checked_bind {A B : Type} (r : result A) (k : A -> result B) :
  checked r -> (forall a, checked (k a)) -> checked (bind r k).
Proof. destruct r as [a | []]; cbn; auto. Qed.

Lemma checked_for_list_r {S : Type} (idx : list Z)
    (body : Z -> S -> result S) (s : S) :
  (forall j x, checked (body j x)) -> checked (for_list_r idx body s).
Proof.
  intros Hbody. revert s. induction idx as [| j rest IH]; intros s; cbn.
  - exact I.
  - apply checked_bind; auto.
Qed.

Lemma checked_specifyParameterBlocks (E : Env) (blocks : list Z)
    (st : MetropolisHastings) : checked (specifyParameterBlocks E blocks st).
Proof.
  unfold specifyParameterBlocks.
  apply checked_bind; [apply checked_check | intros _].
  apply checked_bind; [| intros _; exact I].
  destruct (checks_on E); [| exact I].
  apply checked_for_list_r. intros j x.
  apply checked_bind; [apply checked_check | intros _; apply checked_check].
Qed.

(** What [specifyParameterBlocks] accepts under CHECKS_ON. *)
Lemma specifyParameterBlocks_accepts (E : Env) (st : MetropolisHastings)
    (blocks : list Z) :
  checks_on E = true ->
  (exists st', specifyParameterBlocks E blocks st = Ok st') <->
  (blocks <> []
   /\ forall i, 1 <= i < vector_size blocks ->
        vget 0 blocks (i - 1) < vget 0 blocks i
        /\ vget 0 blocks i <= n_ st).
Proof.
  intros Hon. unfold specifyParameterBlocks. rewrite Hon.
  assert (Hloop :
    (exists u,
       for_range_r 1 (vector_size blocks)
         (fun i _ =>
            check E (vget 0 blocks (i - 1) <? vget 0 blocks i) "" ;;;
            check E (vget 0 blocks i <=? n_ st) "") tt = Ok u)
    <-> forall i, 1 <= i < vector_size blocks ->
          vget 0 blocks (i - 1) < vget 0 blocks i
          /\ vget 0 blocks i <= n_ st).
  { unfold for_range_r.
    rewrite (for_list_r_unit _ _
               (fun i => vget 0 blocks (i - 1) < vget 0 blocks i
                         /\ vget 0 blocks i <= n_ st)).
    - split; intros H i Hi; apply H; now apply Zrange_In.
    - intros i u. split.
      + intros [u' H]. apply bind_Ok in H as (u1 & H1 & H2).
        apply (check_on_Ok E _ _ _ Hon) in H1, H2.
        apply Z.ltb_lt in H1. apply Z.leb_le in H2. auto.
      + intros [H1 H2]. apply Z.ltb_lt in H1. apply Z.leb_le in H2.
        unfold check. rewrite Hon, H1, H2. cbn. eauto. }
  split.
  - intros [st' H].
    apply bind_Ok in H as (u1 & H1 & H).
    apply bind_Ok in H as (u2 & H2 & _).
    split.
    + apply (check_on_Ok E _ _ _ Hon) in H1.
      destruct blocks; [discriminate | discriminate].
    + apply Hloop. eauto.
  - intros [Hne Hall]. apply Hloop in Hall as [[] Hall].
    unfold check at 1. rewrite Hon.
    destruct blocks as [| b0 rest]; [congruence |].
    cbn [vector_empty negb andb bind].
    rewrite Hall. cbn [bind]. eauto.
Qed.

(** C9 (as amended): with CHECKS_ON, a partition that [specifyParameterBlocks]
    accepts is installed unchanged, is not empty, has strictly increasing
    boundaries and has every boundary after the first at most N; a partition
    that is empty, or has a boundary that does not exceed the one before it,
    or a boundary after the first above N, is rejected by a failed check.
    The partition the constructor builds is 1, 2, ..., N: strictly
    increasing, with N as its last boundary. *)
Theorem block_boundaries (E : Env) (st : MetropolisHastings) :
  checks_on E = true ->
  (forall blocks st',
     specifyParameterBlocks E blocks st = Ok st' ->
     blocks_ st' = blocks
     /\ blocks <> []
     /\ forall i, 1 <= i < vector_size blocks ->
          vget 0 blocks (i - 1) < vget 0 blocks i
          /\ vget 0 blocks i <= n_ st)
  /\ (forall blocks,
        blocks = []
        \/ (exists i, 1 <= i < vector_size blocks
                      /\ (vget 0 blocks i <= vget 0 blocks (i - 1)
                          \/ n_ st < vget 0 blocks i)) ->
        exists msg, specifyParameterBlocks E blocks st = Err (CheckFailed msg))
  /\ (forall u nPar like st0,
        MetropolisHastings_new E u nPar like = Ok st0 ->
        n_ st0 = nPar
        /\ vector_size (blocks_ st0) = nPar
        /\ (forall i, 0 <= i < nPar -> vget 0 (blocks_ st0) i = i + 1)
        /\ (forall i, 1 <= i < nPar ->
              vget 0 (blocks_ st0) (i - 1) < vget 0 (blocks_ st0) i)
        /\ vget 0 (blocks_ st0) (nPar - 1) = nPar).
Proof.
  intros Hon. split; [| split].
  - intros blocks st' H.
    assert (Hacc : exists st', specifyParameterBlocks E blocks st = Ok st')
      by eauto.
    apply (specifyParameterBlocks_accepts E st blocks Hon) in Hacc.
    split; [| exact Hacc].
    unfold specifyParameterBlocks in H.
    apply bind_Ok in H as (u1 & _ & H).
    apply bind_Ok in H as (u2 & _ & H).
    injection H as <-. reflexivity.
  - intros blocks Hbad.
    pose proof (checked_specifyParameterBlocks E blocks st) as Hout.
    destruct (specifyParameterBlocks E blocks st) as [st' | e] eqn:Hres.
    + assert (Hacc : exists st', specifyParameterBlocks E blocks st = Ok st')
        by eauto.
      apply (specifyParameterBlocks_accepts E st blocks Hon) in Hacc
        as [Hne Hall].
      destruct Hbad as [-> | (i & Hi & Hviol)]; [congruence |].
      specialize (Hall i Hi). lia.
    + destruct e; cbn in Hout; try contradiction. eauto.
  - intros u nPar like st0 H. unfold MetropolisHastings_new in H.
    destruct (nPar <? 0) eqn:Hneg; [discriminate |]. apply Z.ltb_ge in Hneg.
    apply bind_Ok in H as (u1 & H1 & H).
    apply (check_on_Ok E _ _ _ Hon) in H1.
    apply Z.ltb_lt in H1.
    injection H as <-. cbn [n_ blocks_].
    rewrite push_back_loop. cbn [app].
    split; [reflexivity |].
    split; [unfold vector_size; rewrite Zrange_length; lia |].
    assert (Hget : forall i, 0 <= i < nPar ->
              vget 0 (Zrange 1 (nPar + 1)) i = i + 1)
      by (intros i Hi; rewrite vget_Zrange; lia).
    split; [exact Hget |].
    split.
    + intros i Hi. rewrite !Hget by lia. lia.
    + rewrite Hget by lia. lia.
Qed.

(** * Further properties of the engine *)

(** ** The shape of a sweep *)

Lemma sweep_struct (E : Env) (wri : bool) (st st' : MetropolisHastings)
    (w w' : World) (acc acc' : list N) :
  sweep E wri (st, w, acc) = Ok (st', w', acc') ->
  exists st1 w1 bb w2,
    for_range_r 0 (vector_size (blocks_ st)) (block_step E) (st, w, acc, 0)
    = Ok (st1, w1, acc', bb)
    /\ writeChainElement E st1 w1 = Ok w2
    /\ let st3 := update (set_iteration_ st1 (ulong_incr (iteration_ st1))) in
       let w3 := if wri then writeResumeInfo E st3 w2 else w2 in
       (st' = st3 /\ w' = w3)
       \/ (st' = set_out_ (closeOut st3) true
           /\ w' = set_chain_txt w3
                     (Some (match chain_txt w3 with Some c => c | None => [] end))).
Proof.
  unfold sweep. intros H.
  apply bind_Ok in H as ([[[st1 w1] acc1] bb] & Hloop & H).
  apply bind_Ok in H as (w2 & Hw2 & H).
  exists st1, w1, bb, w2.
  match type of H with
  | (if ?c then _ else _) = _ => destruct c
  end.
  - apply bind_Ok in H as ([st5 w5] & Hopen & H).
    injection H as <- <- <-.
    unfold openOut in Hopen.
    match type of Hopen with
    | (if ?c then _ else _) = _ => destruct c; [| discriminate]
    end.
    injection Hopen as <- <-. auto.
  - injection H as <- <- <-. auto.
Qed.

Lemma block_step_keeps (E : Env) (i : Z) (st st' : MetropolisHastings)
    (w w' : World) (acc acc' : list N) (bb bb' : Z) :
  block_step E i (st, w, acc, bb) = Ok (st', w', acc', bb') ->
  starting_ st' = starting_ st
  /\ prev_ st' = prev_ st
  /\ paramSum_ st' = paramSum_ st
  /\ paramSquaredSum_ st' = paramSquaredSum_ st
  /\ corSum_ st' = corSum_ st
  /\ n_ st' = n_ st
  /\ List.length (current_ st') = List.length (current_ st)
  /\ paramnames_txt w' = paramnames_txt w
  /\ List.length acc' = List.length acc.
Proof.
  unfold block_step. intros H. apply bind_Ok in H as (pr & Hpr & H).
  apply propose_current_length in Hpr.
  destruct (pr_q pr <=? pr_p pr)%float; injection H as <- <- <- <-; cbn;
    repeat split; try reflexivity; try exact Hpr.
  unfold incr_accepted. apply vset_length.
Qed.

Lemma block_loop_keeps (E : Env) (st st' : MetropolisHastings)
    (w w' : World) (acc acc' : list N) (bb : Z) (idx : list Z) :
  for_list_r idx (block_step E) (st, w, acc, 0) = Ok (st', w', acc', bb) ->
  starting_ st' = starting_ st
  /\ prev_ st' = prev_ st
  /\ paramSum_ st' = paramSum_ st
  /\ paramSquaredSum_ st' = paramSquaredSum_ st
  /\ corSum_ st' = corSum_ st
  /\ n_ st' = n_ st
  /\ List.length (current_ st') = List.length (current_ st)
  /\ paramnames_txt w' = paramnames_txt w
  /\ List.length acc' = List.length acc.
Proof.
  intros H.
  apply (for_list_r_inv
           (fun ls : loop_state =>
              let '(x, wx, ax, _) := ls in
              starting_ x = starting_ st
              /\ prev_ x = prev_ st
              /\ paramSum_ x = paramSum_ st
              /\ paramSquaredSum_ x = paramSquaredSum_ st
              /\ corSum_ x = corSum_ st
              /\ n_ x = n_ st
              /\ List.length (current_ x) = List.length (current_ st)
              /\ paramnames_txt wx = paramnames_txt w
              /\ List.length ax = List.length acc)) in H.
  - exact H.
  - intros j [[[x wx] ax] bx] [[[y wy] ay] b_y] _ Hx Hy.
    apply block_step_keeps in Hy. intuition congruence.
  - repeat split; reflexivity.
Qed.

(** ** Running sums *)

Lemma for_range_proj_inv {S T : Type} (proj : S -> T) (Inv : S -> Prop)
    (lo hi : Z) (body : Z -> S -> S) (g : Z -> T -> T) (s : S) :
  Inv s ->
  (forall j x, Inv x -> Inv (body j x)) ->
  (forall j x, Inv x -> proj (body j x) = g j (proj x)) ->
  proj (for_range lo hi body s) = for_range lo hi g (proj s).
Proof.
  intros Hs Hinv Hproj. unfold for_range. revert s Hs.
  induction (Zrange lo hi) as [| j rest IH]; cbn; intros s Hs; [reflexivity |].
  rewrite IH by auto. now rewrite Hproj.
Qed.

(** A loop that rewrites entry [i] from entry [i] rewrites each entry once. *)
Lemma entry_loop {A : Type} (d : A) (f : Z -> A -> A) (v : list A) (k : nat) :
  (k <= List.length v)%nat ->
  let r := for_range 0 (Z.of_nat k) (fun i u => vset u i (f i (vget d u i))) v in
  List.length r = List.length v
  /\ forall i, 0 <= i ->
       vget d r i = if i <? Z.of_nat k then f i (vget d v i) else vget d v i.
Proof.
  induction k as [| k IH]; intros Hk r; subst r.
  - rewrite for_range_nil by lia. split; [reflexivity |].
    intros i Hi. replace (i <? Z.of_nat 0) with false; [reflexivity |].
    symmetry. apply Z.ltb_ge. lia.
  - replace (Z.of_nat (S k)) with (Z.of_nat k + 1) by lia.
    rewrite for_range_snoc by lia.
    destruct IH as [IHlen IHget]; [lia |].
    set (r := for_range 0 (Z.of_nat k)
                (fun i u => vset u i (f i (vget d u i))) v) in *.
    split; [now rewrite vset_length |].
    intros i Hi.
    destruct (Z.eq_dec i (Z.of_nat k)) as [-> | Hne].
    + rewrite vget_vset_eq by (unfold vector_size; lia).
      rewrite IHget by lia.
      replace (Z.of_nat k <? Z.of_nat k) with false
        by (symmetry; apply Z.ltb_ge; lia).
      replace (Z.of_nat k <? Z.of_nat k + 1) with true
        by (symmetry; apply Z.ltb_lt; lia).
      reflexivity.
    + rewrite vget_vset_neq by assumption. rewrite IHget by exact Hi.
      destruct (i <? Z.of_nat k) eqn:H1.
      * apply Z.ltb_lt in H1.
        replace (i <? Z.of_nat k + 1) with true
          by (symmetry; apply Z.ltb_lt; lia). reflexivity.
      * apply Z.ltb_ge in H1.
        replace (i <? Z.of_nat k + 1) with false
          by (symmetry; apply Z.ltb_ge; lia). reflexivity.
Qed.

Lemma sized_intro (st : MetropolisHastings) :
  0 <= n_ st ->
  List.length (starting_ st) = Z.to_nat (n_ st) ->
  List.length (current_ st) = Z.to_nat (n_ st) ->
  List.length (prev_ st) = Z.to_nat (n_ st) ->
  List.length (paramSum_ st) = Z.to_nat (n_ st) ->
  List.length (paramSquaredSum_ st) = Z.to_nat (n_ st) ->
  List.length (corSum_ st) = Z.to_nat (n_ st) ->
  sized st = true.
Proof.
  intros H0 H1 H2 H3 H4 H5 H6. unfold sized.
  rewrite H1, H2, H3, H4, H5, H6, !Nat.eqb_refl.
  replace (0 <=? n_ st) with true by (symmetry; apply Z.leb_le; lia).
  reflexivity.
Qed.

Lemma update_sized (st : MetropolisHastings) :
  sized st = true -> sized (update st) = true.
Proof.
  intros Hs. apply sized_inv in Hs as (Hn & Hst & Hc & Hp & H1 & H2 & H3).
  unfold update.
  match goal with
  | |- context [for_range 0 (n_ st) ?body st] =>
      set (loop := for_range 0 (n_ st) body st)
  end.
  assert (Hloop :
    n_ loop = n_ st /\ starting_ loop = starting_ st
    /\ current_ loop = current_ st
    /\ List.length (paramSum_ loop) = Z.to_nat (n_ st)
    /\ List.length (paramSquaredSum_ loop) = Z.to_nat (n_ st)
    /\ List.length (corSum_ loop) = Z.to_nat (n_ st)).
  { subst loop. apply for_range_inv.
    - intros j x _ (X1 & X2 & X3 & X4 & X5 & X6).
      cbn [set_sampler n_ starting_ current_ paramSum_ paramSquaredSum_
           corSum_].
      rewrite !vset_length. repeat split; assumption.
    - repeat split; try reflexivity; assumption. }
  destruct Hloop as (Ln & Lst & Lc & L1 & L2 & L3).
  apply sized_intro;
    cbn [set_sampler n_ starting_ current_ prev_ paramSum_ paramSquaredSum_
         corSum_]; rewrite ?Ln, ?Lst, ?Lc; assumption.
Qed.

(** X1: [update] adds the current point to the three sums of every parameter,
    each once, then makes it the previous point; it keeps the sizes and
    touches nothing else. *)
Theorem update_adds_current_point (st : MetropolisHastings) :
  sized st = true ->
  (forall i, 0 <= i < n_ st ->
     vget 0%float (paramSum_ (update st)) i
     = (vget 0 (paramSum_ st) i + vget 0 (current_ st) i)%float
     /\ vget 0%float (paramSquaredSum_ (update st)) i
        = (vget 0 (paramSquaredSum_ st) i
           + vget 0 (current_ st) i * vget 0 (current_ st) i)%float
     /\ vget 0%float (corSum_ (update st)) i
        = (vget 0 (corSum_ st) i
           + vget 0 (current_ st) i * vget 0 (prev_ st) i)%float)
  /\ prev_ (update st) = current_ st
  /\ current_ (update st) = current_ st
  /\ sized (update st) = true
  /\ (iteration_ (update st), maxChainLength_ (update st),
      currentLike_ (update st), currentPrior_ (update st))
     = (iteration_ st, maxChainLength_ st, currentLike_ st, currentPrior_ st).
Proof.
  intros Hs. apply sized_inv in Hs as (Hn & Hst & Hc & Hp & H1 & H2 & H3).
  unfold update.
  match goal with
  | |- context [for_range 0 (n_ st) ?body st] =>
      set (body0 := body); set (loop := for_range 0 (n_ st) body0 st)
  end.
  set (Inv := fun s : MetropolisHastings =>
                current_ s = current_ st /\ prev_ s = prev_ st
                /\ n_ s = n_ st /\ starting_ s = starting_ st
                /\ iteration_ s = iteration_ st
                /\ maxChainLength_ s = maxChainLength_ st
                /\ currentLike_ s = currentLike_ st
                /\ currentPrior_ s = currentPrior_ st).
  assert (Hinv0 : Inv st) by (unfold Inv; repeat split; reflexivity).
  assert (Hinv : forall j x, Inv x -> Inv (body0 j x))
    by (intros j x Hx; exact Hx).
  assert (Hloop : Inv loop).
  { subst loop. apply for_range_inv; [intros j x _; apply Hinv | exact Hinv0]. }
  destruct Hloop as (Lc & Lp & Ln & Lst & Lit & Lmax & Ll & Lpr).
  assert (P1 : paramSum_ loop
               = for_range 0 (n_ st)
                   (fun i u => vset u i
                      ((fun j y => (y + vget 0 (current_ st) j)%float) i
                         (vget 0%float u i)))
                   (paramSum_ st)).
  { subst loop. apply (for_range_proj_inv paramSum_ Inv); auto.
    intros j x (Xc & _). subst body0. cbn. now rewrite Xc. }
  assert (P2 : paramSquaredSum_ loop
               = for_range 0 (n_ st)
                   (fun i u => vset u i
                      ((fun j y => (y + vget 0 (current_ st) j
                                        * vget 0 (current_ st) j)%float) i
                         (vget 0%float u i)))
                   (paramSquaredSum_ st)).
  { subst loop. apply (for_range_proj_inv paramSquaredSum_ Inv); auto.
    intros j x (Xc & _). subst body0. cbn. now rewrite Xc. }
  assert (P3 : corSum_ loop
               = for_range 0 (n_ st)
                   (fun i u => vset u i
                      ((fun j y => (y + vget 0 (current_ st) j
                                        * vget 0 (prev_ st) j)%float) i
                         (vget 0%float u i)))
                   (corSum_ st)).
  { subst loop. apply (for_range_proj_inv corSum_ Inv); auto.
    intros j x (Xc & Xp & _). subst body0. cbn. now rewrite Xc, Xp. }
  rewrite <- (Z2Nat.id (n_ st)) in P1, P2, P3 by exact Hn.
  destruct (entry_loop 0%float
              (fun j y => (y + vget 0 (current_ st) j)%float)
              (paramSum_ st) (Z.to_nat (n_ st))) as [E1l E1g]; [lia |].
  destruct (entry_loop 0%float
              (fun j y => (y + vget 0 (current_ st) j
                               * vget 0 (current_ st) j)%float)
              (paramSquaredSum_ st) (Z.to_nat (n_ st))) as [E2l E2g]; [lia |].
  destruct (entry_loop 0%float
              (fun j y => (y + vget 0 (current_ st) j
                               * vget 0 (prev_ st) j)%float)
              (corSum_ st) (Z.to_nat (n_ st))) as [E3l E3g]; [lia |].
  cbn zeta in E1l, E1g, E2l, E2g, E3l, E3g.
  rewrite <- P1 in E1l, E1g. rewrite <- P2 in E2l, E2g.
  rewrite <- P3 in E3l, E3g.
  cbn [set_sampler paramSum_ paramSquaredSum_ corSum_ prev_ current_
       iteration_ maxChainLength_ currentLike_ currentPrior_].
  split; [| split; [| split; [| split]]].
  - intros i Hi.
    rewrite E1g, E2g, E3g by lia.
    replace (i <? Z.of_nat (Z.to_nat (n_ st))) with true
      by (symmetry; apply Z.ltb_lt; lia).
    auto.
  - exact Lc.
  - exact Lc.
  - apply sized_intro;
      cbn [set_sampler n_ starting_ current_ prev_ paramSum_ paramSquaredSum_
           corSum_]; rewrite ?Ln, ?Lst, ?Lc; try assumption; congruence.
  - congruence.
Qed.


(** ** What a block update writes *)

Lemma Zrange_cons (lo hi : Z) :
  lo < hi -> Zrange lo hi = lo :: Zrange (lo + 1) hi.
Proof.
  intros H. unfold Zrange.
  replace (Z.to_nat (hi - lo)) with (S (Z.to_nat (hi - (lo + 1)))) by lia.
  cbn [seq map]. f_equal; [lia |].
  rewrite <- seq_shift, map_map. apply map_ext. intros k. lia.
Qed.

(** A loop over [lo .. hi-1] that assigns entry [i] from [i] alone. *)
Lemma assign_loop {A : Type} (d : A) (f : Z -> A) (v : list A) (lo : Z)
    (k : nat) :
  0 <= lo -> lo + Z.of_nat k <= vector_size v ->
  let r := for_range lo (lo + Z.of_nat k) (fun i u => vset u i (f i)) v in
  List.length r = List.length v
  /\ forall i, 0 <= i ->
       vget d r i
       = if (lo <=? i) && (i <? lo + Z.of_nat k) then f i else vget d v i.
Proof.
  cbv zeta. unfold vector_size. induction k as [| k IH]; intros Hlo Hk.
  - rewrite for_range_nil by lia. split; [reflexivity |].
    intros i Hi.
    replace ((lo <=? i) && (i <? lo + Z.of_nat 0)) with false; [reflexivity |].
    symmetry. apply andb_false_iff.
    destruct (Z_lt_le_dec i lo); [left; apply Z.leb_gt | right; apply Z.ltb_ge];
      lia.
  - replace (lo + Z.of_nat (S k)) with (lo + Z.of_nat k + 1) by lia.
    rewrite for_range_snoc by lia.
    destruct IH as [IHlen IHget]; [lia | lia |].
    set (r := for_range lo (lo + Z.of_nat k) (fun i u => vset u i (f i)) v) in *.
    split; [now rewrite vset_length |].
    intros i Hi.
    destruct (Z.eq_dec i (lo + Z.of_nat k)) as [-> | Hne].
    + rewrite vget_vset_eq by (unfold vector_size; lia).
      replace ((lo <=? lo + Z.of_nat k)
               && (lo + Z.of_nat k <? lo + Z.of_nat k + 1)) with true;
        [reflexivity |].
      symmetry. apply andb_true_iff.
      split; [apply Z.leb_le | apply Z.ltb_lt]; lia.
    + rewrite vget_vset_neq by assumption. rewrite IHget by exact Hi.
      destruct (lo <=? i) eqn:H0; cbn [andb]; [| reflexivity].
      destruct (i <? lo + Z.of_nat k) eqn:H1.
      * apply Z.ltb_lt in H1.
        replace (i <? lo + Z.of_nat k + 1) with true
          by (symmetry; apply Z.ltb_lt; lia). reflexivity.
      * apply Z.ltb_ge in H1.
        replace (i <? lo + Z.of_nat k + 1) with false
          by (symmetry; apply Z.ltb_ge; lia). reflexivity.
Qed.

Lemma assign_range {A : Type} (d : A) (f : Z -> A) (v : list A) (lo hi : Z) :
  0 <= lo -> lo <= hi -> hi <= vector_size v ->
  let r := for_range lo hi (fun i u => vset u i (f i)) v in
  List.length r = List.length v
  /\ forall i, 0 <= i ->
       vget d r i = if (lo <=? i) && (i <? hi) then f i else vget d v i.
Proof.
  intros Hlo Hle Hhi.
  replace hi with (lo + Z.of_nat (Z.to_nat (hi - lo))) by lia.
  apply assign_loop; lia.
Qed.

(** The loop that draws the block of the built-in proposal: entry [j - lo]
    gets the point generated from draw [g0 + (j - lo)]. *)
Lemma draw_loop (gen : nat -> Z -> float) (lo : Z) (g0 : nat) (k : nat)
    (block0 : list float) :
  (k <= List.length block0)%nat ->
  let r := for_range lo (lo + Z.of_nat k)
             (fun j '(b, g) => (vset b (j - lo) (gen g j), S g))
             (block0, g0) in
  snd r = (g0 + k)%nat
  /\ List.length (fst r) = List.length block0
  /\ forall t, 0 <= t < Z.of_nat k ->
       vget 0%float (fst r) t = gen (g0 + Z.to_nat t)%nat (lo + t).
Proof.
  cbv zeta. induction k as [| k IH]; intros Hk.
  - rewrite for_range_nil by lia. cbn. split; [lia |]. split; [reflexivity |].
    intros t Ht. lia.
  - replace (lo + Z.of_nat (S k)) with (lo + Z.of_nat k + 1) by lia.
    rewrite for_range_snoc by lia.
    destruct IH as (IHg & IHlen & IHget); [lia |].
    destruct (for_range lo (lo + Z.of_nat k)
                (fun j '(b, g) => (vset b (j - lo) (gen g j), S g))
                (block0, g0)) as [b g].
    cbn [fst snd] in *. subst g.
    split; [lia |]. split; [now rewrite vset_length |].
    intros t Ht.
    replace (lo + Z.of_nat k - lo) with (Z.of_nat k) by lia.
    destruct (Z.eq_dec t (Z.of_nat k)) as [-> | Hne].
    + rewrite vget_vset_eq by (unfold vector_size; lia).
      rewrite Nat2Z.id. reflexivity.
    + rewrite vget_vset_neq by lia. apply IHget. lia.
Qed.

Lemma propose_guard (E : Env) (i blockBegin : Z) (st : MetropolisHastings)
    (w : World) (pr : proposal) :
  propose E i blockBegin st w = Ok pr ->
  blockBegin <= pr_blockEnd pr
  /\ (blockBegin < pr_blockEnd pr ->
      0 <= blockBegin /\ pr_blockEnd pr <= n_ st)
  /\ pr_current pr
     = for_range blockBegin (pr_blockEnd pr)
         (fun j c => vset c j (vget 0%float (pr_block pr) (j - blockBegin)))
         (current_ st)
  /\ (externalProposal_ st = None ->
      (pr_block pr, pr_generator_calls pr)
      = for_range blockBegin (pr_blockEnd pr)
          (fun j '(b, g) =>
             (vset b (j - blockBegin) (generateNewPoint E st g j), S g))
          (repeat 0%float (Z.to_nat (pr_blockEnd pr - blockBegin)),
           generator_calls st)).
Proof.
  intros H. unfold propose in H.
  destruct (vget 0 (blocks_ st) i - blockBegin <? 0) eqn:Hneg; [discriminate |].
  apply Z.ltb_ge in Hneg.
  destruct ((blockBegin <? vget 0 (blocks_ st) i)
            && negb ((0 <=? blockBegin) && (vget 0 (blocks_ st) i <=? n_ st)))
    eqn:Hoob; [discriminate |].
  assert (Hin : blockBegin < vget 0 (blocks_ st) i ->
                0 <= blockBegin /\ vget 0 (blocks_ st) i <= n_ st).
  { intros Hlt. apply Z.ltb_lt in Hlt. rewrite Hlt in Hoob. cbn in Hoob.
    apply negb_false_iff, andb_true_iff in Hoob as [H1 H2].
    apply Z.leb_le in H1, H2. auto. }
  destruct (externalProposal_ st) as [ext |].
  - apply bind_Ok in H as (newPrior & _ & H). injection H as <-. cbn.
    repeat split; try lia; try apply Hin; auto. discriminate.
  - destruct (for_range blockBegin (vget 0 (blocks_ st) i) _ _) as [b g] eqn:Hb.
    apply bind_Ok in H as (newPrior & _ & H). injection H as <-. cbn.
    repeat split; try lia; try apply Hin; auto.
Qed.

(** X2: A block update leaves the entries outside its block alone, whether it
    accepts or rejects. *)
Theorem block_step_touches_its_block (E : Env) (i blockBegin : Z)
    (st st' : MetropolisHastings) (w w' : World) (acc acc' : list N)
    (blockEnd : Z) :
  block_step E i (st, w, acc, blockBegin) = Ok (st', w', acc', blockEnd) ->
  List.length (current_ st) = Z.to_nat (n_ st) ->
  blockEnd = vget 0 (blocks_ st) i
  /\ blockBegin <= blockEnd
  /\ List.length (current_ st') = List.length (current_ st)
  /\ forall k, 0 <= k -> k < blockBegin \/ blockEnd <= k ->
       vget 0%float (current_ st') k = vget 0%float (current_ st) k.
Proof.
  intros H Hlen. unfold block_step in H.
  apply bind_Ok in H as (pr & Hpr & H).
  pose proof (propose_inv E i blockBegin st w pr Hpr)
    as (_ & _ & _ & _ & Hend & _).
  pose proof (propose_guard E i blockBegin st w pr Hpr)
    as (Hle & Hin & Hcur & _).
  assert (Hframe :
    List.length (pr_current pr) = List.length (current_ st)
    /\ forall k, 0 <= k -> k < blockBegin \/ pr_blockEnd pr <= k ->
         vget 0%float (pr_current pr) k = vget 0%float (current_ st) k).
  { rewrite Hcur.
    destruct (Z.eq_dec blockBegin (pr_blockEnd pr)) as [Heq | Hne].
    - rewrite <- Heq, for_range_nil by lia. auto.
    - destruct Hin as [H0 Hn]; [lia |].
      destruct (assign_range 0%float
                  (fun j => vget 0%float (pr_block pr) (j - blockBegin))
                  (current_ st) blockBegin (pr_blockEnd pr))
        as [Hl Hg]; [lia | lia | unfold vector_size; lia |].
      split; [exact Hl |].
      intros k Hk Hout. rewrite Hg by exact Hk.
      replace ((blockBegin <=? k) && (k <? pr_blockEnd pr)) with false;
        [reflexivity |].
      symmetry. apply andb_false_iff.
      destruct Hout; [left; apply Z.leb_gt | right; apply Z.ltb_ge]; lia. }
  destruct Hframe as [Hl Hg].
  destruct (pr_q pr <=? pr_p pr)%float; injection H as <- <- <- <-; cbn;
    repeat split; auto.
Qed.

(** X3: With the built-in proposal the candidate of a block is, entry by entry,
    the current value plus a fresh draw of the generator times the sampling
    width of that entry; the block takes as many draws as it has entries. *)
Theorem builtin_proposal_candidate (E : Env) (i blockBegin : Z)
    (st : MetropolisHastings) (w : World) (pr : proposal) :
  propose E i blockBegin st w = Ok pr ->
  externalProposal_ st = None ->
  List.length (current_ st) = Z.to_nat (n_ st) ->
  pr_generator_calls pr
  = (generator_calls st + Z.to_nat (pr_blockEnd pr - blockBegin))%nat
  /\ forall j, blockBegin <= j < pr_blockEnd pr ->
       vget 0%float (pr_current pr) j
       = (vget 0 (current_ st) j
          + generator_generate E
              (generator_calls st + Z.to_nat (j - blockBegin))%nat
            * vget 0 (samplingWidth_ st) j)%float.
Proof.
  intros Hpr Hext Hlen.
  pose proof (propose_guard E i blockBegin st w pr Hpr)
    as (Hle & Hin & Hcur & Hblock).
  specialize (Hblock Hext).
  set (k := Z.to_nat (pr_blockEnd pr - blockBegin)) in *.
  replace (pr_blockEnd pr) with (blockBegin + Z.of_nat k) in Hblock at 1
    by (subst k; lia).
  destruct (draw_loop (generateNewPoint E st) blockBegin (generator_calls st) k
              (repeat 0%float k)) as (Dg & Dl & Dget);
    [rewrite repeat_length; lia |].
  cbn zeta in Dg, Dl, Dget. rewrite <- Hblock in Dg, Dl, Dget.
  cbn [fst snd] in Dg, Dl, Dget.
  split; [exact Dg |].
  intros j Hj.
  destruct Hin as [H0 Hn]; [lia |].
  destruct (assign_range 0%float
              (fun j => vget 0%float (pr_block pr) (j - blockBegin))
              (current_ st) blockBegin (pr_blockEnd pr))
    as [_ Hg]; [lia | lia | unfold vector_size; lia |].
  rewrite Hcur, Hg by lia.
  replace ((blockBegin <=? j) && (j <? pr_blockEnd pr)) with true
    by (symmetry; apply andb_true_iff;
        split; [apply Z.leb_le | apply Z.ltb_lt]; lia).
  rewrite Dget by (subst k; lia).
  unfold generateNewPoint. replace (blockBegin + (j - blockBegin)) with j by lia.
  reflexivity.
Qed.

(** ** What a run leaves of the configuration *)

Lemma same_config_refl (a : MetropolisHastings) : same_config a a.
Proof. repeat split. Qed.

Lemma same_config_trans (a b c : MetropolisHastings) :
  same_config a b -> same_config b c -> same_config a c.
Proof. unfold same_config. intuition congruence. Qed.

Lemma same_config_for_range (lo hi : Z)
    (body : Z -> MetropolisHastings -> MetropolisHastings)
    (st : MetropolisHastings) :
  (forall j x, same_config (body j x) x) ->
  same_config (for_range lo hi body st) st.
Proof.
  intros Hbody. apply for_range_inv.
  - intros j x _ Hx. eapply same_config_trans; [apply Hbody | exact Hx].
  - apply same_config_refl.
Qed.

Lemma update_same_config (st : MetropolisHastings) :
  same_config (update st) st.
Proof.
  unfold update.
  eapply same_config_trans; [| apply same_config_for_range].
  - repeat split.
  - intros j x. repeat split.
Qed.

Lemma block_step_same_config (E : Env) (i : Z) (st st' : MetropolisHastings)
    (w w' : World) (acc acc' : list N) (bb bb' : Z) :
  block_step E i (st, w, acc, bb) = Ok (st', w', acc', bb') ->
  same_config st' st.
Proof.
  unfold block_step. intros H. apply bind_Ok in H as (pr & _ & H).
  destruct (pr_q pr <=? pr_p pr)%float; injection H as <- <- <- <-;
    repeat split.
Qed.

Lemma block_loop_same_config (E : Env) (st st' : MetropolisHastings)
    (w w' : World) (acc acc' : list N) (bb bb' : Z) (idx : list Z) :
  for_list_r idx (block_step E) (st, w, acc, bb) = Ok (st', w', acc', bb') ->
  same_config st' st.
Proof.
  intros H.
  apply (for_list_r_inv
           (fun ls : loop_state => same_config (fst (fst (fst ls))) st)) in H.
  - exact H.
  - intros j [[[x wx] ax] bx] [[[y wy] ay] b_y] _ Hx Hy. cbn [fst] in *.
    apply block_step_same_config in Hy.
    eapply same_config_trans; eassumption.
  - apply same_config_refl.
Qed.

Lemma sweep_same_config (E : Env) (wri : bool) (st st' : MetropolisHastings)
    (w w' : World) (acc acc' : list N) :
  sweep E wri (st, w, acc) = Ok (st', w', acc') -> same_config st' st.
Proof.
  intros H. apply sweep_struct in H as (st1 & w1 & bb & w2 & Hloop & _ & H).
  apply block_loop_same_config in Hloop. cbv zeta in H.
  assert (Hu : same_config
                 (update (set_iteration_ st1 (ulong_incr (iteration_ st1))))
                 st).
  { eapply same_config_trans; [apply update_same_config |].
    eapply same_config_trans; [| exact Hloop]. repeat split. }
  destruct H as [[-> _] | [-> _]]; [exact Hu |].
  eapply same_config_trans; [| exact Hu]. repeat split.
Qed.

Lemma readResumeInfo_same_config (st : MetropolisHastings) (w : World) :
  same_config (snd (readResumeInfo st w)) st.
Proof.
  destruct (readResumeInfo_shape st w)
    as (m & it & l & p & cur & prev & s1 & s2 & s3 & -> & _).
  repeat split.
Qed.

Lemma openOut_inv (E : Env) (append : bool) (st st' : MetropolisHastings)
    (w w' : World) :
  openOut E append st w = Ok (st', w') ->
  can_open_chain E = true /\ out_ st = false
  /\ st' = set_out_ st true
  /\ w' = set_chain_txt w
            (Some (if append
                   then match chain_txt w with Some c => c | None => [] end
                   else [])).
Proof.
  unfold openOut. intros H.
  destruct (can_open_chain E); [| discriminate].
  destruct (out_ st); [discriminate |]. cbn in H.
  injection H as <- <-. auto.
Qed.

Lemma fresh_start_same_config (E : Env) (m : N) (st st' : MetropolisHastings)
    (w w' : World) :
  fresh_start E m st w = Ok (st', w') -> same_config st' st.
Proof.
  unfold fresh_start. intros H. apply bind_Ok in H as (prior & _ & H).
  apply openOut_inv in H as (_ & _ & -> & _).
  eapply same_config_trans; [| eapply same_config_trans;
                                 [apply same_config_for_range |]].
  - repeat split.
  - intros j x. repeat split.
  - repeat split.
Qed.

Lemma run_start_same_config (E : Env) (m : N) (st st' : MetropolisHastings)
    (w w' : World) :
  run_start E m st w = Ok (st', w') -> same_config st' st.
Proof.
  unfold run_start. intros H.
  pose proof (readResumeInfo_same_config st w) as Hr.
  destruct (readResumeInfo st w) as [resumed st1]. cbn [snd] in Hr.
  destruct resumed.
  - apply openOut_inv in H as (_ & _ & -> & _).
    eapply same_config_trans; [| exact Hr]. repeat split.
  - apply fresh_start_same_config in H.
    eapply same_config_trans; eassumption.
Qed.

(** ** Invariants of the loop of [run] *)

Lemma run_loop_inv (E : Env) (wri : bool) (P : run_state -> Prop)
    (fuel : nat) (rs rs' : run_state) :
  (forall x y, P x -> stop E (fst (fst x)) = Ok false ->
               sweep E wri x = Ok y -> P y) ->
  P rs -> run_loop E fuel wri rs = Ok rs' ->
  P rs' /\ stop E (fst (fst rs')) = Ok true.
Proof.
  intros Hstep. revert rs.
  induction fuel as [| fuel IH]; intros rs HP H; cbn [run_loop] in H;
    destruct (stop_total E (fst (fst rs))) as [b Hb]; rewrite Hb in H;
    cbn [bind] in H; destruct b; try discriminate;
    try (injection H as <-; auto).
  apply bind_Ok in H as (y & Hs & H).
  apply (IH y); [| exact H]. eapply Hstep; eassumption.
Qed.

Lemma run_loop_same_config (E : Env) (wri : bool) (fuel : nat)
    (rs rs' : run_state) :
  run_loop E fuel wri rs = Ok rs' ->
  same_config (fst (fst rs')) (fst (fst rs)).
Proof.
  intros H.
  apply (run_loop_inv E wri
           (fun x => same_config (fst (fst x)) (fst (fst rs)))) in H.
  - apply H.
  - intros [[x wx] ax] [[y wy] ay] Hx _ Hy. cbn [fst] in *.
    apply sweep_same_config in Hy. eapply same_config_trans; eassumption.
  - apply same_config_refl.
Qed.

Lemma run_keeps_configuration_aux (E : Env) (m : N) (wri : bool)
    (st st' : MetropolisHastings) (w w' : World) (acc' : list N) :
  run E m wri st w = Ok (st', w', acc') -> same_config st' st.
Proof.
  intros H.
  apply run_inv in H as (w0 & st1 & w1 & st2 & _ & Hstart & Hloop & ->).
  apply run_start_same_config in Hstart.
  pose proof (run_loop_same_config _ _ _ _ _ Hloop) as Hc. cbn [fst] in Hc.
  eapply same_config_trans; [| exact Hstart].
  eapply same_config_trans; [| exact Hc]. repeat split.
Qed.

(** X4: [run] changes the sampler state and the files only: the configuration
    of the engine after a run is the one before it, and the chain stream is
    closed again. *)
Theorem run_keeps_configuration (E : Env) (m : N) (wri : bool)
    (st st' : MetropolisHastings) (w w' : World) (acc' : list N) :
  run E m wri st w = Ok (st', w', acc') ->
  same_config st' st /\ out_ st' = false
  /\ List.length acc' = List.length (blocks_ st).
Proof.
  intros H.
  apply run_inv in H as (w0 & st1 & w1 & st2 & _ & Hstart & Hloop & ->).
  apply run_start_same_config in Hstart.
  pose proof (run_loop_same_config _ _ _ _ _ Hloop) as Hc. cbn [fst] in Hc.
  split; [| split; [reflexivity |]].
  - eapply same_config_trans; [| exact Hstart].
    eapply same_config_trans; [| exact Hc]. repeat split.
  - apply (run_loop_inv E wri
             (fun x => List.length (snd x) = List.length (blocks_ st1)))
      in Hloop.
    + destruct Hloop as [Hl _]. cbn [snd] in Hl. rewrite Hl.
      destruct Hstart as (_ & _ & _ & _ & _ & _ & _ & _ & _ & _ & _ & Hb & _).
      now rewrite Hb.
    + intros [[x wx] ax] [[y wy] ay] Hx _ Hy. cbn [snd] in *.
      apply sweep_struct in Hy as (x1 & wx1 & bb & wx2 & Hl & _).
      apply block_loop_keeps in Hl. destruct Hl as (_ & _ & _ & _ & _ & _ & _ & _ & Hl).
      congruence.
    + cbn [snd]. apply repeat_length.
Qed.

(** ** What one sweep does to the engine and the files *)

Lemma sized_set_out (st : MetropolisHastings) (b : bool) :
  sized (set_out_ st b) = sized st.
Proof. reflexivity. Qed.

Lemma resume_image_set_out (st : MetropolisHastings) (b : bool) :
  resume_image (set_out_ st b) = resume_image st.
Proof. reflexivity. Qed.

Lemma writeChainElement_paramnames (E : Env) (st : MetropolisHastings)
    (w w' : World) :
  writeChainElement E st w = Ok w' -> paramnames_txt w' = paramnames_txt w.
Proof.
  unfold writeChainElement. intros H.
  destruct (check E (out_ st) ""); [| discriminate]. cbn in H.
  destruct (out_ st); injection H as <-; reflexivity.
Qed.

Lemma line_count_row (st : MetropolisHastings) :
  List.length (current_ st) = Z.to_nat (n_ st) -> 0 <= n_ st ->
  line_count (chain_element st) = 1%nat.
Proof.
  intros Hl Hn. rewrite chain_element_row by assumption.
  rewrite !line_count_app, line_count_values. reflexivity.
Qed.

Lemma sweep_effect (E : Env) (wri : bool) (st st' : MetropolisHastings)
    (w w' : World) (acc acc' : list N) :
  sweep E wri (st, w, acc) = Ok (st', w', acc') ->
  sized st = true -> out_ st = true ->
  sized st' = true /\ out_ st' = true
  /\ iteration_ st' = ulong_incr (iteration_ st)
  /\ maxChainLength_ st' = maxChainLength_ st
  /\ paramnames_txt w' = paramnames_txt w
  /\ (exists row,
        chain_txt w'
        = Some (match chain_txt w with Some c => c | None => [] end ++ row)
        /\ line_count row = 1%nat)
  /\ resume_dat w'
     = (if wri && can_open_resume E then Some (resume_image st')
        else resume_dat w)
  /\ List.length acc' = List.length acc.
Proof.
  intros H Hs Ho.
  apply sweep_struct in H as (st1 & w1 & bb & w2 & Hloop & Hw2 & H).
  pose proof (block_loop_keeps _ _ _ _ _ _ _ _ _ Hloop)
    as (K1 & K2 & K3 & K4 & K5 & K6 & K7 & K8 & K9).
  apply block_loop_frame in Hloop.
  destruct Hloop as (F1 & F2 & F3 & F4 & F5 & F6 & F7).
  pose proof (sized_inv _ Hs) as (Hn & L1 & L2 & L3 & L4 & L5 & L6).
  assert (Hs1 : sized st1 = true)
    by (apply sized_intro; congruence).
  pose proof (writeChainElement_paramnames _ _ _ _ Hw2) as Hp2.
  apply writeChainElement_inv in Hw2 as [Hr2 Hc2].
  specialize (Hc2 ltac:(congruence)).
  set (st3 := update (set_iteration_ st1 (ulong_incr (iteration_ st1)))) in *.
  assert (Hs3 : sized st3 = true).
  { subst st3. apply update_sized. exact Hs1. }
  pose proof (update_frame (set_iteration_ st1 (ulong_incr (iteration_ st1))))
    as (U1 & U2 & U3 & U4 & U5 & U6 & U7).
  fold st3 in U1, U2, U3, U4, U5, U6, U7.
  cbn [iteration_ maxChainLength_ out_ set_iteration_ set_sampler] in U1, U2, U5.
  assert (Hrow : line_count (chain_element st1) = 1%nat)
    by (apply line_count_row; congruence).
  cbv zeta in H.
  set (w3 := if wri then writeResumeInfo E st3 w2 else w2) in *.
  assert (Hw3 :
    paramnames_txt w3 = paramnames_txt w
    /\ chain_txt w3
       = Some (match chain_txt w with Some c => c | None => [] end
               ++ chain_element st1)
    /\ resume_dat w3
       = (if wri && can_open_resume E then Some (resume_image st3)
          else resume_dat w)).
  { subst w3. unfold writeResumeInfo.
    destruct wri, (can_open_resume E); cbn;
      rewrite ?Hp2, ?K8, ?Hc2, ?F6, ?Hr2, ?F7; auto. }
  destruct Hw3 as (P1 & P2 & P3).
  assert (Hit : iteration_ st3 = ulong_incr (iteration_ st)) by congruence.
  assert (Hmax : maxChainLength_ st3 = maxChainLength_ st) by congruence.
  assert (Hout : out_ st3 = true) by congruence.
  destruct H as [[-> ->] | [-> ->]].
  - split; [exact Hs3 |]. split; [exact Hout |]. split; [exact Hit |].
    split; [exact Hmax |]. split; [exact P1 |].
    split; [exists (chain_element st1); auto |].
    split; [exact P3 | exact K9].
  - cbn [set_chain_txt paramnames_txt chain_txt resume_dat].
    rewrite P2.
    split; [exact Hs3 |]. split; [reflexivity |]. split; [exact Hit |].
    split; [exact Hmax |]. split; [exact P1 |].
    split; [exists (chain_element st1); auto |].
    split; [exact P3 | exact K9].
Qed.

(** ** The acceptance counters *)

Lemma Zrange_NoDup (lo hi : Z) : NoDup (Zrange lo hi).
Proof.
  remember (Z.to_nat (hi - lo)) as k eqn:Hk. revert lo Hk.
  induction k as [| k IH]; intros lo Hk.
  - rewrite Zrange_empty by lia. constructor.
  - rewrite Zrange_cons by lia. constructor; [| apply IH; lia].
    intros Hin. apply Zrange_In in Hin. lia.
Qed.

Lemma vget_vset_same {A : Type} (d : A) (v : list A) (i : Z) (x : A) :
  0 <= i -> vget d (vset v i x) i = x \/ vget d (vset v i x) i = vget d v i.
Proof.
  intros Hi. destruct (Z_lt_le_dec i (vector_size v)).
  - left. apply vget_vset_eq. lia.
  - right. unfold vget, vset. destruct (i <? 0); [reflexivity |].
    unfold vector_size in *.
    rewrite !nth_overflow by (rewrite ?list_set_length; lia). reflexivity.
Qed.

Lemma block_step_counter (E : Env) (i : Z) (st st' : MetropolisHastings)
    (w w' : World) (acc acc' : list N) (bb bb' : Z) :
  0 <= i ->
  block_step E i (st, w, acc, bb) = Ok (st', w', acc', bb') ->
  forall k, 0 <= k ->
    vget 0%N acc' k = vget 0%N acc k
    \/ (k = i /\ vget 0%N acc' k = ulong_incr (vget 0%N acc k)).
Proof.
  intros Hi H k Hk. unfold block_step in H.
  apply bind_Ok in H as (pr & _ & H).
  destruct (pr_q pr <=? pr_p pr)%float; injection H as <- <- <- <-; auto.
  unfold incr_accepted. destruct (Z.eq_dec k i) as [-> | Hne].
  - destruct (vget_vset_same 0%N acc i (ulong_incr (vget 0%N acc i)) Hi);
      auto.
  - left. apply vget_vset_neq; assumption.
Qed.

Lemma block_loop_counter_out (E : Env) (k : Z) (idx : list Z) :
  0 <= k -> (forall j, In j idx -> 0 <= j) -> ~ In k idx ->
  forall st w acc bb st' w' acc' bb',
    for_list_r idx (block_step E) (st, w, acc, bb) = Ok (st', w', acc', bb') ->
    vget 0%N acc' k = vget 0%N acc k.
Proof.
  intros Hk. induction idx as [| j rest IH];
    intros Hpos Hnotin st w acc bb st' w' acc' bb' H; cbn [for_list_r] in H.
  - injection H as <- <- <- <-. reflexivity.
  - apply bind_Ok in H as ([[[st1 w1] acc1] bb1] & Hstep & H).
    rewrite (IH (fun x Hx => Hpos x (or_intror Hx))
                (fun Hin => Hnotin (or_intror Hin)) _ _ _ _ _ _ _ _ H).
    destruct (block_step_counter E j _ _ _ _ _ _ _ _
                (Hpos j (or_introl eq_refl)) Hstep k Hk) as [He | [He _]];
      [exact He |].
    exfalso. apply Hnotin. left. now symmetry.
Qed.

Lemma block_loop_counter (E : Env) (idx : list Z) :
  NoDup idx -> (forall j, In j idx -> 0 <= j) ->
  forall st w acc bb st' w' acc' bb',
    for_list_r idx (block_step E) (st, w, acc, bb) = Ok (st', w', acc', bb') ->
    forall k, 0 <= k ->
      vget 0%N acc' k = vget 0%N acc k
      \/ vget 0%N acc' k = ulong_incr (vget 0%N acc k).
Proof.
  induction idx as [| j rest IH]; intros Hnd Hpos st w acc bb st' w' acc' bb' H
    k Hk; cbn [for_list_r] in H.
  - injection H as <- <- <- <-. auto.
  - apply bind_Ok in H as ([[[st1 w1] acc1] bb1] & Hstep & H).
    inversion Hnd as [| ? ? Hnotin Hnd']; subst.
    pose proof (block_step_counter E j _ _ _ _ _ _ _ _
                  (Hpos j (or_introl eq_refl)) Hstep) as Hone.
    destruct (Z.eq_dec k j) as [-> | Hne].
    + rewrite (block_loop_counter_out E j rest Hk
                 (fun x Hx => Hpos x (or_intror Hx)) Hnotin
                 _ _ _ _ _ _ _ _ H).
      destruct (Hone j Hk) as [He | [_ He]]; auto.
    + destruct (Hone k Hk) as [He | [He _]]; [| contradiction].
      rewrite <- He.
      eapply IH; try eassumption.
      intros x Hx. apply Hpos. now right.
Qed.

Lemma sweep_counter (E : Env) (wri : bool) (st st' : MetropolisHastings)
    (w w' : World) (acc acc' : list N) :
  sweep E wri (st, w, acc) = Ok (st', w', acc') ->
  forall k, 0 <= k ->
    vget 0%N acc' k = vget 0%N acc k
    \/ vget 0%N acc' k = ulong_incr (vget 0%N acc k).
Proof.
  intros H. apply sweep_struct in H as (st1 & w1 & bb & w2 & Hloop & _).
  unfold for_range_r in Hloop.
  eapply block_loop_counter; [apply Zrange_NoDup | | exact Hloop].
  intros j Hj. apply Zrange_In in Hj. lia.
Qed.

(** ** The state a run starts from *)

Lemma le_value_bound (bs : list Byte.byte) :
  0 <= le_value bs < 256 ^ Z.of_nat (List.length bs).
Proof.
  induction bs as [| b rest IH]; [cbn; lia |].
  cbn [le_value List.length]. rewrite Nat2Z.inj_succ, Z.pow_succ_r by lia.
  pose proof (Z_of_byte_range b). lia.
Qed.

Lemma read_ulong_below (old : N) (s : istream) :
  (fst (read_ulong old s) < ULONG_MOD)%N.
Proof.
  unfold read_ulong.
  pose proof (stream_read_length 8 (ulong_to_bytes old) s
                (le_bytes_length 8 _)) as Hl.
  destruct (stream_read 8 (ulong_to_bytes old) s) as [b s']. cbn [fst] in *.
  unfold ulong_of_bytes, ULONG_MOD.
  pose proof (le_value_bound b) as Hb. rewrite Hl in Hb.
  change (256 ^ Z.of_nat 8) with 18446744073709551616 in Hb. lia.
Qed.

Lemma readResumeInfo_ulongs (st : MetropolisHastings) (w : World) :
  resume_dat w <> None -> ulongs_ok (snd (readResumeInfo st w)) = true.
Proof.
  unfold readResumeInfo. destruct (resume_dat w) as [bytes |]; [| congruence].
  intros _.
  pose proof (read_ulong_below (maxChainLength_ st)
                {| is_bytes := bytes; is_good := true |}) as H1.
  destruct (read_ulong _ _) as [m s1].
  pose proof (read_ulong_below (iteration_ st) s1) as H2.
  destruct (read_ulong _ s1) as [it s2].
  destruct (read_double _ s2) as [l s3].
  destruct (read_double _ s3) as [p s4].
  destruct (read_doubles _ (current_ st) s4) as [cur s5].
  destruct (read_doubles _ (prev_ st) s5) as [prev s6].
  destruct (read_doubles _ (paramSum_ st) s6) as [v1 s7].
  destruct (read_doubles _ (paramSquaredSum_ st) s7) as [v2 s8].
  destruct (read_doubles _ (corSum_ st) s8) as [v3 s9].
  destruct (read_int 0 s9) as [code s10].
  cbn [fst snd] in *. unfold ulongs_ok. cbn.
  apply andb_true_iff. split; apply N.ltb_lt; assumption.
Qed.

Lemma readResumeInfo_sized (st : MetropolisHastings) (w : World) :
  sized st = true -> sized (snd (readResumeInfo st w)) = true.
Proof.
  intros Hs. pose proof (sized_inv _ Hs) as (Hn & L0 & L1 & L2 & L3 & L4 & L5).
  unfold readResumeInfo. destruct (resume_dat w) as [bytes |]; [| exact Hs].
  destruct (read_ulong _ _) as [m s1].
  destruct (read_ulong _ s1) as [it s2].
  destruct (read_double _ s2) as [l s3].
  destruct (read_double _ s3) as [p s4].
  pose proof (read_doubles_length (n_ st) (current_ st) s4 L1) as R1.
  destruct (read_doubles _ (current_ st) s4) as [cur s5].
  pose proof (read_doubles_length (n_ st) (prev_ st) s5 L2) as R2.
  destruct (read_doubles _ (prev_ st) s5) as [prev s6].
  pose proof (read_doubles_length (n_ st) (paramSum_ st) s6 L3) as R3.
  destruct (read_doubles _ (paramSum_ st) s6) as [v1 s7].
  pose proof (read_doubles_length (n_ st) (paramSquaredSum_ st) s7 L4) as R4.
  destruct (read_doubles _ (paramSquaredSum_ st) s7) as [v2 s8].
  pose proof (read_doubles_length (n_ st) (corSum_ st) s8 L5) as R5.
  destruct (read_doubles _ (corSum_ st) s8) as [v3 s9].
  destruct (read_int 0 s9) as [code s10].
  cbn [fst snd] in *. apply sized_intro; cbn; assumption.
Qed.

Lemma readResumeInfo_true_file (st : MetropolisHastings) (w : World) :
  fst (readResumeInfo st w) = true -> resume_dat w <> None.
Proof.
  unfold readResumeInfo. destruct (resume_dat w); [discriminate |].
  cbn. discriminate.
Qed.

Lemma zero_loop_length (n : Z) (v : list float) :
  List.length (for_range 0 n (fun i u => vset u i 0%float) v) = List.length v.
Proof.
  apply (for_range_inv (fun u => List.length u = List.length v)).
  - intros j x _ Hx. now rewrite vset_length.
  - reflexivity.
Qed.

Lemma fresh_start_sized (E : Env) (m : N) (st st' : MetropolisHastings)
    (w w' : World) :
  fresh_start E m st w = Ok (st', w') -> sized st = true -> sized st' = true.
Proof.
  intros H Hs.
  pose proof (fresh_start_same_config _ _ _ _ _ _ H) as Hc.
  apply fresh_start_inv in H
    as (_ & _ & _ & Hcur & Hprev & _ & H1 & H2 & H3 & Hn & _).
  apply sized_inv in Hs as (Hn0 & L0 & L1 & L2 & L3 & L4 & L5).
  destruct Hc as (_ & _ & _ & _ & Hst & _).
  apply sized_intro; rewrite ?Hn, ?Hst, ?Hcur, ?Hprev, ?H1, ?H2, ?H3,
    ?zero_loop_length; assumption.
Qed.

Lemma fresh_start_paramnames (E : Env) (m : N) (st st' : MetropolisHastings)
    (w w' : World) :
  fresh_start E m st w = Ok (st', w') -> paramnames_txt w' = paramnames_txt w.
Proof.
  unfold fresh_start. intros H. apply bind_Ok in H as (prior & _ & H).
  apply openOut_inv in H as (_ & _ & _ & ->). reflexivity.
Qed.

Lemma run_start_effect (E : Env) (m : N) (st st1 : MetropolisHastings)
    (w w1 : World) :
  run_start E m st w = Ok (st1, w1) ->
  can_open_chain E = true /\ out_ st = false /\ out_ st1 = true
  /\ paramnames_txt w1 = paramnames_txt w
  /\ resume_dat w1 = resume_dat w
  /\ rand_calls w1 = rand_calls w
  /\ chain_txt w1
     = Some (if fst (readResumeInfo st w)
             then match chain_txt w with Some c => c | None => [] end
             else [])
  /\ (sized st = true -> sized st1 = true)
  /\ (fst (readResumeInfo st w) = true ->
      st1 = set_out_ (snd (readResumeInfo st w)) true)
  /\ (fst (readResumeInfo st w) = false ->
      iteration_ st1 = 0%N /\ maxChainLength_ st1 = m).
Proof.
  unfold run_start. intros H.
  pose proof (readResumeInfo_sized st w) as Hsz.
  pose proof (readResumeInfo_shape st w)
    as (m0 & it & l & p & cur & prev & s1 & s2 & s3 & Hshape & _).
  destruct (readResumeInfo st w) as [resumed st0]. cbn [fst snd] in *.
  destruct resumed.
  - apply openOut_inv in H as (Hcan & Hout & -> & ->).
    rewrite Hshape in Hout. cbn in Hout.
    repeat split; auto; discriminate.
  - pose proof (fresh_start_sized _ _ _ _ _ _ H) as Hs.
    pose proof (fresh_start_paramnames _ _ _ _ _ _ H) as Hp.
    pose proof H as H0. unfold fresh_start in H0.
    apply bind_Ok in H0 as (prior & _ & H0).
    apply openOut_inv in H0 as (Hcan & Hout & _ & Hw).
    assert (Ho : out_ st = false).
    { revert Hout. rewrite Hshape.
      match goal with
      | |- out_ (for_range 0 ?n ?body ?s) = false -> _ =>
          assert (Hf : out_ (for_range 0 n body s) = out_ st)
      end.
      { apply for_range_inv; [intros j x _ Hx; exact Hx | reflexivity]. }
      rewrite Hf. auto. }
    apply fresh_start_inv in H
      as (_ & Hm & Hit & _ & _ & _ & _ & _ & _ & _ & _ & Ho1 & Hc & Hr).
    repeat split; auto; try discriminate.
    rewrite Hw. reflexivity.
Qed.

(** ** What the loop of [run] keeps and counts *)

Lemma stop_false_incr (E : Env) (st : MetropolisHastings) :
  stop E st = Ok false -> (maxChainLength_ st < ULONG_MOD)%N ->
  ulong_incr (iteration_ st) = (iteration_ st + 1)%N
  /\ (iteration_ st + 1 < ULONG_MOD)%N.
Proof.
  intros Hb Hmax. apply stop_false_below in Hb.
  assert (Hm : (N.max 100 (maxChainLength_ st) < ULONG_MOD)%N)
    by (unfold ULONG_MOD in *; lia).
  split; [eapply ulong_incr_below; eassumption | lia].
Qed.

Lemma run_loop_counts (E : Env) (wri : bool) (fuel : nat)
    (st st' : MetropolisHastings) (w w' : World) (acc acc' : list N) :
  run_loop E fuel wri (st, w, acc) = Ok (st', w', acc') ->
  (maxChainLength_ st < ULONG_MOD)%N ->
  (forall k, 0 <= k -> vget 0%N acc k = 0%N) ->
  maxChainLength_ st' = maxChainLength_ st
  /\ (iteration_ st <= iteration_ st')%N
  /\ (iteration_ st' < ULONG_MOD \/ st' = st)%N
  /\ (forall k, 0 <= k ->
        (vget 0%N acc' k <= iteration_ st' - iteration_ st)%N)
  /\ (iteration_ st' = iteration_ st -> (st', w', acc') = (st, w, acc)).
Proof.
  intros H Hmax Hacc.
  apply (run_loop_inv E wri
    (fun x : run_state =>
       let '(sx, wx, ax) := x in
       maxChainLength_ sx = maxChainLength_ st
       /\ (iteration_ st <= iteration_ sx)%N
       /\ (iteration_ sx < ULONG_MOD \/ sx = st)%N
       /\ (forall k, 0 <= k ->
             (vget 0%N ax k <= iteration_ sx - iteration_ st)%N)
       /\ (iteration_ sx = iteration_ st -> x = (st, w, acc)))) in H.
  - exact (proj1 H).
  - intros [[sx wx] ax] [[sy wy] ay] (I1 & I2 & I3 & I4 & I5) Hstop Hsw.
    cbn [fst] in Hstop.
    pose proof (sweep_counter _ _ _ _ _ _ _ _ Hsw) as Hc.
    apply sweep_inv in Hsw as (_ & _ & _ & _ & _ & _ & Hit & Hm & _).
    destruct (stop_false_incr E sx Hstop) as [Hincr Hlt]; [congruence |].
    rewrite Hincr in Hit.
    split; [congruence |]. split; [lia |]. split; [left; lia |].
    split; [| intros; lia].
    intros k Hk. specialize (I4 k Hk).
    destruct (Hc k Hk) as [-> | ->]; [lia |].
    apply stop_false_below in Hstop.
    rewrite (ulong_incr_below _ (N.max 100 (maxChainLength_ sx)))
      by (unfold ULONG_MOD in *; lia).
    lia.
  - split; [reflexivity |]. split; [lia |]. split; [now right |].
    split; [| reflexivity].
    intros k Hk. rewrite Hacc by exact Hk. lia.
Qed.

Lemma run_loop_files (E : Env) (wri : bool) (fuel : nat)
    (st st' : MetropolisHastings) (w w' : World) (acc acc' : list N)
    (c : list piece) :
  run_loop E fuel wri (st, w, acc) = Ok (st', w', acc') ->
  (maxChainLength_ st < ULONG_MOD)%N ->
  sized st = true -> out_ st = true -> chain_txt w = Some c ->
  sized st' = true /\ out_ st' = true
  /\ paramnames_txt w' = paramnames_txt w
  /\ (exists rows,
        chain_txt w' = Some (c ++ rows)
        /\ line_count rows = N.to_nat (iteration_ st' - iteration_ st))
  /\ ((iteration_ st < iteration_ st')%N ->
      resume_dat w'
      = (if wri && can_open_resume E then Some (resume_image st')
         else resume_dat w))
  /\ (wri && can_open_resume E = false -> resume_dat w' = resume_dat w).
Proof.
  intros H Hmax Hs Ho Hc.
  apply (run_loop_inv E wri
    (fun x : run_state =>
       let '(sx, wx, ax) := x in
       maxChainLength_ sx = maxChainLength_ st
       /\ (iteration_ st <= iteration_ sx)%N
       /\ sized sx = true /\ out_ sx = true
       /\ paramnames_txt wx = paramnames_txt w
       /\ (exists rows,
             chain_txt wx = Some (c ++ rows)
             /\ line_count rows = N.to_nat (iteration_ sx - iteration_ st))
       /\ ((iteration_ st < iteration_ sx)%N ->
           resume_dat wx
           = (if wri && can_open_resume E then Some (resume_image sx)
              else resume_dat w))
       /\ (wri && can_open_resume E = false ->
           resume_dat wx = resume_dat w))) in H.
  - destruct H as [(_ & _ & H) _]. exact H.
  - intros [[sx wx] ax] [[sy wy] ay]
      (I1 & I2 & I3 & I4 & I5 & (rows & I6 & I7) & I8 & I9) Hstop Hsw.
    cbn [fst] in Hstop.
    destruct (stop_false_incr E sx Hstop) as [Hincr Hlt]; [congruence |].
    apply sweep_effect in Hsw
      as (S1 & S2 & S3 & S4 & S5 & (row & S6 & S7) & S8 & _); try assumption.
    rewrite Hincr in S3. rewrite I6 in S6.
    split; [congruence |]. split; [lia |]. split; [exact S1 |].
    split; [exact S2 |]. split; [congruence |].
    split.
    { exists (rows ++ row). rewrite S6, app_assoc. split; [reflexivity |].
      rewrite line_count_app, I7, S7, S3. lia. }
    split.
    { intros _. rewrite S8.
      destruct (wri && can_open_resume E) eqn:Hw; [reflexivity |].
      apply I9. reflexivity. }
    intros Hw. rewrite S8, Hw. apply I9. exact Hw.
  - split; [reflexivity |]. split; [lia |]. split; [exact Hs |].
    split; [exact Ho |]. split; [reflexivity |].
    split.
    { exists []. rewrite app_nil_r, N.sub_diag. auto. }
    split; [lia | reflexivity].
Qed.

(** ** The whole run *)

Lemma run_struct (E : Env) (m : N) (wri : bool) (st st' : MetropolisHastings)
    (w w' : World) (acc' : list N) :
  run E m wri st w = Ok (st', w', acc') ->
  check E (0 <? m)%N "invalid maxChainLength" = Ok tt
  /\ check E (negb (vector_empty (blocks_ st))) "" = Ok tt
  /\ can_open_paramnames E = true
  /\ exists w0 st1 w1 st2,
       write_paramnames E st w = Ok w0
       /\ run_start E m st w0 = Ok (st1, w1)
       /\ run_loop E (run_fuel st1) wri
            (st1, w1, repeat 0%N (List.length (blocks_ st1)))
          = Ok (st2, w', acc')
       /\ st' = closeOut st2.
Proof.
  intros H. pose proof (run_inv _ _ _ _ _ _ _ _ H) as Hinv.
  unfold run in H.
  apply bind_Ok in H as ([] & H1 & H).
  apply bind_Ok in H as ([] & H2 & H).
  apply bind_Ok in H as (w0 & H3 & _).
  repeat split; try assumption.
  unfold write_paramnames in H3.
  destruct (can_open_paramnames E); [reflexivity | discriminate].
Qed.

Lemma append_loop_flat_map {A : Type} (f : Z -> list A) (lo hi : Z)
    (init : list A) :
  for_range lo hi (fun i o => o ++ f i) init
  = init ++ flat_map f (Zrange lo hi).
Proof.
  unfold for_range. revert init.
  induction (Zrange lo hi) as [| j rest IH]; intros init; cbn.
  - now rewrite app_nil_r.
  - rewrite IH, app_assoc. reflexivity.
Qed.

Lemma write_paramnames_content (E : Env) (st : MetropolisHastings)
    (w w0 : World) :
  write_paramnames E st w = Ok w0 ->
  paramnames_txt w0
  = Some (flat_map
            (fun i =>
               let name := vget EmptyString (paramNames_ st) i in
               [PStr name; PChar "009"%char; PStr name; PEndl])
            (Zrange 0 (n_ st))).
Proof.
  unfold write_paramnames. intros H.
  destruct (can_open_paramnames E); [| discriminate].
  injection H as <-. cbn [paramnames_txt set_paramnames_txt].
  rewrite (append_loop_flat_map
             (fun i =>
                let name := vget EmptyString (paramNames_ st) i in
                [PStr name; PChar "009"%char; PStr name; PEndl])).
  reflexivity.
Qed.

Lemma line_count_names (names : list string) (idx : list Z) :
  line_count
    (flat_map
       (fun i =>
          let name := vget EmptyString names i in
          [PStr name; PChar "009"%char; PStr name; PEndl])
       idx)
  = List.length idx.
Proof.
  induction idx as [| j rest IH]; [reflexivity |].
  match goal with
  | |- line_count (flat_map ?f (j :: rest)) = _ =>
      change (flat_map f (j :: rest)) with (f j ++ flat_map f rest)
  end.
  rewrite line_count_app, IH. reflexivity.
Qed.

Lemma repeat_zero_get (k : nat) (i : Z) : vget 0%N (repeat 0%N k) i = 0%N.
Proof.
  unfold vget. generalize (Z.to_nat i) as j.
  induction k as [| k IH]; intros [| j]; cbn; auto.
Qed.

(** The state and the files at the head of the loop of [run], and what the
    loop makes of them. *)
Lemma run_effect (E : Env) (m : N) (wri : bool) (st st' : MetropolisHastings)
    (w w' : World) (acc' : list N) :
  run E m wri st w = Ok (st', w', acc') ->
  (m < ULONG_MOD)%N ->
  let resumed := fst (readResumeInfo st w) in
  let first := if resumed then iteration_ (snd (readResumeInfo st w))
               else 0%N in
  let old := if resumed
             then match chain_txt w with Some c => c | None => [] end
             else [] in
  exists st2,
    st' = closeOut st2 /\ out_ st2 = true
    /\ stop E st2 = Ok true
    /\ (first <= iteration_ st')%N
    /\ (forall k, 0 <= k -> (vget 0%N acc' k <= iteration_ st' - first)%N)
    /\ (maxChainLength_ st' < ULONG_MOD)%N
    /\ (resumed = false -> maxChainLength_ st' = m
                           /\ (iteration_ st' < ULONG_MOD)%N)
    /\ (sized st = true ->
        sized st' = true
        /\ (exists rows,
              chain_txt w' = Some (old ++ rows)
              /\ line_count rows = N.to_nat (iteration_ st' - first))
        /\ ((first < iteration_ st')%N ->
            resume_dat w'
            = (if wri && can_open_resume E then Some (resume_image st')
               else resume_dat w))
        /\ (wri && can_open_resume E = false -> resume_dat w' = resume_dat w)).
Proof.
  intros H Hm resumed first old.
  apply run_struct in H
    as (_ & _ & _ & w0 & st1 & w1 & st2 & Hw0 & Hstart & Hloop & ->).
  pose proof (write_paramnames_inv _ _ _ _ Hw0) as [Hr0 Hc0].
  pose proof (readResumeInfo_world st w w0 Hr0) as Hread.
  apply run_start_effect in Hstart
    as (_ & _ & Ho1 & Hp1 & Hr1 & _ & Hc1 & Hs1 & Hres & Hfresh).
  rewrite Hread in Hc1, Hres, Hfresh. rewrite Hc0 in Hc1.
  fold resumed in Hc1, Hres, Hfresh. fold old in Hc1.
  assert (Hit1 : iteration_ st1 = first).
  { subst first. destruct resumed.
    - rewrite Hres by reflexivity. reflexivity.
    - apply Hfresh. reflexivity. }
  assert (Hmax1 : (maxChainLength_ st1 < ULONG_MOD)%N).
  { destruct resumed eqn:Hresumed.
    - rewrite Hres by reflexivity.
      pose proof (readResumeInfo_ulongs st w
                    (readResumeInfo_true_file st w Hresumed)) as Hu.
      apply ulongs_ok_inv in Hu. apply Hu.
    - destruct Hfresh as [_ ->]; [reflexivity | exact Hm]. }
  pose proof (run_loop_inv E wri (fun _ => True) _ _ _ (fun _ _ _ _ _ => I) I
                Hloop) as [_ Hstop].
  cbn [fst] in Hstop.
  pose proof (run_loop_counts _ _ _ _ _ _ _ _ _ Hloop Hmax1
                (fun k _ => repeat_zero_get _ k))
    as (C1 & C2 & C3 & C4 & C5).
  rewrite Hit1 in C2, C4.
  exists st2. split; [reflexivity |].
  assert (Ho2 : out_ st2 = true).
  { apply (run_loop_inv E wri (fun x => out_ (fst (fst x)) = true)) in Hloop.
    - apply Hloop.
    - intros [[x wx] ax] [[y wy] ay] Hx _ Hy. cbn [fst] in *.
      apply sweep_inv in Hy
        as (_ & _ & _ & _ & _ & _ & _ & _ & _ & _ & _ & _ & Hy & _).
      auto.
    - exact Ho1. }
  split; [exact Ho2 |]. split; [exact Hstop |]. split; [exact C2 |].
  split; [exact C4 |]. split; [cbn; congruence |].
  split.
  { intros Hf. destruct (Hfresh Hf) as [Hi0 Hm0]. cbn.
    split; [congruence |].
    destruct C3 as [C3 | ->]; [exact C3 |]. rewrite Hi0. reflexivity. }
  intros Hs. specialize (Hs1 Hs).
  pose proof (run_loop_files _ _ _ _ _ _ _ _ _ _ Hloop Hmax1 Hs1 Ho1 Hc1)
    as (F1 & _ & F3 & F4 & F5 & F6).
  rewrite Hit1 in F4, F5. rewrite Hr1, Hr0 in F5, F6.
  split; [exact F1 |]. split; [exact F4 |]. split; [exact F5 | exact F6].
Qed.

(** X5: The chain file after a run: a fresh run leaves one row for each of its
    iterations; a resumed run keeps the rows that were there and adds one
    for each iteration it made itself. *)
Theorem run_chain_rows (E : Env) (m : N) (wri : bool)
    (st st' : MetropolisHastings) (w w' : World) (acc' : list N) :
  run E m wri st w = Ok (st', w', acc') ->
  sized st = true -> (m < ULONG_MOD)%N ->
  let resumed := fst (readResumeInfo st w) in
  let first := if resumed then iteration_ (snd (readResumeInfo st w))
               else 0%N in
  let old := if resumed
             then match chain_txt w with Some c => c | None => [] end
             else [] in
  (first <= iteration_ st')%N
  /\ exists rows,
       chain_txt w' = Some (old ++ rows)
       /\ line_count rows = N.to_nat (iteration_ st' - first).
Proof.
  intros H Hs Hm. cbv zeta.
  destruct (run_effect _ _ _ _ _ _ _ _ H Hm)
    as (st2 & _ & _ & _ & Hle & _ & _ & _ & Hfiles).
  destruct (Hfiles Hs) as (_ & Hrows & _).
  split; assumption.
Qed.

(** X6: No acceptance counter exceeds the number of sweeps the run made: each
    block is updated once in a sweep and its counter goes up by at most
    one. *)
Theorem run_counters_bounded (E : Env) (m : N) (wri : bool)
    (st st' : MetropolisHastings) (w w' : World) (acc' : list N) :
  run E m wri st w = Ok (st', w', acc') ->
  (m < ULONG_MOD)%N ->
  let first := if fst (readResumeInfo st w)
               then iteration_ (snd (readResumeInfo st w)) else 0%N in
  List.length acc' = List.length (blocks_ st)
  /\ forall k, 0 <= k ->
       (vget 0%N acc' k <= iteration_ st' - first)%N.
Proof.
  intros H Hm. cbv zeta.
  destruct (run_effect _ _ _ _ _ _ _ _ H Hm)
    as (st2 & _ & _ & _ & _ & Hc & _).
  split; [| exact Hc].
  pose proof (run_struct _ _ _ _ _ _ _ _ H)
    as (_ & _ & _ & w0 & st1 & w1 & st3 & _ & Hstart & Hloop & _).
  apply run_start_same_config in Hstart.
  destruct Hstart as (_ & _ & _ & _ & _ & _ & _ & _ & _ & _ & _ & Hb & _).
  apply (run_loop_inv E wri
           (fun x => List.length (snd x) = List.length (blocks_ st1)))
    in Hloop.
  - destruct Hloop as [Hl _]. cbn [snd] in Hl. congruence.
  - intros [[x wx] ax] [[y wy] ay] Hx _ Hy. cbn [snd] in *.
    apply sweep_struct in Hy as (x1 & wx1 & bb & wx2 & Hl & _).
    apply block_loop_keeps in Hl.
    destruct Hl as (_ & _ & _ & _ & _ & _ & _ & _ & Hl). congruence.
  - cbn [snd]. apply repeat_length.
Qed.

Lemma sweep_paramnames (E : Env) (wri : bool) (st st' : MetropolisHastings)
    (w w' : World) (acc acc' : list N) :
  sweep E wri (st, w, acc) = Ok (st', w', acc') ->
  paramnames_txt w' = paramnames_txt w.
Proof.
  intros H. apply sweep_struct in H as (st1 & w1 & bb & w2 & Hloop & Hw2 & H).
  apply block_loop_keeps in Hloop.
  destruct Hloop as (_ & _ & _ & _ & _ & _ & _ & K8 & _).
  apply writeChainElement_paramnames in Hw2. cbv zeta in H.
  assert (Hw3 : forall x,
    paramnames_txt (if wri then writeResumeInfo E x w2 else w2)
    = paramnames_txt w).
  { intros x. unfold writeResumeInfo.
    destruct wri, (can_open_resume E); cbn; congruence. }
  destruct H as [[_ ->] | [_ ->]]; [apply Hw3 |].
  cbn [paramnames_txt set_chain_txt]. apply Hw3.
Qed.

(** X7: [run] writes the paramnames file before it looks for a resume file:
    after every run, fresh or resumed, the file holds one line for each
    parameter, the name twice with a tab between. *)
Theorem run_writes_paramnames (E : Env) (m : N) (wri : bool)
    (st st' : MetropolisHastings) (w w' : World) (acc' : list N) :
  run E m wri st w = Ok (st', w', acc') ->
  exists lines,
    paramnames_txt w' = Some lines
    /\ lines
       = flat_map
           (fun i =>
              let name := vget EmptyString (paramNames_ st) i in
              [PStr name; PChar "009"%char; PStr name; PEndl])
           (Zrange 0 (n_ st))
    /\ line_count lines = Z.to_nat (n_ st).
Proof.
  intros H.
  apply run_struct in H
    as (_ & _ & _ & w0 & st1 & w1 & st2 & Hw0 & Hstart & Hloop & ->).
  pose proof (write_paramnames_content _ _ _ _ Hw0) as Hn.
  apply run_start_effect in Hstart as (_ & _ & _ & Hp1 & _).
  apply (run_loop_inv E wri
           (fun x => paramnames_txt (snd (fst x)) = paramnames_txt w1))
    in Hloop.
  - destruct Hloop as [Hl _]. cbn [fst snd] in Hl.
    eexists. split; [rewrite Hl, Hp1; exact Hn |]. split; [reflexivity |].
    rewrite line_count_names, Zrange_length, Z.sub_0_r. reflexivity.
  - intros [[x wx] ax] [[y wy] ay] Hx _ Hy. cbn [fst snd] in *.
    apply sweep_paramnames in Hy. congruence.
  - reflexivity.
Qed.

(** X8: What a run that returns has needed: the two output files opened, the
    chain stream was closed, and under CHECKS_ON the maximal length was
    positive and there was a block. *)
Theorem run_requirements (E : Env) (m : N) (wri : bool)
    (st st' : MetropolisHastings) (w w' : World) (acc' : list N) :
  run E m wri st w = Ok (st', w', acc') ->
  can_open_paramnames E = true
  /\ can_open_chain E = true
  /\ out_ st = false
  /\ (checks_on E = true -> (0 < m)%N /\ blocks_ st <> [])
  /\ (fst (readResumeInfo st w) = false ->
      exists prior,
        calculatePrior E (set_current_ st (starting_ st)) = Ok prior).
Proof.
  intros H.
  apply run_struct in H
    as (H1 & H2 & Hp & w0 & st1 & w1 & st2 & Hw0 & Hstart & _).
  pose proof (write_paramnames_inv _ _ _ _ Hw0) as [Hr0 _].
  pose proof (readResumeInfo_world st w w0 Hr0) as Hread.
  pose proof (run_start_effect _ _ _ _ _ _ Hstart) as (Hc & Ho & _).
  split; [exact Hp |]. split; [exact Hc |]. split; [exact Ho |].
  split.
  - intros Hon. split.
    + apply N.ltb_lt. eapply check_on_Ok; eassumption.
    + pose proof (check_on_Ok _ _ _ _ Hon H2) as Hb.
      destruct (blocks_ st); discriminate.
  - intros Hf. rewrite <- Hread in Hf.
    rewrite (run_start_fresh _ _ _ _ Hf) in Hstart.
    apply fresh_start_inv in Hstart as (Hprior & _).
    destruct (readResumeInfo_shape st w0)
      as (m0 & it & l & p & cur & prev & s1 & s2 & s3 & Hshape & _).
    rewrite Hshape in Hprior. exists (currentPrior_ st1). exact Hprior.
Qed.

(** ** The resume file *)

Lemma vector_bytes_length (n : Z) (v : list float) :
  List.length v = Z.to_nat n ->
  List.length (vector_bytes n v) = (Z.to_nat n * 8)%nat.
Proof.
  intros H. unfold vector_bytes.
  rewrite doubles_to_bytes_length, length_firstn, H. lia.
Qed.

(** X9: The resume file of an engine with [n] parameters has [36 + 40 n] bytes:
    two [unsigned long], two [double], five vectors of [n] [double] and the
    [int] marker. *)
Theorem resume_image_length (st : MetropolisHastings) :
  sized st = true ->
  List.length (resume_image st) = (36 + 40 * Z.to_nat (n_ st))%nat.
Proof.
  intros Hs. apply sized_inv in Hs as (_ & _ & L1 & L2 & L3 & L4 & L5).
  unfold resume_image, ulong_to_bytes, int_to_bytes.
  rewrite !length_app, !le_bytes_length, !double_to_bytes_length,
    !vector_bytes_length by assumption.
  lia.
Qed.

Lemma read_image_then (saved st0 : MetropolisHastings) (w : World)
    (rest : list Byte.byte) :
  sized saved = true -> ulongs_ok saved = true -> sized st0 = true ->
  n_ st0 = n_ saved -> resumeCode_ st0 = resumeCode_ saved ->
  -2147483648 <= resumeCode_ saved < 2147483648 ->
  resume_dat w = Some (resume_image saved ++ rest) ->
  readResumeInfo st0 w
  = (true,
     set_sampler st0 (maxChainLength_ saved) (iteration_ saved)
       (currentLike_ saved) (currentPrior_ saved) (current_ saved)
       (prev_ saved) (paramSum_ saved) (paramSquaredSum_ saved)
       (corSum_ saved)).
Proof.
  intros Hs Hu Hs0 Hn Hcode Hrange Hw.
  apply sized_inv in Hs as (_ & _ & Hc & Hp & Hps & Hpq & Hcs).
  apply sized_inv in Hs0 as (_ & _ & Hc0 & Hp0 & Hps0 & Hpq0 & Hcs0).
  apply ulongs_ok_inv in Hu as [Hmax Hit].
  unfold readResumeInfo. rewrite Hw. unfold resume_image.
  rewrite <- !app_assoc.
  rewrite read_ulong_exact by exact Hmax.
  rewrite read_ulong_exact by exact Hit.
  rewrite !read_double_exact.
  rewrite Hn in *.
  rewrite !read_doubles_exact by assumption.
  rewrite read_int_exact by exact Hrange.
  rewrite Hcode, Z.eqb_refl. reflexivity.
Qed.

(** X10: [readResumeInfo] does not look past the marker: a resume file followed
    by any further bytes is accepted and gives the state of the file. *)
Theorem resume_file_trailing_bytes (saved st0 : MetropolisHastings)
    (w : World) (rest : list Byte.byte) :
  sized saved = true -> ulongs_ok saved = true -> sized st0 = true ->
  n_ st0 = n_ saved -> resumeCode_ st0 = resumeCode_ saved ->
  -2147483648 <= resumeCode_ saved < 2147483648 ->
  resume_dat w = Some (resume_image saved ++ rest) ->
  fst (readResumeInfo st0 w) = true
  /\ sampler_state (snd (readResumeInfo st0 w)) = sampler_state saved.
Proof.
  intros Hs Hu Hs0 Hn Hcode Hrange Hw.
  rewrite (read_image_then saved st0 w rest) by assumption.
  split; reflexivity.
Qed.

Lemma read_int_short (s : istream) :
  (List.length (is_bytes s) <= 2)%nat -> 0 <= fst (read_int 0 s) < 65536.
Proof.
  intros Hl. unfold read_int, stream_read.
  change (int_to_bytes 0) with [Byte.x00; Byte.x00; Byte.x00; Byte.x00].
  destruct (is_good s); [| cbn; lia].
  destruct (is_bytes s) as [| a [| b [| c r]]]; cbn in Hl; try lia;
    cbn [firstn List.length skipn app fst]; unfold int_of_bytes;
    cbn [le_value];
    change (Z_of_byte Byte.x00) with 0;
    try pose proof (Z_of_byte_range a); try pose proof (Z_of_byte_range b);
    match goal with
    | |- context [if ?c then _ else _] => destruct c eqn:Hc
    end;
    try apply Z.ltb_ge in Hc; lia.
Qed.

Lemma stream_read_track (count : nat) (old : list Byte.byte) (s : istream) :
  is_good (snd (stream_read count old s)) = true ->
  is_good s = true
  /\ (List.length (is_bytes (snd (stream_read count old s))) + count
      = List.length (is_bytes s))%nat.
Proof.
  unfold stream_read. destruct (is_good s) eqn:Hg; cbn [snd is_good is_bytes].
  - intros H. apply Nat.eqb_eq in H. rewrite length_firstn in H.
    rewrite length_skipn. split; [reflexivity | lia].
  - rewrite Hg. discriminate.
Qed.

Lemma read_ulong_track (old : N) (s : istream) :
  is_good (snd (read_ulong old s)) = true ->
  is_good s = true
  /\ (List.length (is_bytes (snd (read_ulong old s))) + 8
      = List.length (is_bytes s))%nat.
Proof.
  unfold read_ulong.
  pose proof (stream_read_track 8 (ulong_to_bytes old) s) as H.
  destruct (stream_read 8 (ulong_to_bytes old) s). exact H.
Qed.

Lemma read_double_track (old : float) (s : istream) :
  is_good (snd (read_double old s)) = true ->
  is_good s = true
  /\ (List.length (is_bytes (snd (read_double old s))) + 8
      = List.length (is_bytes s))%nat.
Proof.
  unfold read_double.
  pose proof (stream_read_track 8 (double_to_bytes old) s) as H.
  destruct (stream_read 8 (double_to_bytes old) s). exact H.
Qed.

Lemma read_doubles_track (n : Z) (old : list float) (s : istream) :
  is_good (snd (read_doubles n old s)) = true ->
  is_good s = true
  /\ (List.length (is_bytes (snd (read_doubles n old s))) + Z.to_nat n * 8
      = List.length (is_bytes s))%nat.
Proof.
  unfold read_doubles.
  pose proof (stream_read_track (Z.to_nat n * 8) (doubles_to_bytes old) s) as H.
  destruct (stream_read (Z.to_nat n * 8) (doubles_to_bytes old) s). exact H.
Qed.

(** X11: A file too short to hold the state and more than half of the marker is
    rejected, whatever it holds, when the marker itself does not fit in two
    bytes (the constructor's 123456 does not). *)
Theorem short_resume_file_rejected (st : MetropolisHastings) (w : World)
    (bytes : list Byte.byte) :
  resume_dat w = Some bytes ->
  (List.length bytes < 35 + 40 * Z.to_nat (n_ st))%nat ->
  ~ 0 <= resumeCode_ st < 65536 ->
  fst (readResumeInfo st w) = false.
Proof.
  intros Hw Hlen Hcode. unfold readResumeInfo. rewrite Hw.
  set (s0 := {| is_bytes := bytes; is_good := true |}).
  pose proof (read_ulong_track (maxChainLength_ st) s0) as T1.
  destruct (read_ulong _ s0) as [m s1].
  pose proof (read_ulong_track (iteration_ st) s1) as T2.
  destruct (read_ulong _ s1) as [it s2].
  pose proof (read_double_track (currentLike_ st) s2) as T3.
  destruct (read_double _ s2) as [l s3].
  pose proof (read_double_track (currentPrior_ st) s3) as T4.
  destruct (read_double _ s3) as [p s4].
  pose proof (read_doubles_track (n_ st) (current_ st) s4) as T5.
  destruct (read_doubles _ (current_ st) s4) as [cur s5].
  pose proof (read_doubles_track (n_ st) (prev_ st) s5) as T6.
  destruct (read_doubles _ (prev_ st) s5) as [prev s6].
  pose proof (read_doubles_track (n_ st) (paramSum_ st) s6) as T7.
  destruct (read_doubles _ (paramSum_ st) s6) as [v1 s7].
  pose proof (read_doubles_track (n_ st) (paramSquaredSum_ st) s7) as T8.
  destruct (read_doubles _ (paramSquaredSum_ st) s7) as [v2 s8].
  pose proof (read_doubles_track (n_ st) (corSum_ st) s8) as T9.
  destruct (read_doubles _ (corSum_ st) s8) as [v3 s9].
  cbn [snd] in *.
  assert (Hint : 0 <= fst (read_int 0 s9) < 65536).
  { destruct (is_good s9) eqn:G9.
    - apply read_int_short.
      destruct (T9 eq_refl) as [G8 E9]. destruct (T8 G8) as [G7 E8].
      destruct (T7 G7) as [G6 E7]. destruct (T6 G6) as [G5 E6].
      destruct (T5 G5) as [G4 E5]. destruct (T4 G4) as [G3 E4].
      destruct (T3 G3) as [G2 E3]. destruct (T2 G2) as [G1 E2].
      destruct (T1 G1) as [_ E1]. subst s0. cbn [is_bytes] in E1. lia.
    - rewrite read_int_bad by exact G9. lia. }
  destruct (read_int 0 s9) as [code s10]. cbn [fst] in *.
  apply Z.eqb_neq. intros ->. apply Hcode. exact Hint.
Qed.

Lemma ulong_incr_range (x : N) : (ulong_incr x < ULONG_MOD)%N.
Proof. unfold ulong_incr. apply N.mod_lt. discriminate. Qed.

Lemma sweep_state (E : Env) (wri : bool) (st st' : MetropolisHastings)
    (w w' : World) (acc acc' : list N) :
  sweep E wri (st, w, acc) = Ok (st', w', acc') ->
  (sized st = true -> sized st' = true)
  /\ resume_dat w'
     = (if wri && can_open_resume E then Some (resume_image st')
        else resume_dat w).
Proof.
  intros H.
  pose proof (sweep_struct _ _ _ _ _ _ _ _ H)
    as (st1 & w1 & bb & w2 & Hloop & Hw2 & Hcases).
  pose proof (block_loop_keeps _ _ _ _ _ _ _ _ _ Hloop)
    as (K1 & K2 & K3 & K4 & K5 & K6 & K7 & K8 & K9).
  apply block_loop_frame in Hloop.
  destruct Hloop as (F1 & F2 & F3 & F4 & F5 & F6 & F7).
  apply writeChainElement_inv in Hw2 as [Hr2 _].
  set (st3 := update (set_iteration_ st1 (ulong_incr (iteration_ st1)))) in *.
  cbv zeta in Hcases.
  set (w3 := if wri then writeResumeInfo E st3 w2 else w2) in *.
  assert (P3 : resume_dat w3
               = (if wri && can_open_resume E then Some (resume_image st3)
                  else resume_dat w)).
  { subst w3. unfold writeResumeInfo.
    destruct wri, (can_open_resume E); cbn; congruence. }
  assert (Hs3 : sized st = true -> sized st3 = true).
  { intros Hs.
    pose proof (sized_inv _ Hs) as (Hn & L1 & L2 & L3 & L4 & L5 & L6).
    subst st3. apply update_sized. apply sized_intro; cbn; congruence. }
  destruct Hcases as [[-> ->] | [-> ->]]; split; auto.
Qed.

(** X12: With [writeResumeInformation] set and a resume file that opens, the file
    after a sweep holds the state the sweep ends in, the iteration counted
    and the sums updated: an engine with the same number of parameters
    reads exactly that state back. *)
Theorem sweep_checkpoint (E : Env) (st st' st0 : MetropolisHastings)
    (w w' : World) (acc acc' : list N) :
  sweep E true (st, w, acc) = Ok (st', w', acc') ->
  can_open_resume E = true ->
  sized st = true -> (maxChainLength_ st < ULONG_MOD)%N ->
  -2147483648 <= resumeCode_ st < 2147483648 ->
  sized st0 = true -> n_ st0 = n_ st -> resumeCode_ st0 = resumeCode_ st ->
  resume_dat w' = Some (resume_image st')
  /\ fst (readResumeInfo st0 w') = true
  /\ sampler_state (snd (readResumeInfo st0 w')) = sampler_state st'.
Proof.
  intros H Hcan Hs Hmax Hcode Hs0 Hn0 Hc0.
  pose proof (sweep_same_config _ _ _ _ _ _ _ _ H) as Hcfg.
  pose proof (sweep_state _ _ _ _ _ _ _ _ H) as [Hs' Hr].
  rewrite Hcan in Hr. cbn in Hr. specialize (Hs' Hs).
  apply sweep_inv in H as (_ & _ & _ & _ & _ & _ & Hit & Hm & _).
  destruct Hcfg as (Hn & _ & _ & _ & _ & _ & _ & _ & _ & _ & _ & _ & Hrc).
  split; [exact Hr |].
  rewrite (read_written_image st' st0 w'); try assumption; try congruence.
  - split; reflexivity.
  - unfold ulongs_ok. apply andb_true_iff. split; apply N.ltb_lt.
    + congruence.
    + rewrite Hit. apply ulong_incr_range.
Qed.

Lemma set_paramnames_txt_same (w : World) (x : option (list piece)) :
  paramnames_txt w = x -> set_paramnames_txt w x = w.
Proof. destruct w. cbn. now intros ->. Qed.

Lemma set_chain_txt_same (w : World) (x : option (list piece)) :
  chain_txt w = x -> set_chain_txt w x = w.
Proof. destruct w. cbn. now intros ->. Qed.

Lemma reopen_closed (st : MetropolisHastings) :
  out_ st = true ->
  set_out_
    (set_sampler (closeOut st) (maxChainLength_ st) (iteration_ st)
       (currentLike_ st) (currentPrior_ st) (current_ st) (prev_ st)
       (paramSum_ st) (paramSquaredSum_ st) (corSum_ st)) true
  = st.
Proof. destruct st. cbn. now intros ->. Qed.

(** X13: A finished run that wrote its resume file leaves nothing to do: a
    second run on the engine and files it returned, with any maximal
    length, resumes, finds the stopping rule met and returns the same engine
    and files, with all acceptance counters at zero. *)
Theorem rerun_after_finished_run (E : Env) (m m2 : N) (wri2 : bool)
    (st st' : MetropolisHastings) (w w' : World) (acc' : list N) :
  run E m true st w = Ok (st', w', acc') ->
  fst (readResumeInfo st w) = false ->
  can_open_resume E = true ->
  sized st = true -> (m < ULONG_MOD)%N ->
  -2147483648 <= resumeCode_ st < 2147483648 ->
  (0 < m2)%N ->
  run E m2 wri2 st' w'
  = Ok (st', w', repeat 0%N (List.length (blocks_ st))).
Proof.
  intros H Hfresh Hcan Hs Hm Hcode Hm2.
  pose proof (run_keeps_configuration_aux _ _ _ _ _ _ _ _ H) as Hcfg.
  pose proof (run_effect _ _ _ _ _ _ _ _ H Hm) as Heff. cbv zeta in Heff.
  rewrite Hfresh in Heff.
  destruct Heff as (st2 & Hst' & Ho2 & Hstop & _ & _ & Hmax' & Hfr & Hfiles).
  destruct (Hfr eq_refl) as [_ Hit'].
  destruct (Hfiles Hs) as (Hs' & (rows & Hrows & _) & Hres & _).
  assert (H100 : (0 < iteration_ st')%N).
  { apply stop_true_inv in Hstop as [H100 _]. rewrite Hst'. cbn. lia. }
  specialize (Hres H100). rewrite Hcan in Hres. cbn in Hres.
  pose proof (run_struct _ _ _ _ _ _ _ _ H)
    as (_ & Hblocks & Hpn & w0 & st1 & w1 & st3 & Hw0 & Hstart & Hloop & _).
  pose proof (run_start_effect _ _ _ _ _ _ Hstart)
    as (Hchain & _ & _ & Hp1 & _).
  assert (Hpn' : paramnames_txt w' = paramnames_txt w1).
  { apply (run_loop_inv E true
             (fun x => paramnames_txt (snd (fst x)) = paramnames_txt w1))
      in Hloop.
    - apply Hloop.
    - intros [[x wx] ax] [[y wy] ay] Hx _ Hy. cbn [fst snd] in *.
      apply sweep_paramnames in Hy. congruence.
    - reflexivity. }
  destruct Hcfg as (Hn & _ & _ & _ & _ & _ & _ & _ & Hpnames & _ & _ & Hb & Hrc).
  assert (Hwp : write_paramnames E st' w' = Ok w').
  { unfold write_paramnames in *. rewrite Hpn in *. injection Hw0 as <-.
    rewrite Hn, Hpnames. f_equal.
    apply set_paramnames_txt_same. now rewrite Hpn', Hp1. }
  unfold run.
  rewrite (proj2 (N.ltb_lt 0 m2) Hm2), check_true. cbn [bind].
  rewrite Hb, Hblocks. cbn [bind].
  rewrite Hwp. cbn [bind].
  unfold run_start.
  rewrite (read_written_image st' st' w'); try assumption; try congruence.
  - unfold openOut. rewrite Hchain.
    assert (Hout' : out_ st' = false) by (rewrite Hst'; reflexivity).
    cbn [out_ set_sampler]. rewrite Hout'. cbn [andb negb bind].
    rewrite Hrows.
    rewrite (set_chain_txt_same w' _ Hrows).
    rewrite Hst'.
    change (maxChainLength_ (closeOut st2)) with (maxChainLength_ st2).
    change (iteration_ (closeOut st2)) with (iteration_ st2).
    change (currentLike_ (closeOut st2)) with (currentLike_ st2).
    change (currentPrior_ (closeOut st2)) with (currentPrior_ st2).
    change (current_ (closeOut st2)) with (current_ st2).
    change (prev_ (closeOut st2)) with (prev_ st2).
    change (paramSum_ (closeOut st2)) with (paramSum_ st2).
    change (paramSquaredSum_ (closeOut st2)) with (paramSquaredSum_ st2).
    change (corSum_ (closeOut st2)) with (corSum_ st2).
    rewrite (reopen_closed st2 Ho2).
    generalize (run_fuel st2) as fuel. intros fuel.
    destruct fuel; cbn [run_loop fst]; rewrite Hstop; cbn [bind];
      rewrite <- Hb, Hst'; reflexivity.
  - unfold ulongs_ok. apply andb_true_iff. split; apply N.ltb_lt; assumption.
Qed.

(** ** Indices stay inside the vectors *)

Lemma checked_in_bounds {A : Type} (r : result A) : checked r -> in_bounds r.
Proof. destruct r as [a | []]; cbn; auto. Qed.

Lemma in_bounds_bind {A B : Type} (r : result A) (k : A -> result B) :
  in_bounds r -> (forall a, r = Ok a -> in_bounds (k a)) ->
  in_bounds (bind r k).
Proof. destruct r as [a | e]; cbn; auto. Qed.

Lemma checked_calculatePrior (E : Env) (st : MetropolisHastings) :
  checked (calculatePrior E st).
Proof.
  unfold calculatePrior. destruct (externalPrior_ st); [exact I |].
  apply checked_for_list_r. intros j x.
  destruct (vget PRIOR_MODE_MAX (priorMods_ st) j).
  - apply checked_bind; [| intros; exact I].
    unfold uniformPrior. apply checked_bind; [apply checked_check |].
    intros; exact I.
  - apply checked_bind; [| intros; exact I].
    unfold gaussPrior. apply checked_bind; [apply checked_check |].
    intros; exact I.
  - apply checked_bind; [apply checked_check | intros; exact I].
Qed.

Lemma propose_in_bounds (E : Env) (i blockBegin : Z) (st : MetropolisHastings)
    (w : World) :
  0 <= blockBegin -> blockBegin <= vget 0 (blocks_ st) i <= n_ st ->
  in_bounds (propose E i blockBegin st w).
Proof.
  intros H0 [H1 H2]. unfold propose.
  replace (vget 0 (blocks_ st) i - blockBegin <? 0) with false
    by (symmetry; apply Z.ltb_ge; lia).
  replace ((0 <=? blockBegin) && (vget 0 (blocks_ st) i <=? n_ st)) with true
    by (symmetry; apply andb_true_iff; split; apply Z.leb_le; lia).
  rewrite andb_false_r.
  destruct (externalProposal_ st) as [ext |].
  - apply in_bounds_bind;
      [apply checked_in_bounds, checked_calculatePrior | intros; exact I].
  - destruct (for_range blockBegin (vget 0 (blocks_ st) i) _ _) as [b g].
    apply in_bounds_bind;
      [apply checked_in_bounds, checked_calculatePrior | intros; exact I].
Qed.

Lemma skipn_vget (v : list Z) (k : Z) :
  0 <= k < vector_size v ->
  skipn (Z.to_nat k) v = vget 0 v k :: skipn (Z.to_nat (k + 1)) v.
Proof.
  unfold vector_size, vget. intros Hk.
  replace (Z.to_nat (k + 1)) with (S (Z.to_nat k)) by lia.
  assert (Hlt : (Z.to_nat k < List.length v)%nat) by lia.
  clear Hk. revert v Hlt.
  induction (Z.to_nat k) as [| j IH]; intros [| x v] Hlt; cbn in *;
    try lia; [reflexivity |].
  apply IH. lia.
Qed.

Lemma block_loop_in_bounds (E : Env) (blocks : list Z) (n : Z) :
  (forall i, 0 <= i < vector_size blocks -> vget 0 blocks i <= n) ->
  (forall i, 1 <= i < vector_size blocks ->
     vget 0 blocks (i - 1) <= vget 0 blocks i) ->
  forall (k : nat) (lo from : Z) st w acc,
    Z.of_nat k = vector_size blocks - from -> 0 <= from -> 0 <= lo ->
    (from < vector_size blocks -> lo <= vget 0 blocks from) ->
    (0 < from -> lo = vget 0 blocks (from - 1)) ->
    blocks_ st = blocks -> n_ st = n ->
    in_bounds (for_list_r (Zrange from (vector_size blocks)) (block_step E)
                 (st, w, acc, lo)).
Proof.
  intros Hn Hord. induction k as [| k IH];
    intros lo from st w acc Hk Hfrom Hlo Hnext Hprev Hb Hst.
  - rewrite Zrange_empty by lia. exact I.
  - rewrite Zrange_cons by lia. cbn [for_list_r].
    apply in_bounds_bind.
    + unfold block_step. apply in_bounds_bind.
      * apply propose_in_bounds; [exact Hlo |].
        rewrite Hb, Hst. split; [apply Hnext; lia | apply Hn; lia].
      * intros pr _. destruct (pr_q pr <=? pr_p pr)%float; exact I.
    + intros [[[st1 w1] acc1] lo1] Hstep.
      pose proof (block_step_frame _ _ _ _ _ _ _ _ _ _ Hstep)
        as (_ & _ & Hn1 & Hb1 & _).
      assert (Hlo1 : lo1 = vget 0 blocks from).
      { unfold block_step in Hstep.
        apply bind_Ok in Hstep as (pr & Hpr & Hstep).
        apply propose_inv in Hpr as (_ & _ & _ & _ & Hend & _).
        destruct (pr_q pr <=? pr_p pr)%float; injection Hstep as _ _ _ <-;
          congruence. }
      apply IH; try congruence; try lia.
      * intros Hlt. subst lo1.
        replace from with (from + 1 - 1) at 1 by lia. apply Hord. lia.
      * intros _. subst lo1. f_equal. lia.
Qed.

Lemma sweep_in_bounds (E : Env) (wri : bool) (st : MetropolisHastings)
    (w : World) (acc : list N) :
  (forall i, 0 <= i < vector_size (blocks_ st) ->
     0 <= vget 0 (blocks_ st) i <= n_ st) ->
  (forall i, 1 <= i < vector_size (blocks_ st) ->
     vget 0 (blocks_ st) (i - 1) <= vget 0 (blocks_ st) i) ->
  in_bounds (sweep E wri (st, w, acc)).
Proof.
  intros Hn Hord. unfold sweep. apply in_bounds_bind.
  - unfold for_range_r.
    apply (block_loop_in_bounds E (blocks_ st) (n_ st)
             (fun i Hi => proj2 (Hn i Hi)) Hord
             (Z.to_nat (vector_size (blocks_ st))));
      try reflexivity; try lia.
    + unfold vector_size. lia.
    + intros Hlt. apply Hn. lia.
  - intros [[[st1 w1] acc1] bb] _. apply in_bounds_bind.
    + unfold writeChainElement.
      apply checked_in_bounds, checked_bind; [apply checked_check |].
      intros _. destruct (out_ st1); exact I.
    + intros w2 _.
      match goal with
      | |- in_bounds (if ?c then _ else _) => destruct c; [| exact I]
      end.
      apply in_bounds_bind; [| intros [x y] _; exact I].
      unfold openOut.
      match goal with
      | |- in_bounds (if ?c then _ else _) => destruct c; exact I
      end.
Qed.

Lemma run_start_in_bounds (E : Env) (m : N) (st : MetropolisHastings)
    (w : World) :
  in_bounds (run_start E m st w).
Proof.
  unfold run_start. destruct (readResumeInfo st w) as [[] st1].
  - unfold openOut.
    match goal with
    | |- in_bounds (if ?c then _ else _) => destruct c; exact I
    end.
  - unfold fresh_start. apply in_bounds_bind;
      [apply checked_in_bounds, checked_calculatePrior |].
    intros prior _. unfold openOut.
    match goal with
    | |- in_bounds (if ?c then _ else _) => destruct c; exact I
    end.
Qed.

(** X14: With block boundaries that lie in [0, n] and do not decrease, no read or
    write of a run goes outside a parameter vector and no block has a
    negative size: [run] fails with neither. The partition of the
    constructor and every partition that [specifyParameterBlocks] accepts
    under CHECKS_ON with a first boundary in [0, n] are of this kind. *)
Theorem run_stays_in_bounds (E : Env) (m : N) (wri : bool)
    (st : MetropolisHastings) (w : World) :
  (forall i, 0 <= i < vector_size (blocks_ st) ->
     0 <= vget 0 (blocks_ st) i <= n_ st) ->
  (forall i, 1 <= i < vector_size (blocks_ st) ->
     vget 0 (blocks_ st) (i - 1) <= vget 0 (blocks_ st) i) ->
  run E m wri st w <> Err OutOfBounds
  /\ run E m wri st w <> Err LengthError.
Proof.
  intros Hn Hord.
  assert (Hin : in_bounds (run E m wri st w)).
  { unfold run.
    apply in_bounds_bind; [apply checked_in_bounds, checked_check |].
    intros _ _.
    apply in_bounds_bind; [apply checked_in_bounds, checked_check |].
    intros _ _. apply in_bounds_bind.
    { unfold write_paramnames. destruct (can_open_paramnames E); exact I. }
    intros w0 _. apply in_bounds_bind; [apply run_start_in_bounds |].
    intros [st1 w1] Hstart.
    apply run_start_same_config in Hstart.
    destruct Hstart as (Hn1 & _ & _ & _ & _ & _ & _ & _ & _ & _ & _ & Hb1 & _).
    apply in_bounds_bind; [| intros [[x y] z] _; exact I].
    generalize (repeat 0%N (List.length (blocks_ st1))) as acc.
    generalize (run_fuel st1) as fuel.
    rewrite <- Hn1, <- Hb1 in Hn. rewrite <- Hb1 in Hord. clear Hn1 Hb1.
    revert st1 w1 Hn Hord.
    intros st1 w1 Hn Hord fuel. revert st1 w1 Hn Hord.
    induction fuel as [| fuel IH]; intros st1 w1 Hn Hord acc;
      cbn [run_loop fst];
      (apply in_bounds_bind;
       [destruct (stop_total E st1) as [b ->]; exact I |]);
      intros [] _; try exact I.
    apply in_bounds_bind; [apply sweep_in_bounds; assumption |].
    intros [[x y] z] Hsw.
    apply sweep_same_config in Hsw.
    destruct Hsw as (Hn2 & _ & _ & _ & _ & _ & _ & _ & _ & _ & _ & Hb2 & _).
    apply IH; rewrite ?Hn2, ?Hb2; assumption. }
  split; intros Heq; rewrite Heq in Hin; exact Hin.
Qed.

(** ** Construction and configuration *)

Lemma config_sized_inv (st : MetropolisHastings) :
  config_sized st = true ->
  List.length (param1_ st) = Z.to_nat (n_ st)
  /\ List.length (param2_ st) = Z.to_nat (n_ st)
  /\ List.length (samplingWidth_ st) = Z.to_nat (n_ st)
  /\ List.length (accuracy_ st) = Z.to_nat (n_ st)
  /\ List.length (priorMods_ st) = Z.to_nat (n_ st)
  /\ List.length (paramNames_ st) = Z.to_nat (n_ st).
Proof.
  unfold config_sized. intros H.
  repeat (apply andb_true_iff in H as [H ?]).
  repeat split; apply Nat.eqb_eq; assumption.
Qed.

Lemma config_sized_intro (st : MetropolisHastings) :
  List.length (param1_ st) = Z.to_nat (n_ st) ->
  List.length (param2_ st) = Z.to_nat (n_ st) ->
  List.length (samplingWidth_ st) = Z.to_nat (n_ st) ->
  List.length (accuracy_ st) = Z.to_nat (n_ st) ->
  List.length (priorMods_ st) = Z.to_nat (n_ st) ->
  List.length (paramNames_ st) = Z.to_nat (n_ st) ->
  config_sized st = true.
Proof.
  intros H1 H2 H3 H4 H5 H6. unfold config_sized.
  rewrite H1, H2, H3, H4, H5, H6, !Nat.eqb_refl. reflexivity.
Qed.

Lemma vget_repeat {A : Type} (d x : A) (k : nat) (i : Z) :
  0 <= i < Z.of_nat k -> vget d (repeat x k) i = x.
Proof.
  intros Hi. unfold vget. apply nth_repeat_lt. lia.
Qed.

Lemma constructor_shape (E : Env) (u : Uninitialized) (nPar : Z)
    (like : LikelihoodFunction) (st : MetropolisHastings) :
  MetropolisHastings_new E u nPar like = Ok st ->
  n_ st = nPar /\ sized st = true /\ config_sized st = true
  /\ (forall i, 0 <= i < nPar ->
        vget PRIOR_MODE_MAX (priorMods_ st) i = PRIOR_MODE_MAX)
  /\ externalPrior_ st = None.
Proof.
  unfold MetropolisHastings_new. intros H.
  destruct (nPar <? 0) eqn:Hneg; [discriminate |].
  apply Z.ltb_ge in Hneg.
  apply bind_Ok in H as ([] & _ & H). injection H as <-.
  split; [reflexivity |].
  split; [apply sized_intro; cbn; rewrite ?repeat_length; auto |].
  split; [apply config_sized_intro; cbn; rewrite ?repeat_length; auto |].
  split; [| reflexivity].
  intros i Hi. cbn [priorMods_]. apply vget_repeat. lia.
Qed.

(** X15: The constructor refuses a negative number of parameters, and under
    CHECKS_ON also zero. The engine it builds has all its vectors at size
    [nPar], one block for each parameter, no prior set for any parameter,
    the marker 123456 and a closed chain stream. *)
Theorem constructor_builds (E : Env) (u : Uninitialized) (nPar : Z)
    (like : LikelihoodFunction) :
  (nPar < 0 -> MetropolisHastings_new E u nPar like = Err LengthError)
  /\ (nPar = 0 -> checks_on E = true ->
      MetropolisHastings_new E u nPar like = Err (CheckFailed ""))
  /\ forall st,
       MetropolisHastings_new E u nPar like = Ok st ->
       0 <= nPar /\ n_ st = nPar
       /\ sized st = true /\ config_sized st = true
       /\ blocks_ st = Zrange 1 (nPar + 1)
       /\ (forall i, 0 <= i < nPar ->
             vget 0 (blocks_ st) i = i + 1
             /\ vget PRIOR_MODE_MAX (priorMods_ st) i = PRIOR_MODE_MAX
             /\ vget 0%float (starting_ st) i = DBL_MAX)
       /\ externalPrior_ st = None /\ externalProposal_ st = None
       /\ resumeCode_ st = 123456 /\ out_ st = false.
Proof.
  unfold MetropolisHastings_new. split; [| split].
  - intros H. replace (nPar <? 0) with true by (symmetry; apply Z.ltb_lt; lia).
    reflexivity.
  - intros -> Hon. cbn. unfold check. rewrite Hon. reflexivity.
  - intros st H. destruct (nPar <? 0) eqn:Hneg; [discriminate |].
    apply Z.ltb_ge in Hneg.
    apply bind_Ok in H as ([] & _ & H). injection H as <-.
    cbn [n_ blocks_ priorMods_ starting_ externalPrior_ externalProposal_
         resumeCode_ out_].
    rewrite push_back_loop, app_nil_l.
    split; [exact Hneg |]. split; [reflexivity |].
    split; [apply sized_intro; cbn; rewrite ?repeat_length; auto |].
    split; [apply config_sized_intro; cbn; rewrite ?repeat_length; auto |].
    split; [reflexivity |].
    split; [| repeat split].
    intros i Hi. split; [| split].
    + rewrite vget_Zrange by lia. lia.
    + apply vget_repeat. lia.
    + apply vget_repeat. lia.
Qed.

Lemma vset_config_sized (st : MetropolisHastings) (i : Z) (name : string)
    (a b width acc start : float) (mode : PRIOR_MODE) :
  config_sized st = true ->
  config_sized
    (set_config st
       (vset (paramNames_ st) i name)
       (vset (param1_ st) i a) (vset (param2_ st) i b)
       (vset (priorMods_ st) i mode)
       (vset (starting_ st) i start)
       (vset (samplingWidth_ st) i width)
       (vset (accuracy_ st) i acc)
       (blocks_ st) (externalPrior_ st) (externalProposal_ st)) = true.
Proof.
  intros H. apply config_sized_inv in H as (H1 & H2 & H3 & H4 & H5 & H6).
  apply config_sized_intro; cbn; rewrite vset_length; assumption.
Qed.

Lemma vset_sized (st : MetropolisHastings) (i : Z) (name : string)
    (a b width acc start : float) (mode : PRIOR_MODE) :
  sized st = true ->
  sized
    (set_config st
       (vset (paramNames_ st) i name)
       (vset (param1_ st) i a) (vset (param2_ st) i b)
       (vset (priorMods_ st) i mode)
       (vset (starting_ st) i start)
       (vset (samplingWidth_ st) i width)
       (vset (accuracy_ st) i acc)
       (blocks_ st) (externalPrior_ st) (externalProposal_ st)) = true.
Proof.
  intros H. apply sized_inv in H as (H0 & H1 & H2 & H3 & H4 & H5 & H6).
  apply sized_intro; cbn; rewrite ?vset_length; assumption.
Qed.

Lemma setParam_inv (E : Env) (i : Z) (name : string)
    (min max starting samplingWidth accuracy : float)
    (st st' : MetropolisHastings) :
  setParam E i name min max starting samplingWidth accuracy st = Ok st' ->
  0 <= i < n_ st
  /\ (checks_on E = true ->
      (min <? max)%float = true
      /\ (0 <=? samplingWidth)%float = true
      /\ (0 <=? accuracy)%float = true)
  /\ let start := if (starting =? DBL_MAX)%float then ((max + min) / 2)%float
                  else starting in
     let width := if (samplingWidth =? 0)%float then ((max - min) / 100)%float
                  else samplingWidth in
     let acc := if (accuracy =? 0)%float then (width / 10)%float
                else accuracy in
     st' = set_config st
             (vset (paramNames_ st) i name)
             (vset (param1_ st) i min) (vset (param2_ st) i max)
             (vset (priorMods_ st) i UNIFORM_PRIOR)
             (vset (starting_ st) i start)
             (vset (samplingWidth_ st) i width)
             (vset (accuracy_ st) i acc)
             (blocks_ st) (externalPrior_ st) (externalProposal_ st).
Proof.
  unfold setParam. intros H.
  apply bind_Ok in H as ([] & C1 & H). apply bind_Ok in H as ([] & C2 & H).
  destruct ((0 <=? i) && (i <? n_ st)) eqn:Hi; [| discriminate].
  cbn [negb] in H.
  apply bind_Ok in H as ([] & C3 & H). apply bind_Ok in H as ([] & C4 & H).
  injection H as <-.
  apply andb_true_iff in Hi as [Hi1 Hi2].
  apply Z.leb_le in Hi1. apply Z.ltb_lt in Hi2.
  split; [lia |]. split; [| reflexivity].
  intros Hon. repeat split; eapply check_on_Ok; eassumption.
Qed.

Lemma setParamGauss_inv (E : Env) (i : Z) (name : string)
    (mean sigma starting samplingWidth accuracy : float)
    (st st' : MetropolisHastings) :
  setParamGauss E i name mean sigma starting samplingWidth accuracy st
  = Ok st' ->
  0 <= i < n_ st
  /\ (checks_on E = true ->
      (0 <? sigma)%float = true
      /\ (0 <=? samplingWidth)%float = true
      /\ (0 <=? accuracy)%float = true)
  /\ let start := if (starting =? DBL_MAX)%float then mean else starting in
     let width := if (samplingWidth =? 0)%float then (sigma / 100)%float
                  else samplingWidth in
     let acc := if (accuracy =? 0)%float then (width / 10)%float
                else accuracy in
     st' = set_config st
             (vset (paramNames_ st) i name)
             (vset (param1_ st) i mean) (vset (param2_ st) i sigma)
             (vset (priorMods_ st) i GAUSSIAN_PRIOR)
             (vset (starting_ st) i start)
             (vset (samplingWidth_ st) i width)
             (vset (accuracy_ st) i acc)
             (blocks_ st) (externalPrior_ st) (externalProposal_ st).
Proof.
  unfold setParamGauss. intros H.
  apply bind_Ok in H as ([] & C1 & H). apply bind_Ok in H as ([] & C2 & H).
  destruct ((0 <=? i) && (i <? n_ st)) eqn:Hi; [| discriminate].
  cbn [negb] in H.
  apply bind_Ok in H as ([] & C3 & H). apply bind_Ok in H as ([] & C4 & H).
  injection H as <-.
  apply andb_true_iff in Hi as [Hi1 Hi2].
  apply Z.leb_le in Hi1. apply Z.ltb_lt in Hi2.
  split; [lia |]. split; [| reflexivity].
  intros Hon. repeat split; eapply check_on_Ok; eassumption.
Qed.

Lemma check_pass (E : Env) (c : bool) (msg : string) :
  (checks_on E = true -> c = true) -> check E c msg = Ok tt.
Proof.
  unfold check. destruct (checks_on E); [| reflexivity].
  intros H. rewrite (H eq_refl). reflexivity.
Qed.

Lemma set_config_frame (st : MetropolisHastings) (i : Z) (name : string)
    (a b start width acc : float) (mode : PRIOR_MODE) :
  sized st = true -> config_sized st = true -> 0 <= i < n_ st ->
  let st' :=
    set_config st
      (vset (paramNames_ st) i name)
      (vset (param1_ st) i a) (vset (param2_ st) i b)
      (vset (priorMods_ st) i mode)
      (vset (starting_ st) i start)
      (vset (samplingWidth_ st) i width)
      (vset (accuracy_ st) i acc)
      (blocks_ st) (externalPrior_ st) (externalProposal_ st) in
  (vget EmptyString (paramNames_ st') i = name
   /\ vget PRIOR_MODE_MAX (priorMods_ st') i = mode
   /\ vget 0%float (param1_ st') i = a
   /\ vget 0%float (param2_ st') i = b
   /\ vget 0%float (starting_ st') i = start
   /\ vget 0%float (samplingWidth_ st') i = width
   /\ vget 0%float (accuracy_ st') i = acc)
  /\ forall j, 0 <= j -> j <> i ->
       vget EmptyString (paramNames_ st') j
       = vget EmptyString (paramNames_ st) j
       /\ vget PRIOR_MODE_MAX (priorMods_ st') j
          = vget PRIOR_MODE_MAX (priorMods_ st) j
       /\ vget 0%float (param1_ st') j = vget 0%float (param1_ st) j
       /\ vget 0%float (param2_ st') j = vget 0%float (param2_ st) j
       /\ vget 0%float (starting_ st') j = vget 0%float (starting_ st) j
       /\ vget 0%float (samplingWidth_ st') j
          = vget 0%float (samplingWidth_ st) j
       /\ vget 0%float (accuracy_ st') j = vget 0%float (accuracy_ st) j.
Proof.
  intros Hs Hc Hi. cbv zeta.
  pose proof (sized_inv _ Hs) as (_ & L0 & _).
  pose proof (config_sized_inv _ Hc) as (L1 & L2 & L3 & L4 & L5 & L6).
  cbn [paramNames_ priorMods_ param1_ param2_ starting_ samplingWidth_
       accuracy_ set_config].
  split.
  - rewrite !vget_vset_eq by (unfold vector_size; lia).
    repeat split; reflexivity.
  - intros j Hj Hne. rewrite !vget_vset_neq by assumption.
    repeat split; reflexivity.
Qed.

(** X16: [setParam] on an engine whose vectors have [n] entries. It returns
    exactly when the index is below [n] and, under CHECKS_ON, [min < max] and
    neither the sampling width nor the accuracy is negative or NaN. A call
    that returns has set the seven entries of parameter [i]: the name, a
    uniform prior on [min, max], the starting point (the one given, or the
    midpoint when it is the largest double), the sampling width (the one
    given, or a hundredth of the range when it is 0) and the accuracy (the
    one given, or a tenth of the stored sampling width when it is 0). The
    seven entries of every other parameter are what they were, and so are
    the sizes, the blocks, the external prior and proposal and the sampler
    state. *)
Theorem setParam_sets_one_parameter (E : Env) (i : Z) (name : string)
    (min max starting samplingWidth accuracy : float)
    (st : MetropolisHastings) :
  sized st = true -> config_sized st = true ->
  ((exists st',
      setParam E i name min max starting samplingWidth accuracy st = Ok st')
   <-> 0 <= i < n_ st
       /\ (checks_on E = true ->
           (min <? max)%float = true
           /\ (0 <=? samplingWidth)%float = true
           /\ (0 <=? accuracy)%float = true))
  /\ forall st',
       setParam E i name min max starting samplingWidth accuracy st = Ok st' ->
       (vget EmptyString (paramNames_ st') i = name
        /\ vget PRIOR_MODE_MAX (priorMods_ st') i = UNIFORM_PRIOR
        /\ vget 0%float (param1_ st') i = min
        /\ vget 0%float (param2_ st') i = max
        /\ vget 0%float (starting_ st') i
           = (if (starting =? DBL_MAX)%float then ((max + min) / 2)%float
              else starting)
        /\ vget 0%float (samplingWidth_ st') i
           = (if (samplingWidth =? 0)%float then ((max - min) / 100)%float
              else samplingWidth)
        /\ vget 0%float (accuracy_ st') i
           = (if (accuracy =? 0)%float
              then (vget 0 (samplingWidth_ st') i / 10)%float else accuracy))
       /\ (forall j, 0 <= j -> j <> i ->
             vget EmptyString (paramNames_ st') j
             = vget EmptyString (paramNames_ st) j
             /\ vget PRIOR_MODE_MAX (priorMods_ st') j
                = vget PRIOR_MODE_MAX (priorMods_ st) j
             /\ vget 0%float (param1_ st') j = vget 0%float (param1_ st) j
             /\ vget 0%float (param2_ st') j = vget 0%float (param2_ st) j
             /\ vget 0%float (starting_ st') j
                = vget 0%float (starting_ st) j
             /\ vget 0%float (samplingWidth_ st') j
                = vget 0%float (samplingWidth_ st) j
             /\ vget 0%float (accuracy_ st') j
                = vget 0%float (accuracy_ st) j)
       /\ sized st' = true /\ config_sized st' = true
       /\ n_ st' = n_ st /\ blocks_ st' = blocks_ st
       /\ externalPrior_ st' = externalPrior_ st
       /\ externalProposal_ st' = externalProposal_ st
       /\ sampler_state st' = sampler_state st.
Proof.
  intros Hs Hc. split.
  - split.
    + intros [st' H]. apply setParam_inv in H as (Hi & Hchk & _). auto.
    + intros [Hi Hchk]. unfold setParam.
      replace ((0 <=? i) && (i <? n_ st)) with true
        by (symmetry; apply andb_true_iff;
            split; [apply Z.leb_le | apply Z.ltb_lt]; lia).
      rewrite check_true. cbn [bind negb].
      rewrite !check_pass by (intros Hon; apply Hchk; exact Hon).
      cbn [bind]. eauto.
  - intros st' H. apply setParam_inv in H as (Hi & _ & ->).
    match goal with
    | |- context [set_config st _ _ _ _ (vset _ _ ?s) (vset _ _ ?wd)
                    (vset _ _ ?ac) _ _ _] =>
        destruct (set_config_frame st i name min max s wd ac UNIFORM_PRIOR
                    Hs Hc Hi) as [Hat Hother]
    end.
    cbv zeta in Hat, Hother.
    destruct Hat as (A1 & A2 & A3 & A4 & A5 & A6 & A7).
    split.
    { rewrite A6. repeat split; assumption. }
    split; [exact Hother |].
    split; [apply vset_sized; exact Hs |].
    split; [apply vset_config_sized; exact Hc |].
    repeat split; reflexivity.
Qed.

(** X17: [setParamGauss] on an engine whose vectors have [n] entries. It
    returns exactly when the index is below [n] and, under CHECKS_ON,
    [sigma > 0] and neither the sampling width nor the accuracy is negative
    or NaN. A call that returns has set the seven entries of parameter [i]:
    the name, a Gaussian prior with the given mean and sigma, the starting
    point (the one given, or the mean when it is the largest double), the
    sampling width (the one given, or a hundredth of sigma when it is 0) and
    the accuracy (the one given, or a tenth of the stored sampling width
    when it is 0). The seven entries of every other parameter are what they
    were, and so are the sizes, the blocks, the external prior and proposal
    and the sampler state. *)
Theorem setParamGauss_sets_one_parameter (E : Env) (i : Z) (name : string)
    (mean sigma starting samplingWidth accuracy : float)
    (st : MetropolisHastings) :
  sized st = true -> config_sized st = true ->
  ((exists st',
      setParamGauss E i name mean sigma starting samplingWidth accuracy st
      = Ok st')
   <-> 0 <= i < n_ st
       /\ (checks_on E = true ->
           (0 <? sigma)%float = true
           /\ (0 <=? samplingWidth)%float = true
           /\ (0 <=? accuracy)%float = true))
  /\ forall st',
       setParamGauss E i name mean sigma starting samplingWidth accuracy st
       = Ok st' ->
       (vget EmptyString (paramNames_ st') i = name
        /\ vget PRIOR_MODE_MAX (priorMods_ st') i = GAUSSIAN_PRIOR
        /\ vget 0%float (param1_ st') i = mean
        /\ vget 0%float (param2_ st') i = sigma
        /\ vget 0%float (starting_ st') i
           = (if (starting =? DBL_MAX)%float then mean else starting)
        /\ vget 0%float (samplingWidth_ st') i
           = (if (samplingWidth =? 0)%float then (sigma / 100)%float
              else samplingWidth)
        /\ vget 0%float (accuracy_ st') i
           = (if (accuracy =? 0)%float
              then (vget 0 (samplingWidth_ st') i / 10)%float else accuracy))
       /\ (forall j, 0 <= j -> j <> i ->
             vget EmptyString (paramNames_ st') j
             = vget EmptyString (paramNames_ st) j
             /\ vget PRIOR_MODE_MAX (priorMods_ st') j
                = vget PRIOR_MODE_MAX (priorMods_ st) j
             /\ vget 0%float (param1_ st') j = vget 0%float (param1_ st) j
             /\ vget 0%float (param2_ st') j = vget 0%float (param2_ st) j
             /\ vget 0%float (starting_ st') j
                = vget 0%float (starting_ st) j
             /\ vget 0%float (samplingWidth_ st') j
                = vget 0%float (samplingWidth_ st) j
             /\ vget 0%float (accuracy_ st') j
                = vget 0%float (accuracy_ st) j)
       /\ sized st' = true /\ config_sized st' = true
       /\ n_ st' = n_ st /\ blocks_ st' = blocks_ st
       /\ externalPrior_ st' = externalPrior_ st
       /\ externalProposal_ st' = externalProposal_ st
       /\ sampler_state st' = sampler_state st.
Proof.
  intros Hs Hc. split.
  - split.
    + intros [st' H]. apply setParamGauss_inv in H as (Hi & Hchk & _). auto.
    + intros [Hi Hchk]. unfold setParamGauss.
      replace ((0 <=? i) && (i <? n_ st)) with true
        by (symmetry; apply andb_true_iff;
            split; [apply Z.leb_le | apply Z.ltb_lt]; lia).
      rewrite check_true. cbn [bind negb].
      rewrite !check_pass by (intros Hon; apply Hchk; exact Hon).
      cbn [bind]. eauto.
  - intros st' H. apply setParamGauss_inv in H as (Hi & _ & ->).
    match goal with
    | |- context [set_config st _ _ _ _ (vset _ _ ?s) (vset _ _ ?wd)
                    (vset _ _ ?ac) _ _ _] =>
        destruct (set_config_frame st i name mean sigma s wd ac GAUSSIAN_PRIOR
                    Hs Hc Hi) as [Hat Hother]
    end.
    cbv zeta in Hat, Hother.
    destruct Hat as (A1 & A2 & A3 & A4 & A5 & A6 & A7).
    split.
    { rewrite A6. repeat split; assumption. }
    split; [exact Hother |].
    split; [apply vset_sized; exact Hs |].
    split; [apply vset_config_sized; exact Hc |].
    repeat split; reflexivity.
Qed.

(** ** When the prior can be evaluated *)

Lemma check_on (E : Env) (c : bool) (msg : string) :
  checks_on E = true ->
  check E c msg = if c then Ok tt else Err (CheckFailed msg).
Proof. unfold check. intros ->. destruct c; reflexivity. Qed.

Lemma check_off (E : Env) (c : bool) (msg : string) :
  checks_on E = false -> check E c msg = Ok tt.
Proof. unfold check. intros ->. reflexivity. Qed.

Lemma for_list_r_all {S : Type} (idx : list Z) (body : Z -> S -> result S)
    (s : S) :
  (forall j x, In j idx -> exists y, body j x = Ok y) ->
  exists s', for_list_r idx body s = Ok s'.
Proof.
  revert s. induction idx as [| j rest IH]; intros s H; cbn [for_list_r].
  - eauto.
  - destruct (H j s (or_introl eq_refl)) as [y ->]. cbn [bind].
    apply IH. intros k x Hk. apply H. now right.
Qed.

Lemma for_list_r_each {S : Type} (idx : list Z) (body : Z -> S -> result S)
    (s s' : S) :
  for_list_r idx body s = Ok s' ->
  forall j, In j idx -> exists x y, body j x = Ok y.
Proof.
  revert s. induction idx as [| k rest IH]; intros s H j Hj;
    cbn [for_list_r] in H; [contradiction |].
  apply bind_Ok in H as (y & Hy & H).
  destruct Hj as [-> | Hj]; [eauto |]. eapply IH; eassumption.
Qed.

Lemma prior_term_defined (E : Env) (st : MetropolisHastings) (i : Z)
    (x : float) :
  checks_on E = true ->
  (exists y,
     match vget PRIOR_MODE_MAX (priorMods_ st) i with
     | UNIFORM_PRIOR =>
         u <- uniformPrior E (vget 0%float (param1_ st) i)
                (vget 0%float (param2_ st) i)
                (vget 0%float (current_ st) i) ;;
         Ok (x * u)%float
     | GAUSSIAN_PRIOR =>
         g <- gaussPrior E (vget 0%float (param1_ st) i)
                (vget 0%float (param2_ st) i)
                (vget 0%float (current_ st) i) ;;
         Ok (x * g)%float
     | PRIOR_MODE_MAX =>
         check E false "invalid prior mode" ;;; Ok x
     end = Ok y)
  <-> prior_set st i = true.
Proof.
  intros Hon. unfold prior_set, uniformPrior, gaussPrior.
  destruct (vget PRIOR_MODE_MAX (priorMods_ st) i);
    rewrite (check_on E _ _ Hon);
    match goal with
    | |- context [if ?c then Ok tt else _] => destruct c
    | _ => idtac
    end; cbn [bind]; split; intros H; eauto; try discriminate;
    destruct H as [y H]; discriminate.
Qed.

Lemma calculatePrior_defined (E : Env) (st : MetropolisHastings) :
  externalPrior_ st = None -> checks_on E = true ->
  (exists p, calculatePrior E st = Ok p)
  <-> forall i, 0 <= i < n_ st -> prior_set st i = true.
Proof.
  intros Hext Hon. unfold calculatePrior. rewrite Hext. unfold for_range_r.
  split.
  - intros [p Hp] i Hi.
    destruct (for_list_r_each _ _ _ _ Hp i (proj2 (Zrange_In 0 _ i) Hi))
      as (x & y & Hxy).
    apply (prior_term_defined E st i x Hon). eauto.
  - intros Hall. apply for_list_r_all. intros j x Hj.
    apply (prior_term_defined E st j x Hon). apply Hall.
    apply Zrange_In. exact Hj.
Qed.

(** X18: Under CHECKS_ON and without an external prior, [calculatePrior] returns
    a value exactly when every parameter has had its prior set, uniform with
    [min < max] or Gaussian with [sigma > 0]; one parameter left as the
    constructor made it makes it fail its check. Without CHECKS_ON it
    always returns a value. *)
Theorem calculatePrior_needs_every_parameter (E : Env)
    (st : MetropolisHastings) :
  externalPrior_ st = None ->
  (checks_on E = true ->
   ((exists p, calculatePrior E st = Ok p)
    <-> forall i, 0 <= i < n_ st -> prior_set st i = true)
   /\ ((exists i, 0 <= i < n_ st /\ prior_set st i = false) ->
       exists msg, calculatePrior E st = Err (CheckFailed msg)))
  /\ (checks_on E = false -> exists p, calculatePrior E st = Ok p).
Proof.
  intros Hext. split.
  - intros Hon. pose proof (calculatePrior_defined E st Hext Hon) as Hiff.
    split; [exact Hiff |].
    intros (i & Hi & Hbad).
    pose proof (checked_calculatePrior E st) as Hchk.
    destruct (calculatePrior E st) as [p | e] eqn:Hr.
    + exfalso. destruct Hiff as [Hiff _].
      rewrite (Hiff (ex_intro _ p eq_refl) i Hi) in Hbad. discriminate.
    + destruct e; try contradiction. eauto.
  - intros Hoff. unfold calculatePrior. rewrite Hext. unfold for_range_r.
    apply for_list_r_all. intros j x _.
    unfold uniformPrior, gaussPrior.
    destruct (vget PRIOR_MODE_MAX (priorMods_ st) j);
      rewrite (check_off E _ _ Hoff); cbn [bind]; eauto.
Qed.

(** ** The stopping rule and the accuracies *)

Lemma SFleb_SFltb_trans (a b s : spec_float) :
  SFleb a b = true -> SFltb b s = true -> SFltb a s = true.
Proof.
  unfold SFleb, SFltb, SFcompare.
  destruct a as [sa | sa | | sa ma ea], b as [sb | sb | | sb mb eb],
    s as [ss | ss | | ss ms es];
    try destruct sa; try destruct sb; try destruct ss;
    try discriminate; try reflexivity;
    repeat match goal with
      | |- context [Z.compare ?x ?y] => destruct (Z.compare_spec x y)
      end;
    repeat match goal with
      | |- context [Pos.compare_cont Eq ?x ?y] =>
          change (Pos.compare_cont Eq x y) with (Pos.compare x y);
          destruct (Pos.compare_spec x y)
      end;
    cbn; try discriminate; try reflexivity; intros; exfalso; lia.
Qed.

Lemma leb_ltb_trans (a b s : float) :
  (a <=? b)%float = true -> (b <? s)%float = true -> (a <? s)%float = true.
Proof.
  rewrite leb_spec, !ltb_spec. apply SFleb_SFltb_trans.
Qed.

Lemma stop_stdMean_accuracy (st : MetropolisHastings) (accuracy : list float)
    (i : Z) :
  stop_stdMean (set_accuracy_ st accuracy) i = stop_stdMean st i.
Proof. reflexivity. Qed.

(** X19: Loosening the accuracies never delays the stop: when [stop] says that
    the chain is done, it says so too for requested accuracies that are at
    least as large, parameter by parameter. *)
Theorem stop_monotone_in_accuracy (E : Env) (st : MetropolisHastings)
    (accuracy : list float) :
  (forall i, 0 <= i < n_ st ->
     (vget 0 (accuracy_ st) i <=? vget 0 accuracy i)%float = true) ->
  stop E st = Ok true ->
  stop E (set_accuracy_ st accuracy) = Ok true.
Proof.
  intros Hle H. unfold stop in *.
  cbn [iteration_ maxChainLength_ n_ set_accuracy_ set_config].
  destruct (check E (0 <=? iteration_ st)%N ""); [| discriminate].
  cbn [bind] in *.
  destruct (iteration_ st <? 100)%N; [discriminate |].
  destruct (maxChainLength_ st <=? iteration_ st)%N; [reflexivity |].
  injection H as H. f_equal.
  apply stop_loop_spec. intros i Hi.
  rewrite stop_stdMean_accuracy.
  cbn [accuracy_ set_accuracy_ set_config].
  pose proof (proj1 (stop_loop_spec st (Zrange 0 (n_ st))) H i Hi) as Hold.
  apply Zrange_In in Hi.
  destruct (vget 0 accuracy i <? stop_stdMean st i)%float eqn:Hnew;
    [| reflexivity].
  rewrite (leb_ltb_trans _ _ _ (Hle i Hi) Hnew) in Hold. discriminate.
Qed.

(** ** External proposals *)

(** The loop that copies the block [lo .. lo+k-1] out of a rule for its
    entries. *)
Lemma copy_loop (f : Z -> float) (lo : Z) (k : nat) (block0 : list float) :
  (k <= List.length block0)%nat ->
  let r := for_range lo (lo + Z.of_nat k)
             (fun j b => vset b (j - lo) (f j)) block0 in
  List.length r = List.length block0
  /\ forall t, 0 <= t < Z.of_nat k -> vget 0%float r t = f (lo + t).
Proof.
  cbv zeta. induction k as [| k IH]; intros Hk.
  - rewrite for_range_nil by lia. split; [reflexivity |]. intros t Ht. lia.
  - replace (lo + Z.of_nat (S k)) with (lo + Z.of_nat k + 1) by lia.
    rewrite for_range_snoc by lia.
    destruct IH as (IHlen & IHget); [lia |].
    split; [now rewrite vset_length |].
    intros t Ht.
    replace (lo + Z.of_nat k - lo) with (Z.of_nat k) by lia.
    destruct (Z.eq_dec t (Z.of_nat k)) as [-> | Hne].
    + rewrite vget_vset_eq by (unfold vector_size; lia). reflexivity.
    + rewrite vget_vset_neq by lia. apply IHget. lia.
Qed.

(** X20: With an external proposal the block comes from one call of its
    [generate] on the current point, and no draw is taken from the engine's
    own generator. The acceptance ratio is the one of the built-in proposal
    when the external one calls itself symmetric for the block; otherwise
    it is multiplied by the proposal density of the old block seen from the
    new point and divided by that of the new block seen from the old point. *)
Theorem external_proposal_ratio (E : Env) (i blockBegin : Z)
    (st : MetropolisHastings) (w : World) (pr : proposal)
    (ext : ProposalFunctionBase) :
  propose E i blockBegin st w = Ok pr ->
  externalProposal_ st = Some ext ->
  let size := Z.to_nat (pr_blockEnd pr - blockBegin) in
  let base := (pr_newPrior pr / currentPrior_ st
               * std_exp E (- (pr_newLike pr - currentLike_ st) / 2))%float in
  pr_block pr
  = generate ext (proposal_calls st) (current_ st) (n_ st)
      (repeat 0%float size) i
  /\ pr_generator_calls pr = generator_calls st
  /\ pr_proposal_calls pr = S (proposal_calls st)
  /\ exists oldBlock,
       List.length oldBlock = size
       /\ (forall t, 0 <= t < pr_blockEnd pr - blockBegin ->
             vget 0%float oldBlock t = vget 0%float (current_ st) (blockBegin + t))
       /\ pr_ratio pr
          = if isSymmetric ext i then base
            else (base * calculate ext (pr_current pr) (n_ st) oldBlock i
                  / calculate ext (current_ st) (n_ st) (pr_block pr) i)%float.
Proof.
  intros H Hext. cbv zeta. unfold propose in H.
  destruct (vget 0 (blocks_ st) i - blockBegin <? 0) eqn:Hneg; [discriminate |].
  apply Z.ltb_ge in Hneg.
  destruct ((blockBegin <? vget 0 (blocks_ st) i)
            && negb ((0 <=? blockBegin) && (vget 0 (blocks_ st) i <=? n_ st)));
    [discriminate |].
  rewrite Hext in H.
  apply bind_Ok in H as (newPrior & _ & H). injection H as <-.
  cbn [pr_block pr_blockEnd pr_generator_calls pr_proposal_calls pr_ratio
       pr_newPrior pr_newLike pr_current].
  split; [reflexivity |]. split; [reflexivity |]. split; [reflexivity |].
  set (be := vget 0 (blocks_ st) i) in *.
  set (k := Z.to_nat (be - blockBegin)).
  destruct (copy_loop (fun j => vget 0%float (current_ st) j) blockBegin k
              (repeat 0%float k)) as [Hl Hg];
    [rewrite repeat_length; lia |].
  replace (blockBegin + Z.of_nat k) with be in Hl, Hg by (subst k; lia).
  exists (for_range blockBegin be
            (fun j b => vset b (j - blockBegin) (vget 0%float (current_ st) j))
            (repeat 0%float k)).
  split; [| split].
  - rewrite Hl. apply repeat_length.
  - intros t Ht. apply Hg. subst k. lia.
  - destruct (isSymmetric ext i); reflexivity.
Qed.

(** ** Random numbers drawn *)

Lemma block_loop_rand (E : Env) (idx : list Z) :
  forall st w acc bb st' w' acc' bb',
    for_list_r idx (block_step E) (st, w, acc, bb) = Ok (st', w', acc', bb') ->
    rand_calls w' = (rand_calls w + List.length idx)%nat.
Proof.
  induction idx as [| j rest IH]; intros st w acc bb st' w' acc' bb' H;
    cbn [for_list_r] in H.
  - injection H as <- <- <- <-. cbn. lia.
  - apply bind_Ok in H as ([[[st1 w1] acc1] bb1] & Hstep & H).
    apply IH in H. rewrite H. cbn [List.length].
    unfold block_step in Hstep. apply bind_Ok in Hstep as (pr & _ & Hstep).
    destruct (pr_q pr <=? pr_p pr)%float; injection Hstep as <- <- <- <-;
      cbn; lia.
Qed.

Lemma sweep_rand (E : Env) (wri : bool) (st st' : MetropolisHastings)
    (w w' : World) (acc acc' : list N) :
  sweep E wri (st, w, acc) = Ok (st', w', acc') ->
  rand_calls w' = (rand_calls w + List.length (blocks_ st))%nat.
Proof.
  intros H. apply sweep_struct in H as (st1 & w1 & bb & w2 & Hloop & Hw2 & H).
  unfold for_range_r in Hloop. apply block_loop_rand in Hloop.
  rewrite Zrange_length in Hloop. unfold vector_size in Hloop.
  rewrite Z.sub_0_r, Nat2Z.id in Hloop.
  assert (H2 : rand_calls w2 = rand_calls w1).
  { unfold writeChainElement in Hw2.
    destruct (check E (out_ st1) ""); [| discriminate]. cbn in Hw2.
    destruct (out_ st1); injection Hw2 as <-; reflexivity. }
  cbv zeta in H.
  assert (H3 : forall x,
    rand_calls (if wri then writeResumeInfo E x w2 else w2) = rand_calls w2).
  { intros x. unfold writeResumeInfo.
    destruct wri, (can_open_resume E); reflexivity. }
  destruct H as [[_ ->] | [_ ->]]; cbn [rand_calls set_chain_txt];
    rewrite H3; congruence.
Qed.

(** X21: A run takes one number from [std::rand] for every block update, accepted
    or not: the number of blocks times the number of sweeps it made. *)
Theorem run_random_draws (E : Env) (m : N) (wri : bool)
    (st st' : MetropolisHastings) (w w' : World) (acc' : list N) :
  run E m wri st w = Ok (st', w', acc') ->
  (m < ULONG_MOD)%N ->
  let first := if fst (readResumeInfo st w)
               then iteration_ (snd (readResumeInfo st w)) else 0%N in
  rand_calls w'
  = (rand_calls w
     + List.length (blocks_ st) * N.to_nat (iteration_ st' - first))%nat.
Proof.
  intros H Hm. cbv zeta.
  pose proof (run_struct _ _ _ _ _ _ _ _ H)
    as (_ & _ & _ & w0 & st1 & w1 & st2 & Hw0 & Hstart & Hloop & Hst').
  pose proof (write_paramnames_inv _ _ _ _ Hw0) as [Hr0 _].
  pose proof (readResumeInfo_world st w w0 Hr0) as Hread.
  assert (Hk0 : rand_calls w0 = rand_calls w).
  { unfold write_paramnames in Hw0.
    destruct (can_open_paramnames E); [| discriminate].
    injection Hw0 as <-. reflexivity. }
  pose proof (run_start_same_config _ _ _ _ _ _ Hstart) as Hcfg.
  destruct Hcfg as (_ & _ & _ & _ & _ & _ & _ & _ & _ & _ & _ & Hb & _).
  apply run_start_effect in Hstart
    as (_ & _ & _ & _ & _ & Hk1 & _ & _ & Hres & Hfresh).
  rewrite Hread in Hres, Hfresh.
  assert (Hit1 : iteration_ st1
                 = if fst (readResumeInfo st w)
                   then iteration_ (snd (readResumeInfo st w)) else 0%N).
  { destruct (fst (readResumeInfo st w)).
    - rewrite Hres by reflexivity. reflexivity.
    - apply Hfresh. reflexivity. }
  assert (Hmax1 : (maxChainLength_ st1 < ULONG_MOD)%N).
  { destruct (fst (readResumeInfo st w)) eqn:Hresumed.
    - rewrite Hres by reflexivity.
      pose proof (readResumeInfo_ulongs st w
                    (readResumeInfo_true_file st w Hresumed)) as Hu.
      apply ulongs_ok_inv in Hu. apply Hu.
    - destruct Hfresh as [_ ->]; [reflexivity | exact Hm]. }
  rewrite <- Hit1, Hst'.
  change (iteration_ (closeOut st2)) with (iteration_ st2).
  rewrite <- Hk0, <- Hk1, <- Hb.
  apply (run_loop_inv E wri
    (fun x : run_state =>
       let '(sx, wx, ax) := x in
       blocks_ sx = blocks_ st1
       /\ maxChainLength_ sx = maxChainLength_ st1
       /\ (iteration_ st1 <= iteration_ sx)%N
       /\ rand_calls wx
          = (rand_calls w1
             + List.length (blocks_ st1)
               * N.to_nat (iteration_ sx - iteration_ st1))%nat)) in Hloop.
  - apply Hloop.
  - intros [[sx wx] ax] [[sy wy] ay] (I1 & I2 & I3 & I4) Hstop Hsw.
    cbn [fst] in Hstop.
    destruct (stop_false_incr E sx Hstop) as [Hincr _]; [congruence |].
    pose proof (sweep_rand _ _ _ _ _ _ _ _ Hsw) as Hr.
    apply sweep_inv in Hsw as (_ & _ & _ & _ & _ & _ & Hit & Hmx & _ & Hbl & _).
    rewrite Hincr in Hit.
    split; [congruence |]. split; [congruence |]. split; [lia |].
    rewrite Hr, I4, I1, Hit.
    replace (N.to_nat (iteration_ sx + 1 - iteration_ st1))
      with (S (N.to_nat (iteration_ sx - iteration_ st1))) by lia.
    lia.
  - split; [reflexivity |]. split; [reflexivity |]. split; [lia |].
    rewrite N.sub_diag. cbn. lia.
Qed.

(** ** A first boundary outside the parameters *)





(** ** Numbers drawn from the generator *)

Lemma block_step_draws (E : Env) (i : Z) (st st' : MetropolisHastings)
    (w w' : World) (acc acc' : list N) (bb bb' : Z) :
  block_step E i (st, w, acc, bb) = Ok (st', w', acc', bb') ->
  bb <= bb' /\ bb' = vget 0 (blocks_ st) i
  /\ match externalProposal_ st with
     | None =>
         generator_calls st' = (generator_calls st + Z.to_nat (bb' - bb))%nat
         /\ proposal_calls st' = proposal_calls st
     | Some _ =>
         generator_calls st' = generator_calls st
         /\ proposal_calls st' = S (proposal_calls st)
     end.
Proof.
  intros H. unfold block_step in H. apply bind_Ok in H as (pr & Hpr & H).
  pose proof (propose_guard E i bb st w pr Hpr) as (Hle & _ & _ & Hblock).
  pose proof (propose_inv E i bb st w pr Hpr) as (_ & _ & _ & _ & Hend & _).
  assert (Hcalls :
    match externalProposal_ st with
    | None =>
        pr_generator_calls pr
        = (generator_calls st + Z.to_nat (pr_blockEnd pr - bb))%nat
        /\ pr_proposal_calls pr = proposal_calls st
    | Some _ =>
        pr_generator_calls pr = generator_calls st
        /\ pr_proposal_calls pr = S (proposal_calls st)
    end).
  { clear H. unfold propose in Hpr.
    destruct (vget 0 (blocks_ st) i - bb <? 0); [discriminate |].
    destruct ((bb <? vget 0 (blocks_ st) i)
              && negb ((0 <=? bb) && (vget 0 (blocks_ st) i <=? n_ st)));
      [discriminate |].
    destruct (externalProposal_ st) as [ext |].
    - apply bind_Ok in Hpr as (newPrior & _ & Hpr). injection Hpr as <-.
      cbn. auto.
    - specialize (Hblock eq_refl).
      set (k := Z.to_nat (pr_blockEnd pr - bb)) in *.
      replace (pr_blockEnd pr) with (bb + Z.of_nat k) in Hblock at 1
        by (subst k; lia).
      destruct (draw_loop (generateNewPoint E st) bb (generator_calls st) k
                  (repeat 0%float k)) as (Dg & _);
        [rewrite repeat_length; lia |].
      cbv zeta in Dg. rewrite <- Hblock in Dg. cbn [snd] in Dg.
      split; [exact Dg |].
      destruct (for_range bb (vget 0 (blocks_ st) i) _ _) as [b g].
      apply bind_Ok in Hpr as (newPrior & _ & Hpr). injection Hpr as <-.
      reflexivity. }
  destruct (pr_q pr <=? pr_p pr)%float; injection H as <- <- <- <-;
    cbn [generator_calls proposal_calls set_calls set_currentPrior_
         set_currentLike_ set_current_ set_sampler];
    (split; [exact Hle |]); (split; [exact Hend |]); exact Hcalls.
Qed.

Lemma block_loop_draws (E : Env) (blocks : list Z) (ext : bool) :
  forall (k : nat) (from lo : Z) st w acc st' w' acc' lo',
    Z.of_nat k = vector_size blocks - from -> 0 <= from -> 0 <= lo ->
    blocks_ st = blocks ->
    (if ext then externalProposal_ st <> None else externalProposal_ st = None) ->
    for_list_r (Zrange from (vector_size blocks)) (block_step E)
      (st, w, acc, lo) = Ok (st', w', acc', lo') ->
    lo <= lo'
    /\ ((0 < k)%nat -> lo' = vget 0 blocks (vector_size blocks - 1))
    /\ (k = 0%nat -> lo' = lo)
    /\ if ext
       then generator_calls st' = generator_calls st
            /\ proposal_calls st' = (proposal_calls st + k)%nat
       else generator_calls st' = (generator_calls st + Z.to_nat (lo' - lo))%nat
            /\ proposal_calls st' = proposal_calls st.
Proof.
  induction k as [| k IH];
    intros from lo st w acc st' w' acc' lo' Hk Hfrom Hlo Hb Hext H.
  - rewrite Zrange_empty in H by lia. injection H as <- <- <- <-.
    split; [lia |]. split; [lia |]. split; [reflexivity |].
    destruct ext; split; try reflexivity; try lia.
  - rewrite Zrange_cons in H by lia. cbn [for_list_r] in H.
    apply bind_Ok in H as ([[[st1 w1] acc1] lo1] & Hstep & H).
    pose proof (block_step_same_config _ _ _ _ _ _ _ _ _ _ Hstep) as Hcfg.
    destruct Hcfg as (_ & _ & _ & _ & _ & _ & _ & _ & _ & _ & Hx & Hb1 & _).
    pose proof (block_step_draws _ _ _ _ _ _ _ _ _ _ Hstep)
      as (Hle & Hend & Hcalls).
    apply (IH (from + 1) lo1) in H; try lia; try congruence;
      [| destruct ext; congruence].
    destruct H as (Hle' & Hlast & Hsame & Hrest).
    split; [lia |].
    split.
    { intros _. destruct k as [| k'].
      - rewrite Hsame by reflexivity. rewrite Hend, Hb. f_equal. lia.
      - apply Hlast. lia. }
    split; [lia |].
    destruct ext.
    + destruct (externalProposal_ st); [| contradiction].
      destruct Hcalls as [C1 C2]. destruct Hrest as [R1 R2].
      split; [congruence | lia].
    + rewrite Hext in Hcalls.
      destruct Hcalls as [C1 C2]. destruct Hrest as [R1 R2].
      split; [| congruence]. rewrite R1, C1. lia.
Qed.

Lemma nth_pred_last {A : Type} (d : A) (v : list A) :
  nth (List.length v - 1) v d = last v d.
Proof.
  induction v as [| a v IH]; [reflexivity |].
  destruct v as [| b r]; [reflexivity |].
  change (last (a :: b :: r) d) with (last (b :: r) d). rewrite <- IH.
  cbn [List.length].
  replace (S (S (List.length r)) - 1)%nat with (S (List.length r)) by lia.
  cbn [nth].
  replace (S (List.length r) - 1)%nat with (List.length r) by lia.
  reflexivity.
Qed.

Lemma vget_last (v : list Z) : vget 0 v (vector_size v - 1) = last v 0.
Proof.
  unfold vget, vector_size.
  replace (Z.to_nat (Z.of_nat (List.length v) - 1))
    with (List.length v - 1)%nat by lia.
  apply nth_pred_last.
Qed.

(** X23: With the built-in proposal a sweep takes from the Gaussian generator as
    many numbers as the last block boundary says, one for each parameter of
    a partition that ends at [n]; with an external proposal it takes none
    and calls [generate] once for each block. *)
Theorem sweep_generator_draws (E : Env) (wri : bool)
    (st st' : MetropolisHastings) (w w' : World) (acc acc' : list N) :
  sweep E wri (st, w, acc) = Ok (st', w', acc') ->
  match externalProposal_ st with
  | None =>
      generator_calls st'
      = (generator_calls st + Z.to_nat (last (blocks_ st) 0%Z))%nat
      /\ proposal_calls st' = proposal_calls st
  | Some _ =>
      generator_calls st' = generator_calls st
      /\ proposal_calls st'
         = (proposal_calls st + List.length (blocks_ st))%nat
  end.
Proof.
  intros H. apply sweep_struct in H as (st1 & w1 & bb & w2 & Hloop & _ & H).
  unfold for_range_r in Hloop.
  assert (Hcalls : generator_calls st' = generator_calls st1
                   /\ proposal_calls st' = proposal_calls st1).
  { cbv zeta in H.
    assert (Hu : forall x,
      generator_calls (update x) = generator_calls x
      /\ proposal_calls (update x) = proposal_calls x).
    { intros x. unfold update.
      cbn [generator_calls proposal_calls set_sampler].
      split; apply for_range_inv; try reflexivity; intros j y _ Hy; exact Hy. }
    destruct H as [[-> _] | [-> _]];
      cbn [generator_calls proposal_calls set_out_ closeOut];
      apply (Hu (set_iteration_ st1 (ulong_incr (iteration_ st1)))). }
  destruct Hcalls as [-> ->].
  assert (Hk : Z.of_nat (List.length (blocks_ st))
               = vector_size (blocks_ st) - 0)
    by (unfold vector_size; lia).
  destruct (externalProposal_ st) as [ext |] eqn:Hext.
  - assert (Hx : externalProposal_ st <> None) by congruence.
    destruct (block_loop_draws E (blocks_ st) true
                (List.length (blocks_ st)) 0 0 st w acc st1 w1 acc' bb
                Hk (Z.le_refl 0) (Z.le_refl 0) eq_refl Hx Hloop)
      as (_ & _ & _ & Hc).
    exact Hc.
  - destruct (block_loop_draws E (blocks_ st) false
                (List.length (blocks_ st)) 0 0 st w acc st1 w1 acc' bb
                Hk (Z.le_refl 0) (Z.le_refl 0) eq_refl Hext Hloop)
      as (_ & Hl & Hz & Hg & Hp).
    split; [| exact Hp].
    rewrite Hg, Z.sub_0_r. f_equal. f_equal.
    destruct (List.length (blocks_ st)) as [| k] eqn:Hlen.
    + rewrite Hz by reflexivity.
      destruct (blocks_ st); [reflexivity | discriminate].
    + rewrite Hl by lia. apply vget_last.
Qed.

(** ** Setting every parameter *)

Lemma set_config_prior (st : MetropolisHastings) (i : Z) (name : string)
    (a b start width acc : float) (mode : PRIOR_MODE) :
  config_sized st = true -> 0 <= i < n_ st ->
  let st' :=
    set_config st
      (vset (paramNames_ st) i name)
      (vset (param1_ st) i a) (vset (param2_ st) i b)
      (vset (priorMods_ st) i mode)
      (vset (starting_ st) i start)
      (vset (samplingWidth_ st) i width)
      (vset (accuracy_ st) i acc)
      (blocks_ st) (externalPrior_ st) (externalProposal_ st) in
  vget PRIOR_MODE_MAX (priorMods_ st') i = mode
  /\ vget 0%float (param1_ st') i = a /\ vget 0%float (param2_ st') i = b
  /\ forall j, 0 <= j -> j <> i ->
       prior_set st' j = prior_set st j
       /\ vget PRIOR_MODE_MAX (priorMods_ st') j
          = vget PRIOR_MODE_MAX (priorMods_ st) j.
Proof.
  intros Hc Hi. cbv zeta.
  apply config_sized_inv in Hc as (L1 & L2 & L3 & L4 & L5 & L6).
  unfold prior_set. cbn [priorMods_ param1_ param2_ set_config].
  rewrite !vget_vset_eq by (unfold vector_size; lia).
  repeat split; try reflexivity;
    rewrite !vget_vset_neq by assumption; reflexivity.
Qed.

Lemma apply_setting_effect (E : Env) (c : setting)
    (st st' : MetropolisHastings) :
  apply_setting E c st = Ok st' ->
  sized st = true -> config_sized st = true ->
  0 <= setting_index c < n_ st
  /\ (checks_on E = true -> prior_set st' (setting_index c) = true)
  /\ (forall j, 0 <= j -> j <> setting_index c ->
        prior_set st' j = prior_set st j
        /\ vget PRIOR_MODE_MAX (priorMods_ st') j
           = vget PRIOR_MODE_MAX (priorMods_ st) j)
  /\ sized st' = true /\ config_sized st' = true
  /\ n_ st' = n_ st /\ externalPrior_ st' = externalPrior_ st.
Proof.
  intros H Hs Hc.
  destruct c as [i name a b s wd acc | i name a b s wd acc];
    cbn [apply_setting setting_index] in *.
  - apply setParam_inv in H as (Hi & Hchk & ->).
    destruct (set_config_prior st i name a b
                (if (s =? DBL_MAX)%float then ((b + a) / 2)%float else s)
                (if (wd =? 0)%float then ((b - a) / 100)%float else wd)
                (if (acc =? 0)%float
                 then ((if (wd =? 0)%float then ((b - a) / 100)%float else wd)
                       / 10)%float
                 else acc)
                UNIFORM_PRIOR Hc Hi) as (M & P1 & P2 & Hother).
    split; [exact Hi |]. split.
    { intros Hon. unfold prior_set. rewrite M, P1, P2. apply Hchk. exact Hon. }
    split; [exact Hother |].
    split; [apply vset_sized; exact Hs |].
    split; [apply vset_config_sized; exact Hc |].
    split; reflexivity.
  - apply setParamGauss_inv in H as (Hi & Hchk & ->).
    destruct (set_config_prior st i name a b
                (if (s =? DBL_MAX)%float then a else s)
                (if (wd =? 0)%float then (b / 100)%float else wd)
                (if (acc =? 0)%float
                 then ((if (wd =? 0)%float then (b / 100)%float else wd)
                       / 10)%float
                 else acc)
                GAUSSIAN_PRIOR Hc Hi) as (M & P1 & P2 & Hother).
    split; [exact Hi |]. split.
    { intros Hon. unfold prior_set. rewrite M, P2. apply Hchk. exact Hon. }
    split; [exact Hother |].
    split; [apply vset_sized; exact Hs |].
    split; [apply vset_config_sized; exact Hc |].
    split; reflexivity.
Qed.

Lemma apply_settings_effect (E : Env) (cs : list setting) :
  forall st st',
    apply_settings E cs st = Ok st' ->
    sized st = true -> config_sized st = true -> checks_on E = true ->
    sized st' = true /\ config_sized st' = true
    /\ n_ st' = n_ st /\ externalPrior_ st' = externalPrior_ st
    /\ (forall j, In j (map setting_index cs) ->
          0 <= j < n_ st /\ prior_set st' j = true)
    /\ (forall j, 0 <= j -> ~ In j (map setting_index cs) ->
          vget PRIOR_MODE_MAX (priorMods_ st') j
          = vget PRIOR_MODE_MAX (priorMods_ st) j)
    /\ (forall j, 0 <= j -> prior_set st j = true -> prior_set st' j = true).
Proof.
  induction cs as [| c rest IH]; intros st st' H Hs Hc Hon;
    cbn [apply_settings] in H.
  - injection H as <-. repeat split; auto; contradiction.
  - apply bind_Ok in H as (st1 & H1 & H).
    pose proof (apply_setting_effect E c st st1 H1 Hs Hc)
      as (Hi & Hset & Hother & Hs1 & Hc1 & Hn1 & Hx1).
    specialize (Hset Hon).
    destruct (IH st1 st' H Hs1 Hc1 Hon)
      as (Hs' & Hc' & Hn' & Hx' & Hin & Hout & Hmono).
    split; [exact Hs' |]. split; [exact Hc' |]. split; [congruence |].
    split; [congruence |].
    split; [| split].
    + intros j [<- | Hj].
      * split; [exact Hi |]. apply Hmono; [lia | exact Hset].
      * rewrite <- Hn1. apply Hin. exact Hj.
    + intros j Hj Hnot. cbn [map] in Hnot.
      rewrite Hout by (try assumption; intros Hin'; apply Hnot; now right).
      apply Hother; [exact Hj |]. intros ->. apply Hnot. now left.
    + intros j Hj Hp. apply Hmono; [exact Hj |].
      destruct (Z.eq_dec j (setting_index c)) as [-> | Hne]; [exact Hset |].
      destruct (Hother j Hj Hne) as [-> _]. exact Hp.
Qed.

(** X24: An engine is ready for its prior exactly when every parameter has been
    set. Under CHECKS_ON, after the constructor and any sequence of calls of
    [setParam] and [setParamGauss] that all returned, [calculatePrior]
    returns a value at every point if each parameter was the subject of
    some call, and fails its check at every point if some parameter was the
    subject of none. *)
Theorem prior_ready_after_setting_all (E : Env) (u : Uninitialized)
    (nPar : Z) (like : LikelihoodFunction) (cs : list setting)
    (st0 st : MetropolisHastings) :
  checks_on E = true ->
  MetropolisHastings_new E u nPar like = Ok st0 ->
  apply_settings E cs st0 = Ok st ->
  ((forall i, 0 <= i < nPar -> In i (map setting_index cs)) ->
   forall x, exists p, calculatePrior E (set_current_ st x) = Ok p)
  /\ ((exists i, 0 <= i < nPar /\ ~ In i (map setting_index cs)) ->
      forall x, exists msg,
        calculatePrior E (set_current_ st x) = Err (CheckFailed msg)).
Proof.
  intros Hon Hnew Hcs.
  destruct (constructor_shape E u nPar like st0 Hnew)
    as (Hn0 & Hs0 & Hc0 & Hmode0 & Hx0).
  destruct (apply_settings_effect E cs st0 st Hcs Hs0 Hc0 Hon)
    as (_ & _ & Hn & Hx & Hin & Hout & _).
  assert (Hext : forall x, externalPrior_ (set_current_ st x) = None)
    by (intros x; cbn; congruence).
  split.
  - intros Hall x.
    apply (calculatePrior_defined E (set_current_ st x) (Hext x) Hon).
    intros i Hi. change (prior_set st i = true).
    apply Hin, Hall. cbn in Hi. lia.
  - intros (i & Hi & Hnot) x.
    pose proof (checked_calculatePrior E (set_current_ st x)) as Hchk.
    destruct (calculatePrior E (set_current_ st x)) as [p | e] eqn:Hr.
    + exfalso.
      pose proof (proj1 (calculatePrior_defined E (set_current_ st x)
                           (Hext x) Hon) (ex_intro _ p Hr) i) as Hp.
      change (0 <= i < n_ st -> prior_set st i = true) in Hp.
      specialize (Hp ltac:(lia)). unfold prior_set in Hp.
      rewrite (Hout i (proj1 Hi) Hnot), (Hmode0 i Hi) in Hp. discriminate.
    + destruct e; try contradiction. eauto.
Qed.

(** ** A configured engine runs to the end *)

Lemma calculatePrior_unchecked (E : Env) (st : MetropolisHastings) :
  checks_on E = false -> exists p, calculatePrior E st = Ok p.
Proof.
  intros Hoff. unfold calculatePrior.
  destruct (externalPrior_ st); [eauto |]. unfold for_range_r.
  apply for_list_r_all. intros j x _.
  unfold uniformPrior, gaussPrior.
  destruct (vget PRIOR_MODE_MAX (priorMods_ st) j);
    rewrite (check_off E _ _ Hoff); cbn [bind]; eauto.
Qed.

Lemma prior_ready_returns (E : Env) (st : MetropolisHastings) :
  prior_ready st -> exists p, calculatePrior E st = Ok p.
Proof.
  intros Hr. destruct (checks_on E) eqn:Hon;
    [| apply calculatePrior_unchecked; exact Hon].
  destruct (externalPrior_ st) as [prior |] eqn:Hext.
  - unfold calculatePrior. rewrite Hext. eauto.
  - apply (calculatePrior_defined E st Hext Hon).
    destruct Hr as [Hr | Hr]; [congruence | exact Hr].
Qed.

Lemma prior_ready_config (a b : MetropolisHastings) :
  same_config a b -> prior_ready b -> prior_ready a.
Proof.
  intros (Hn & _ & H1 & H2 & _ & _ & _ & Hm & _ & Hx & _) [Hr | Hr].
  - left. congruence.
  - right. intros i Hi. unfold prior_set. rewrite Hm, H1, H2.
    apply Hr. lia.
Qed.

Lemma blocks_in_range_config (a b : MetropolisHastings) :
  same_config a b -> blocks_in_range b -> blocks_in_range a.
Proof.
  intros (Hn & _ & _ & _ & _ & _ & _ & _ & _ & _ & _ & Hb & _) [H1 H2].
  unfold blocks_in_range. rewrite Hn, Hb. split; assumption.
Qed.

Lemma propose_returns (E : Env) (i blockBegin : Z) (st : MetropolisHastings)
    (w : World) :
  0 <= blockBegin -> blockBegin <= vget 0 (blocks_ st) i <= n_ st ->
  prior_ready st ->
  exists pr, propose E i blockBegin st w = Ok pr.
Proof.
  intros H0 [H1 H2] Hr. unfold propose.
  replace (vget 0 (blocks_ st) i - blockBegin <? 0) with false
    by (symmetry; apply Z.ltb_ge; lia).
  replace ((0 <=? blockBegin) && (vget 0 (blocks_ st) i <=? n_ st)) with true
    by (symmetry; apply andb_true_iff; split; apply Z.leb_le; lia).
  rewrite andb_false_r.
  destruct (externalProposal_ st) as [ext |].
  - match goal with
    | |- context [calculatePrior E ?s] =>
        destruct (prior_ready_returns E s) as [p ->];
          [apply (prior_ready_config s st); [repeat split | exact Hr] |]
    end.
    cbn [bind]. eauto.
  - destruct (for_range blockBegin (vget 0 (blocks_ st) i) _ _) as [b g].
    match goal with
    | |- context [calculatePrior E ?s] =>
        destruct (prior_ready_returns E s) as [p ->];
          [apply (prior_ready_config s st); [repeat split | exact Hr] |]
    end.
    cbn [bind]. eauto.
Qed.

Lemma block_loop_returns (E : Env) (st0 : MetropolisHastings) :
  blocks_in_range st0 -> prior_ready st0 ->
  forall (k : nat) (lo from : Z) st w acc,
    Z.of_nat k = vector_size (blocks_ st0) - from -> 0 <= from -> 0 <= lo ->
    (from < vector_size (blocks_ st0) -> lo <= vget 0 (blocks_ st0) from) ->
    same_config st st0 ->
    exists ls,
      for_list_r (Zrange from (vector_size (blocks_ st0))) (block_step E)
        (st, w, acc, lo) = Ok ls.
Proof.
  intros [Hn Hord] Hr. induction k as [| k IH];
    intros lo from st w acc Hk Hfrom Hlo Hnext Hcfg.
  - rewrite Zrange_empty by lia. cbn. eauto.
  - rewrite Zrange_cons by lia. cbn [for_list_r].
    pose proof Hcfg as (Hn1 & _ & _ & _ & _ & _ & _ & _ & _ & _ & _ & Hb1 & _).
    destruct (propose_returns E from lo st w Hlo) as [pr Hpr].
    { rewrite Hb1, Hn1. split; [apply Hnext; lia | apply Hn; lia]. }
    { apply (prior_ready_config st st0); assumption. }
    assert (Hstep : exists ls, block_step E from (st, w, acc, lo) = Ok ls).
    { unfold block_step. rewrite Hpr. cbn [bind].
      destruct (pr_q pr <=? pr_p pr)%float; eauto. }
    destruct Hstep as [[[[st1 w1] acc1] lo1] Hstep]. rewrite Hstep.
    cbn [bind].
    pose proof (block_step_same_config _ _ _ _ _ _ _ _ _ _ Hstep) as Hc1.
    assert (Hlo1 : lo1 = vget 0 (blocks_ st0) from).
    { unfold block_step in Hstep. rewrite Hpr in Hstep. cbn [bind] in Hstep.
      apply propose_inv in Hpr as (_ & _ & _ & _ & Hend & _).
      destruct (pr_q pr <=? pr_p pr)%float; injection Hstep as _ _ _ <-;
        congruence. }
    apply IH; try lia.
    + intros Hlt. subst lo1.
      replace from with (from + 1 - 1) at 1 by lia. apply Hord. lia.
    + eapply same_config_trans; eassumption.
Qed.

Lemma sweep_returns (E : Env) (wri : bool) (st : MetropolisHastings)
    (w : World) (acc : list N) :
  blocks_in_range st -> prior_ready st ->
  can_open_chain E = true -> out_ st = true ->
  exists rs, sweep E wri (st, w, acc) = Ok rs.
Proof.
  intros Hb Hr Hcan Hout. unfold sweep, for_range_r.
  destruct (block_loop_returns E st Hb Hr
              (Z.to_nat (vector_size (blocks_ st))) 0 0 st w acc)
    as [[[[st1 w1] acc1] bb] Hloop];
    try lia; try apply same_config_refl.
  - unfold vector_size. lia.
  - intros Hlt. apply Hb. lia.
  - rewrite Hloop. cbn [bind].
    apply block_loop_frame in Hloop.
    destruct Hloop as (_ & _ & _ & _ & Ho1 & _).
    unfold writeChainElement. rewrite Ho1, Hout, check_true. cbn [bind].
    match goal with
    | |- context [if ?c then _ else _] => destruct c; [| eauto]
    end.
    unfold openOut. rewrite Hcan. cbn. eauto.
Qed.

Lemma run_loop_returns (E : Env) (wri : bool) (st0 : MetropolisHastings) :
  blocks_in_range st0 -> prior_ready st0 -> can_open_chain E = true ->
  forall (fuel : nat) st w acc,
    same_config st st0 -> out_ st = true ->
    (maxChainLength_ st < ULONG_MOD)%N -> (run_fuel st <= fuel)%nat ->
    exists rs, run_loop E fuel wri (st, w, acc) = Ok rs.
Proof.
  intros Hb Hr Hcan. induction fuel as [| fuel IH];
    intros st w acc Hcfg Hout Hmax Hfuel; cbn [run_loop fst];
    unfold run_fuel in Hfuel;
    destruct (stop_total E st) as [b Hstop]; rewrite Hstop; cbn [bind];
    destruct b; eauto.
  - apply stop_false_below in Hstop. lia.
  - destruct (sweep_returns E wri st w acc) as [[[st1 w1] acc1] Hsw];
      try assumption.
    + apply (blocks_in_range_config st st0); assumption.
    + apply (prior_ready_config st st0); assumption.
    + rewrite Hsw. cbn [bind].
      pose proof (sweep_same_config _ _ _ _ _ _ _ _ Hsw) as Hc1.
      apply stop_false_below in Hstop.
      apply sweep_inv in Hsw
        as (_ & _ & _ & _ & _ & _ & Hit & Hm & _ & _ & _ & _ & Ho & _).
      rewrite (ulong_incr_below _ (N.max 100 (maxChainLength_ st))) in Hit
        by (unfold ULONG_MOD in *; lia).
      apply IH.
      * eapply same_config_trans; eassumption.
      * auto.
      * congruence.
      * unfold run_fuel. rewrite Hm, Hit. lia.
Qed.

(** X25: With the two output files writable, the chain stream closed, a maximal
    length in (0, 2^64), at least one block, block boundaries in [0, n] that
    do not decrease, and a prior that can be evaluated (an external one, or
    every parameter set), [run] returns: no check fails, nothing is thrown
    and the loop ends, with or without a resume file and whatever the
    likelihood, the generator and [std::rand] produce. *)
Theorem configured_run_returns (E : Env) (m : N) (wri : bool)
    (st : MetropolisHastings) (w : World) :
  can_open_paramnames E = true -> can_open_chain E = true ->
  out_ st = false ->
  (0 < m < ULONG_MOD)%N ->
  blocks_ st <> [] -> blocks_in_range st -> prior_ready st ->
  exists st' w' acc', run E m wri st w = Ok (st', w', acc').
Proof.
  intros Hpn Hcan Hout [Hm0 Hm] Hne Hb Hr. unfold run.
  rewrite (proj2 (N.ltb_lt 0 m) Hm0), check_true. cbn [bind].
  replace (vector_empty (blocks_ st)) with false
    by (destruct (blocks_ st); [contradiction | reflexivity]).
  cbn [negb]. rewrite check_true. cbn [bind].
  unfold write_paramnames. rewrite Hpn. cbn [bind].
  match goal with
  | |- context [run_start E m st ?x] => set (w0 := x)
  end.
  assert (Hstart : exists st1 w1, run_start E m st w0 = Ok (st1, w1)).
  { unfold run_start.
    pose proof (readResumeInfo_same_config st w0) as Hc.
    destruct (readResumeInfo_shape st w0)
      as (m0 & it & l & p & cur & prev & s1 & s2 & s3 & Hshape & _).
    destruct (readResumeInfo st w0) as [resumed st0]. cbn [snd] in *.
    destruct resumed.
    - unfold openOut. rewrite Hcan, Hshape. cbn [out_ set_sampler].
      rewrite Hout. cbn. eauto.
    - unfold fresh_start.
      match goal with
      | |- context [calculatePrior E ?s] =>
          destruct (prior_ready_returns E s) as [prior ->]
      end.
      { eapply prior_ready_config; [| exact Hr].
        eapply same_config_trans; [| exact Hc]. repeat split. }
      cbn [bind]. unfold openOut. rewrite Hcan.
      match goal with
      | |- context [out_ ?s] =>
          assert (Ho : out_ s = false)
      end.
      { rewrite Hshape.
        match goal with
        | |- out_ (for_range 0 ?n ?body ?s) = false =>
            assert (Hf : out_ (for_range 0 n body s) = out_ st)
        end.
        { apply for_range_inv; [intros j x _ Hx; exact Hx | reflexivity]. }
        rewrite Hf. exact Hout. }
      rewrite Ho. cbn. eauto. }
  destruct Hstart as (st1 & w1 & Hstart). rewrite Hstart. cbn [bind].
  pose proof (run_start_same_config _ _ _ _ _ _ Hstart) as Hc1.
  pose proof (run_start_effect _ _ _ _ _ _ Hstart)
    as (_ & _ & Ho1 & _ & _ & _ & _ & _ & Hres & Hfresh).
  assert (Hmax1 : (maxChainLength_ st1 < ULONG_MOD)%N).
  { destruct (fst (readResumeInfo st w0)) eqn:Hresumed.
    - rewrite Hres by reflexivity.
      pose proof (readResumeInfo_ulongs st w0
                    (readResumeInfo_true_file st w0 Hresumed)) as Hu.
      apply ulongs_ok_inv in Hu. apply Hu.
    - destruct Hfresh as [_ ->]; [reflexivity | exact Hm]. }
  destruct (run_loop_returns E wri st Hb Hr Hcan (run_fuel st1) st1 w1
              (repeat 0%N (List.length (blocks_ st1))) Hc1 Ho1 Hmax1
              (Nat.le_refl _)) as [[[st2 w2] acc2] Hloop].
  rewrite Hloop. cbn [bind]. eauto.
Qed.

(** * The properties on concrete engines *)

(** The first proposal of the run [started]. *)
Lemma acceptance_probability_builtin_witness :
  let r := (pr_newPrior started_proposal / currentPrior_ (fst started)
            * std_exp (sample_env true)
                (- (pr_newLike started_proposal - currentLike_ (fst started))
                 / 2))%float in
  pr_p started_proposal = (if (1 <? r)%float then 1%float else r)
  /\ (1 <? pr_p started_proposal)%float = false
  /\ ((pr_p started_proposal <=? 1)%float = true <-> is_nan r = false).
Proof.
  apply (acceptance_probability_builtin (sample_env true) 0 0
           (fst started) (snd started) started_proposal).
  - reflexivity.
  - vm_compute. reflexivity.
Defined.

(** The claim C1 as stated fails: started at 2 under a prior that is uniform
    on [0, 1], the first proposal of the run has prior density 0 like the
    current point, and the probability compared with the draw is NaN, which
    is not [<= 1]. *)
Lemma acceptance_probability_counterexample :
  match run_start (sample_env true) 150 outside_engine empty_world with
  | Ok (st, w) =>
      externalProposal_ st = None
      /\ match propose (sample_env true) 0 0 st w with
         | Ok pr =>
             (pr_newPrior pr =? 0)%float = true
             /\ (currentPrior_ st =? 0)%float = true
             /\ is_nan (pr_p pr) = true
             /\ (pr_p pr <=? 1)%float = false
         | Err _ => False
         end
  | Err _ => False
  end.
Proof. vm_compute. repeat split; reflexivity. Qed.

(** The first block update of the run [started]. *)
Lemma block_step_accept_or_restore_witness :
  exists pr,
    propose (sample_env true) 0 0 (fst started) (snd started) = Ok pr /\
    let '(st', _, accepted', _) := started_step in
    if (pr_q pr <=? pr_p pr)%float then
      currentPrior_ st' = pr_newPrior pr
      /\ currentLike_ st' = pr_newLike pr
      /\ current_ st' = pr_current pr
      /\ currentLike_ st' = like_ st' (current_ st') (n_ st')
      /\ (0 <= 0 < vector_size [0%N] ->
          (vget 0%N [0%N] 0 + 1 < ULONG_MOD)%N ->
          vget 0%N accepted' 0 = (vget 0%N [0%N] 0 + 1)%N)
      /\ (forall k, 0 <= k -> k <> 0 ->
          vget 0%N accepted' k = vget 0%N [0%N] k)
    else
      current_ st' = current_ (fst started)
      /\ currentLike_ st' = currentLike_ (fst started)
      /\ currentPrior_ st' = currentPrior_ (fst started)
      /\ accepted' = [0%N].
Proof.
  apply (block_step_accept_or_restore (sample_env true) 0 0 (fst started)
           (snd started) [0%N] started_step).
  vm_compute. reflexivity.
Defined.

(** [stop] at the start of a run and in the state [stalled_engine]. *)
Lemma stop_decision_witness :
  stop (sample_env true) (fst started) = Ok false
  /\ exists b,
       stop (sample_env true) stalled_engine = Ok b
       /\ (b = true <->
           forall i, 0 <= i < n_ stalled_engine ->
             (vget 0 (accuracy_ stalled_engine) i
              <? stop_stdMean stalled_engine i)%float = false).
Proof.
  split.
  - apply (proj1 (stop_decision (sample_env true) (fst started))).
    vm_compute. reflexivity.
  - apply (proj1 (proj2 (stop_decision (sample_env true) stalled_engine))).
    vm_compute. split; [discriminate | reflexivity].
Defined.

(** The claim C3 as stated fails: after 100 sweeps of a chain that stayed at
    1.7 the variance estimate is negative, the standard error is NaN and so
    not [<=] the accuracy, and yet [stop] says yes below the maximum chain
    length. *)
Lemma stop_decision_counterexample :
  (100 <= iteration_ stalled_engine < maxChainLength_ stalled_engine)%N
  /\ n_ stalled_engine = 1
  /\ stop (sample_env true) stalled_engine = Ok true
  /\ is_nan (stop_stdMean stalled_engine 0) = true
  /\ (stop_stdMean stalled_engine 0
      <=? vget 0 (accuracy_ stalled_engine) 0)%float = false.
Proof.
  split; [vm_compute; split; [discriminate | reflexivity] |].
  vm_compute. repeat split; reflexivity.
Qed.

(** [stalled_engine] is the sampler state that a run of [stalled_config]
    ends in. *)
Lemma stalled_engine_reached :
  match run (sample_env true) 150 false stalled_config empty_world with
  | Ok (st, _, accepted) =>
      sampler_state st = sampler_state stalled_engine /\ accepted = [0%N]
  | Err _ => False
  end.
Proof. vm_compute. split; reflexivity. Qed.

(** A fresh run of [sample_engine] with a maximum chain length of 1. *)
Lemma run_fresh_iterations_witness :
  finishes (run (sample_env true) 1 true sample_engine empty_world)
  /\ forall st' w' acc',
       run (sample_env true) 1 true sample_engine empty_world
       = Ok (st', w', acc') ->
       (100 <= iteration_ st' <= N.max 100 1)%N
       /\ ((100 <= 1)%N ->
           iteration_ st' = 1%N
           \/ ((iteration_ st' < 1)%N
               /\ stop_loop st' (Zrange 0 (n_ st')) = true))
       /\ ((1 <= 100)%N -> iteration_ st' = 100%N).
Proof.
  apply (run_fresh_iterations (sample_env true) 1 true sample_engine
           empty_world).
  - vm_compute. reflexivity.
  - vm_compute. reflexivity.
Defined.

(** The run of [sample_engine] with a maximum chain length of 1 writes 100
    rows and ends at iteration 100. *)
Lemma run_with_cap_one :
  match run (sample_env true) 1 true sample_engine empty_world with
  | Ok (st', w', _) =>
      maxChainLength_ st' = 1%N
      /\ iteration_ st' = 100%N
      /\ option_map line_count (chain_txt w') = Some 100%nat
  | Err _ => False
  end.
Proof. vm_compute. repeat split; reflexivity. Qed.

(** [stalled_engine] written, and read back into a new engine of the same
    configuration. *)
Lemma resume_round_trip_witness :
  let w1 := writeResumeInfo (sample_env true) stalled_engine empty_world in
  exists st1,
    readResumeInfo stalled_config w1 = (true, st1)
    /\ sampler_state st1 = sampler_state stalled_engine
    /\ forall M rs',
         sweeps (sample_env true) M true (st1, w1, [0%N]) = Ok rs' ->
         (iteration_ stalled_engine + N.of_nat M < ULONG_MOD)%N ->
         iteration_ (fst (fst rs'))
         = (iteration_ stalled_engine + N.of_nat M)%N.
Proof.
  apply (resume_round_trip (sample_env true) true stalled_engine
           stalled_config empty_world [0%N]);
    vm_compute; reflexivity.
Defined.

(** A start without a resume file, and a resume file with a zero marker. *)
Lemma run_without_checkpoint_witness :
  (fst (readResumeInfo sample_engine empty_world) = false
   /\ forall prior,
        calculatePrior (sample_env true)
          (set_current_ sample_engine (starting_ sample_engine)) = Ok prior ->
        can_open_chain (sample_env true) = true ->
        out_ sample_engine = false ->
        forall w0, resume_dat w0 = resume_dat empty_world ->
        exists st1 w1,
          run_start (sample_env true) 300 sample_engine w0 = Ok (st1, w1)
          /\ sampler_state st1
             = (300%N, 0%N,
                like_ sample_engine (starting_ sample_engine)
                  (n_ sample_engine), prior,
                starting_ sample_engine, starting_ sample_engine,
                repeat 0%float (Z.to_nat (n_ sample_engine)),
                repeat 0%float (Z.to_nat (n_ sample_engine)),
                repeat 0%float (Z.to_nat (n_ sample_engine)))
          /\ chain_txt w1 = Some []
          /\ out_ st1 = true
          /\ (write_paramnames (sample_env true) sample_engine empty_world
              = Ok w0 ->
              (0 < 300)%N -> blocks_ sample_engine <> [] ->
              run (sample_env true) 300 true sample_engine empty_world
              = ('(st2, w2, accepted) <-
                   run_loop (sample_env true) (run_fuel st1) true
                     (st1, w1, repeat 0%N (List.length (blocks_ st1))) ;;
                 Ok (closeOut st2, w2, accepted))))
  /\ fst (readResumeInfo stalled_config bad_marker_world) = false.
Proof.
  split.
  - apply (run_without_checkpoint (sample_env true) 300 true sample_engine
             empty_world).
    + vm_compute. reflexivity.
    + left. reflexivity.
  - apply (run_without_checkpoint (sample_env true) 300 true stalled_config
             bad_marker_world).
    + vm_compute. reflexivity.
    + right.
      exists (firstn 72 (resume_image stalled_engine) ++ int_to_bytes 0).
      split; [reflexivity |]. split; [vm_compute; lia |].
      vm_compute. discriminate.
Defined.

(** A file that ends in other bytes than the marker and is accepted all the
    same: the resume file of [stalled_engine] with two bytes added. The run
    resumes at iteration 100 with the stored maximum of 150 and, the
    stopping rule being met, adds no row. *)
Lemma trailing_marker_counterexample :
  let bytes := resume_image stalled_engine ++ [Byte.x2a; Byte.x2a] in
  resume_dat long_file_world = Some bytes
  /\ int_of_bytes (skipn (List.length bytes - 4) bytes)
     <> resumeCode_ stalled_config
  /\ fst (readResumeInfo stalled_config long_file_world) = true
  /\ match run (sample_env true) 5 true stalled_config long_file_world with
     | Ok (st', w', _) =>
         iteration_ st' = 100%N /\ maxChainLength_ st' = 150%N
         /\ option_map line_count (chain_txt w') = Some 0%nat
     | Err _ => False
     end.
Proof. vm_compute. repeat split; try reflexivity. discriminate. Qed.

(** The start of a run of [outside_engine]. *)
Lemma zero_prior_start_runs_witness :
  exists st' w',
    run_start (sample_env true) 150 outside_engine empty_world = Ok (st', w')
    /\ currentPrior_ st' = 0%float
    /\ forall i blockBegin w1 pr,
         externalProposal_ st' = None ->
         propose (sample_env true) i blockBegin st' w1 = Ok pr ->
         pr_ratio pr
         = (pr_newPrior pr / 0
            * std_exp (sample_env true)
                (- (pr_newLike pr - currentLike_ st') / 2))%float
         /\ ((pr_newPrior pr =? 0)%float = true ->
             is_nan (pr_p pr) = true
             /\ (pr_q pr <=? pr_p pr)%float = false).
Proof.
  apply (zero_prior_start_runs (sample_env true) 150 outside_engine
           empty_world 0%float); vm_compute; reflexivity.
Defined.

(** The claim C7 as stated fails: the engine started at 2 under a prior that
    is uniform on [0, 1] has zero prior density at its starting point, and
    its run raises nothing: it goes through its 100 sweeps without accepting
    a proposal and ends with [P_current = 0]. *)
Lemma zero_prior_start_counterexample :
  calculatePrior (sample_env true)
    (set_current_ outside_engine (starting_ outside_engine)) = Ok 0%float
  /\ match run (sample_env true) 150 true outside_engine empty_world with
     | Ok (st', _, accepted) =>
         currentPrior_ st' = 0%float
         /\ iteration_ st' = 100%N
         /\ accepted = [0%N]
     | Err _ => False
     end.
Proof. vm_compute. repeat split; reflexivity. Qed.

(** The first sweep of the run [started]. *)
Lemma sweep_appends_row_witness :
  let st' := fst (fst started_sweep) in
  let w' := snd (fst started_sweep) in
  chain_txt w'
  = Some ([] ++ [PInt 1; PStr "   "; PDouble (currentLike_ st')]
             ++ flat_map (fun x => [PStr "   "; PDouble x]) (current_ st')
             ++ [PEndl])
  /\ List.length (current_ st') = Z.to_nat (n_ (fst started))
  /\ forall c', chain_txt w' = Some c' -> line_count c' = S (line_count []).
Proof.
  apply (sweep_appends_row (sample_env true) true (fst started)
           (fst (fst started_sweep)) (snd started) (snd (fst started_sweep))
           [0%N] (snd started_sweep) []);
    vm_compute; try reflexivity.
  discriminate.
Defined.

(** The claim C8 as stated fails: the second column of the row is the stored
    likelihood value itself, which differs from -2 times that value. *)
Lemma chain_row_counterexample :
  let '(st', w', _) := started_sweep in
  chain_txt w'
  = Some [PInt 1; PStr "   "; PDouble (currentLike_ st'); PStr "   ";
          PDouble (vget 0%float (current_ st') 0); PEndl]
  /\ (currentLike_ st' =? -2 * currentLike_ st')%float = false.
Proof. vm_compute. split; reflexivity. Qed.

(** The partitions of three parameters. *)
Lemma block_boundaries_witness :
  (forall blocks st',
     specifyParameterBlocks (sample_env true) blocks three_parameters = Ok st' ->
     blocks_ st' = blocks
     /\ blocks <> []
     /\ forall i, 1 <= i < vector_size blocks ->
          vget 0 blocks (i - 1) < vget 0 blocks i
          /\ vget 0 blocks i <= n_ three_parameters)
  /\ (forall blocks,
        blocks = []
        \/ (exists i, 1 <= i < vector_size blocks
                      /\ (vget 0 blocks i <= vget 0 blocks (i - 1)
                          \/ n_ three_parameters < vget 0 blocks i)) ->
        exists msg,
          specifyParameterBlocks (sample_env true) blocks three_parameters
          = Err (CheckFailed msg))
  /\ (forall u nPar like st0,
        MetropolisHastings_new (sample_env true) u nPar like = Ok st0 ->
        n_ st0 = nPar
        /\ vector_size (blocks_ st0) = nPar
        /\ (forall i, 0 <= i < nPar -> vget 0 (blocks_ st0) i = i + 1)
        /\ (forall i, 1 <= i < nPar ->
              vget 0 (blocks_ st0) (i - 1) < vget 0 (blocks_ st0) i)
        /\ vget 0 (blocks_ st0) (nPar - 1) = nPar).
Proof.
  apply (block_boundaries (sample_env true) three_parameters). reflexivity.
Defined.

(** The claim C9 as stated fails: with CHECKS_ON and three parameters the
    partition with boundaries 1, 2 is accepted although its last boundary is
    not 3. *)
Lemma block_boundaries_counterexample :
  checks_on (sample_env true) = true
  /\ match specifyParameterBlocks (sample_env true) [1; 2] three_parameters with
     | Ok st' =>
         n_ st' = 3 /\ blocks_ st' = [1; 2] /\ last (blocks_ st') 0 <> n_ st'
     | Err _ => False
     end.
Proof. vm_compute. repeat split; try reflexivity. discriminate. Qed.

(** Two runs resumed from the file of [stalled_engine]. *)
Lemma resumed_run_ignores_maxChainLength_witness :
  run (sample_env true) 5 true stalled_config resumable_world
  = run (sample_env true) 1000 true stalled_config resumable_world
  /\ exists bytes,
       resume_dat resumable_world = Some bytes
       /\ forall w0 st1 w1,
            write_paramnames (sample_env true) stalled_config resumable_world
            = Ok w0 ->
            run_start (sample_env true) 5 stalled_config w0 = Ok (st1, w1) ->
            maxChainLength_ st1 = ulong_of_bytes (firstn 8 bytes).
Proof.
  apply (resumed_run_ignores_maxChainLength (sample_env true) 5 1000 true
           stalled_config resumable_world).
  - vm_compute. reflexivity.
  - vm_compute. discriminate.
  - reflexivity.
  - reflexivity.
Defined.

(** Resumed with an argument of 5, the run keeps the stored maximum of 150. *)
Lemma resumed_run_keeps_stored_maximum :
  match run (sample_env true) 5 true stalled_config resumable_world with
  | Ok (st', _, _) => maxChainLength_ st' = 150%N
  | Err _ => False
  end.
Proof. vm_compute. reflexivity. Qed.

(** A short read stores what it got: a resume file that lacks only its last
    byte, the zero high byte of the marker, is still accepted, since the
    marker is read into a variable that holds 0. *)
Lemma resume_file_short_by_one_byte :
  List.length (resume_image stalled_engine) = 76%nat
  /\ fst (readResumeInfo stalled_config
            (set_resume_dat empty_world
               (Some (firstn 75 (resume_image stalled_engine)))))
     = true.
Proof. vm_compute. split; reflexivity. Qed.

(** * The further properties on concrete engines *)

(** [update] on [stalled_engine]. *)
Lemma update_adds_current_point_witness :
  (forall i, 0 <= i < n_ stalled_engine ->
     vget 0%float (paramSum_ (update stalled_engine)) i
     = (vget 0 (paramSum_ stalled_engine) i
        + vget 0 (current_ stalled_engine) i)%float
     /\ vget 0%float (paramSquaredSum_ (update stalled_engine)) i
        = (vget 0 (paramSquaredSum_ stalled_engine) i
           + vget 0 (current_ stalled_engine) i
             * vget 0 (current_ stalled_engine) i)%float
     /\ vget 0%float (corSum_ (update stalled_engine)) i
        = (vget 0 (corSum_ stalled_engine) i
           + vget 0 (current_ stalled_engine) i
             * vget 0 (prev_ stalled_engine) i)%float)
  /\ prev_ (update stalled_engine) = current_ stalled_engine
  /\ current_ (update stalled_engine) = current_ stalled_engine
  /\ sized (update stalled_engine) = true
  /\ (iteration_ (update stalled_engine),
      maxChainLength_ (update stalled_engine),
      currentLike_ (update stalled_engine),
      currentPrior_ (update stalled_engine))
     = (iteration_ stalled_engine, maxChainLength_ stalled_engine,
        currentLike_ stalled_engine, currentPrior_ stalled_engine).
Proof.
  apply (update_adds_current_point stalled_engine). vm_compute. reflexivity.
Defined.

(** The first block update of the run [started]. *)
Lemma block_step_touches_its_block_witness :
  let st' := fst (fst (fst started_step)) in
  let blockEnd := snd started_step in
  blockEnd = vget 0 (blocks_ (fst started)) 0
  /\ 0 <= blockEnd
  /\ List.length (current_ st') = List.length (current_ (fst started))
  /\ forall k, 0 <= k -> k < 0 \/ blockEnd <= k ->
       vget 0%float (current_ st') k = vget 0%float (current_ (fst started)) k.
Proof.
  apply (block_step_touches_its_block (sample_env true) 0 0 (fst started)
           (fst (fst (fst started_step))) (snd started)
           (snd (fst (fst started_step))) [0%N] (snd (fst started_step))
           (snd started_step));
    vm_compute; reflexivity.
Defined.

(** The first proposal of the run [started]. *)
Lemma builtin_proposal_candidate_witness :
  pr_generator_calls started_proposal
  = (generator_calls (fst started)
     + Z.to_nat (pr_blockEnd started_proposal - 0))%nat
  /\ forall j, 0 <= j < pr_blockEnd started_proposal ->
       vget 0%float (pr_current started_proposal) j
       = (vget 0 (current_ (fst started)) j
          + generator_generate (sample_env true)
              (generator_calls (fst started) + Z.to_nat (j - 0))%nat
            * vget 0 (samplingWidth_ (fst started)) j)%float.
Proof.
  apply (builtin_proposal_candidate (sample_env true) 0 0 (fst started)
           (snd started) started_proposal);
    vm_compute; reflexivity.
Defined.

(** The first proposal of the run [started] with [step_proposal]. *)
Lemma external_proposal_ratio_witness :
  let st := useExternalProposal step_proposal (fst started) in
  let size := Z.to_nat (pr_blockEnd started_external - 0) in
  let base := (pr_newPrior started_external / currentPrior_ st
               * std_exp (sample_env true)
                   (- (pr_newLike started_external - currentLike_ st) / 2))%float in
  pr_block started_external
  = generate step_proposal (proposal_calls st) (current_ st) (n_ st)
      (repeat 0%float size) 0
  /\ pr_generator_calls started_external = generator_calls st
  /\ pr_proposal_calls started_external = S (proposal_calls st)
  /\ exists oldBlock,
       List.length oldBlock = size
       /\ (forall t, 0 <= t < pr_blockEnd started_external - 0 ->
             vget 0%float oldBlock t = vget 0%float (current_ st) (0 + t))
       /\ pr_ratio started_external
          = if isSymmetric step_proposal 0 then base
            else (base * calculate step_proposal (pr_current started_external)
                           (n_ st) oldBlock 0
                  / calculate step_proposal (current_ st) (n_ st)
                      (pr_block started_external) 0)%float.
Proof.
  apply (external_proposal_ratio (sample_env true) 0 0
           (useExternalProposal step_proposal (fst started)) (snd started)
           started_external step_proposal);
    vm_compute; reflexivity.
Defined.

(** The run [finished]: 100 sweeps of [sample_engine]. *)
Lemma run_keeps_configuration_witness :
  same_config (fst (fst finished)) sample_engine
  /\ out_ (fst (fst finished)) = false
  /\ List.length (snd finished) = List.length (blocks_ sample_engine).
Proof.
  apply (run_keeps_configuration (sample_env true) 1 true sample_engine
           (fst (fst finished)) empty_world (snd (fst finished))
           (snd finished)).
  vm_compute. reflexivity.
Defined.

Lemma run_chain_rows_witness :
  let resumed := fst (readResumeInfo sample_engine empty_world) in
  let first := if resumed
               then iteration_ (snd (readResumeInfo sample_engine empty_world))
               else 0%N in
  let old := if resumed
             then match chain_txt empty_world with Some c => c | None => [] end
             else [] in
  (first <= iteration_ (fst (fst finished)))%N
  /\ exists rows,
       chain_txt (snd (fst finished)) = Some (old ++ rows)
       /\ line_count rows = N.to_nat (iteration_ (fst (fst finished)) - first).
Proof.
  apply (run_chain_rows (sample_env true) 1 true sample_engine
           (fst (fst finished)) empty_world (snd (fst finished))
           (snd finished));
    vm_compute; reflexivity.
Defined.

Lemma run_counters_bounded_witness :
  let first := if fst (readResumeInfo sample_engine empty_world)
               then iteration_ (snd (readResumeInfo sample_engine empty_world))
               else 0%N in
  List.length (snd finished) = List.length (blocks_ sample_engine)
  /\ forall k, 0 <= k ->
       (vget 0%N (snd finished) k <= iteration_ (fst (fst finished)) - first)%N.
Proof.
  apply (run_counters_bounded (sample_env true) 1 true sample_engine
           (fst (fst finished)) empty_world (snd (fst finished))
           (snd finished));
    vm_compute; reflexivity.
Defined.

Lemma run_writes_paramnames_witness :
  exists lines,
    paramnames_txt (snd (fst finished)) = Some lines
    /\ lines
       = flat_map
           (fun i =>
              let name := vget EmptyString (paramNames_ sample_engine) i in
              [PStr name; PChar "009"%char; PStr name; PEndl])
           (Zrange 0 (n_ sample_engine))
    /\ line_count lines = Z.to_nat (n_ sample_engine).
Proof.
  apply (run_writes_paramnames (sample_env true) 1 true sample_engine
           (fst (fst finished)) empty_world (snd (fst finished))
           (snd finished)).
  vm_compute. reflexivity.
Defined.

Lemma run_requirements_witness :
  can_open_paramnames (sample_env true) = true
  /\ can_open_chain (sample_env true) = true
  /\ out_ sample_engine = false
  /\ (checks_on (sample_env true) = true ->
      (0 < 1)%N /\ blocks_ sample_engine <> [])
  /\ (fst (readResumeInfo sample_engine empty_world) = false ->
      exists prior,
        calculatePrior (sample_env true)
          (set_current_ sample_engine (starting_ sample_engine))
        = Ok prior).
Proof.
  apply (run_requirements (sample_env true) 1 true sample_engine
           (fst (fst finished)) empty_world (snd (fst finished))
           (snd finished)).
  vm_compute. reflexivity.
Defined.

Lemma run_random_draws_witness :
  let first := if fst (readResumeInfo sample_engine empty_world)
               then iteration_ (snd (readResumeInfo sample_engine empty_world))
               else 0%N in
  rand_calls (snd (fst finished))
  = (rand_calls empty_world
     + List.length (blocks_ sample_engine)
       * N.to_nat (iteration_ (fst (fst finished)) - first))%nat.
Proof.
  apply (run_random_draws (sample_env true) 1 true sample_engine
           (fst (fst finished)) empty_world (snd (fst finished))
           (snd finished));
    vm_compute; reflexivity.
Defined.

(** A second run on what [finished] returned, with another maximal length
    and without the resume file. *)
Lemma rerun_after_finished_run_witness :
  run (sample_env true) 7 false (fst (fst finished)) (snd (fst finished))
  = Ok (fst (fst finished), snd (fst finished),
        repeat 0%N (List.length (blocks_ sample_engine))).
Proof.
  apply (rerun_after_finished_run (sample_env true) 1 7 false sample_engine
           (fst (fst finished)) empty_world (snd (fst finished))
           (snd finished));
    try (vm_compute; reflexivity);
    vm_compute; split; [discriminate | reflexivity].
Defined.

(** The resume file of [stalled_engine], whole, with two bytes more and cut
    two bytes into its marker. *)
Lemma resume_image_length_witness :
  List.length (resume_image stalled_engine)
  = (36 + 40 * Z.to_nat (n_ stalled_engine))%nat.
Proof.
  apply (resume_image_length stalled_engine). vm_compute. reflexivity.
Defined.

Lemma resume_file_trailing_bytes_witness :
  fst (readResumeInfo stalled_config long_file_world) = true
  /\ sampler_state (snd (readResumeInfo stalled_config long_file_world))
     = sampler_state stalled_engine.
Proof.
  apply (resume_file_trailing_bytes stalled_engine stalled_config
           long_file_world [Byte.x2a; Byte.x2a]);
    try (vm_compute; reflexivity);
    vm_compute; split; [discriminate | reflexivity].
Defined.

Lemma short_resume_file_rejected_witness :
  fst (readResumeInfo stalled_config short_file_world) = false.
Proof.
  apply (short_resume_file_rejected stalled_config short_file_world
           (firstn 74 (resume_image stalled_engine))).
  - reflexivity.
  - vm_compute. lia.
  - vm_compute. intros [_ H]. discriminate H.
Defined.

(** The first sweep of the run [started], read into a new engine. *)
Lemma sweep_checkpoint_witness :
  resume_dat (snd (fst started_sweep))
  = Some (resume_image (fst (fst started_sweep)))
  /\ fst (readResumeInfo sample_engine (snd (fst started_sweep))) = true
  /\ sampler_state (snd (readResumeInfo sample_engine (snd (fst started_sweep))))
     = sampler_state (fst (fst started_sweep)).
Proof.
  apply (sweep_checkpoint (sample_env true) (fst started)
           (fst (fst started_sweep)) sample_engine (snd started)
           (snd (fst started_sweep)) [0%N] (snd started_sweep));
    try (vm_compute; reflexivity);
    vm_compute; split; [discriminate | reflexivity].
Defined.

(** The blocks of the constructor for three parameters. *)
Lemma run_stays_in_bounds_witness :
  run (sample_env true) 5 true three_parameters empty_world <> Err OutOfBounds
  /\ run (sample_env true) 5 true three_parameters empty_world
     <> Err LengthError.
Proof.
  assert (Hsize : vector_size (blocks_ three_parameters) = 3)
    by (vm_compute; reflexivity).
  apply (run_stays_in_bounds (sample_env true) 5 true three_parameters
           empty_world); rewrite Hsize; intros i Hi.
  - assert (Hc : i = 0 \/ i = 1 \/ i = 2) by lia.
    destruct Hc as [-> | [-> | ->]]; vm_compute; split; discriminate.
  - assert (Hc : i = 1 \/ i = 2) by lia.
    destruct Hc as [-> | ->]; vm_compute; discriminate.
Defined.

(** The second and the third of three parameters set. *)
Lemma setParam_sets_one_parameter_witness :
  (exists st',
     setParam (sample_env true) 1 "y" (-2) 3 DBL_MAX 0 0 three_parameters
     = Ok st')
  /\
  (vget EmptyString (paramNames_ second_set) 1 = "y"%string
   /\ vget PRIOR_MODE_MAX (priorMods_ second_set) 1 = UNIFORM_PRIOR
   /\ vget 0%float (param1_ second_set) 1 = (-2)%float
   /\ vget 0%float (param2_ second_set) 1 = 3%float
   /\ vget 0%float (starting_ second_set) 1
      = (if (DBL_MAX =? DBL_MAX)%float then ((3 + -2) / 2)%float else DBL_MAX)
   /\ vget 0%float (samplingWidth_ second_set) 1
      = (if (0 =? 0)%float then ((3 - -2) / 100)%float else 0%float)
   /\ vget 0%float (accuracy_ second_set) 1
      = (if (0 =? 0)%float
         then (vget 0 (samplingWidth_ second_set) 1 / 10)%float else 0%float))
  /\ (forall j, 0 <= j -> j <> 1 ->
        vget EmptyString (paramNames_ second_set) j
        = vget EmptyString (paramNames_ three_parameters) j
        /\ vget PRIOR_MODE_MAX (priorMods_ second_set) j
           = vget PRIOR_MODE_MAX (priorMods_ three_parameters) j
        /\ vget 0%float (param1_ second_set) j
           = vget 0%float (param1_ three_parameters) j
        /\ vget 0%float (param2_ second_set) j
           = vget 0%float (param2_ three_parameters) j
        /\ vget 0%float (starting_ second_set) j
           = vget 0%float (starting_ three_parameters) j
        /\ vget 0%float (samplingWidth_ second_set) j
           = vget 0%float (samplingWidth_ three_parameters) j
        /\ vget 0%float (accuracy_ second_set) j
           = vget 0%float (accuracy_ three_parameters) j)
  /\ sized second_set = true /\ config_sized second_set = true
  /\ n_ second_set = n_ three_parameters
  /\ blocks_ second_set = blocks_ three_parameters
  /\ externalPrior_ second_set = externalPrior_ three_parameters
  /\ externalProposal_ second_set = externalProposal_ three_parameters
  /\ sampler_state second_set = sampler_state three_parameters.
Proof.
  destruct (setParam_sets_one_parameter (sample_env true) 1 "y" (-2) 3
              DBL_MAX 0 0 three_parameters) as [Hiff Heff];
    [vm_compute; reflexivity | vm_compute; reflexivity |].
  split.
  - apply Hiff. split; [vm_compute; split; [discriminate | reflexivity] |].
    intros _. vm_compute. repeat split.
  - apply (Heff second_set). vm_compute. reflexivity.
Defined.

Lemma setParamGauss_sets_one_parameter_witness :
  (exists st',
     setParamGauss (sample_env true) 2 "z" 1 0.5 DBL_MAX 0 0 three_parameters
     = Ok st')
  /\
  (vget EmptyString (paramNames_ third_set) 2 = "z"%string
   /\ vget PRIOR_MODE_MAX (priorMods_ third_set) 2 = GAUSSIAN_PRIOR
   /\ vget 0%float (param1_ third_set) 2 = 1%float
   /\ vget 0%float (param2_ third_set) 2 = 0.5%float
   /\ vget 0%float (starting_ third_set) 2
      = (if (DBL_MAX =? DBL_MAX)%float then 1%float else DBL_MAX)
   /\ vget 0%float (samplingWidth_ third_set) 2
      = (if (0 =? 0)%float then (0.5 / 100)%float else 0%float)
   /\ vget 0%float (accuracy_ third_set) 2
      = (if (0 =? 0)%float
         then (vget 0 (samplingWidth_ third_set) 2 / 10)%float else 0%float))
  /\ (forall j, 0 <= j -> j <> 2 ->
        vget EmptyString (paramNames_ third_set) j
        = vget EmptyString (paramNames_ three_parameters) j
        /\ vget PRIOR_MODE_MAX (priorMods_ third_set) j
           = vget PRIOR_MODE_MAX (priorMods_ three_parameters) j
        /\ vget 0%float (param1_ third_set) j
           = vget 0%float (param1_ three_parameters) j
        /\ vget 0%float (param2_ third_set) j
           = vget 0%float (param2_ three_parameters) j
        /\ vget 0%float (starting_ third_set) j
           = vget 0%float (starting_ three_parameters) j
        /\ vget 0%float (samplingWidth_ third_set) j
           = vget 0%float (samplingWidth_ three_parameters) j
        /\ vget 0%float (accuracy_ third_set) j
           = vget 0%float (accuracy_ three_parameters) j)
  /\ sized third_set = true /\ config_sized third_set = true
  /\ n_ third_set = n_ three_parameters
  /\ blocks_ third_set = blocks_ three_parameters
  /\ externalPrior_ third_set = externalPrior_ three_parameters
  /\ externalProposal_ third_set = externalProposal_ three_parameters
  /\ sampler_state third_set = sampler_state three_parameters.
Proof.
  destruct (setParamGauss_sets_one_parameter (sample_env true) 2 "z" 1 0.5
              DBL_MAX 0 0 three_parameters) as [Hiff Heff];
    [vm_compute; reflexivity | vm_compute; reflexivity |].
  split.
  - apply Hiff. split; [vm_compute; split; [discriminate | reflexivity] |].
    intros _. vm_compute. repeat split.
  - apply (Heff third_set). vm_compute. reflexivity.
Defined.

(** The prior of [sample_engine], whose one parameter is set. *)
Lemma calculatePrior_needs_every_parameter_witness :
  (checks_on (sample_env true) = true ->
   ((exists p, calculatePrior (sample_env true) sample_engine = Ok p)
    <-> forall i, 0 <= i < n_ sample_engine -> prior_set sample_engine i = true)
   /\ ((exists i, 0 <= i < n_ sample_engine
                  /\ prior_set sample_engine i = false) ->
       exists msg,
         calculatePrior (sample_env true) sample_engine
         = Err (CheckFailed msg)))
  /\ (checks_on (sample_env true) = false ->
      exists p, calculatePrior (sample_env true) sample_engine = Ok p).
Proof.
  apply (calculatePrior_needs_every_parameter (sample_env true) sample_engine).
  vm_compute. reflexivity.
Defined.

(** [stalled_engine] with its accuracy raised from a sixtieth to a half. *)
Lemma stop_monotone_in_accuracy_witness :
  stop (sample_env true) (set_accuracy_ stalled_engine [0.5%float]) = Ok true.
Proof.
  apply (stop_monotone_in_accuracy (sample_env true) stalled_engine
           [0.5%float]).
  - intros i Hi.
    assert (Hn : n_ stalled_engine = 1) by (vm_compute; reflexivity).
    rewrite Hn in Hi. assert (i = 0) as -> by lia.
    vm_compute. reflexivity.
  - vm_compute. reflexivity.
Defined.


Lemma run_with_negative_boundary :
  run (sample_env true) 5 true negative_block empty_world = Err LengthError.
Proof. vm_compute. reflexivity. Qed.

Lemma sweep_past_the_end :
  sweep (sample_env true) true (overlong_block, snd started, [0%N])
  = Err OutOfBounds.
Proof. vm_compute. reflexivity. Qed.

(** The first sweep of the run [started]. *)
Lemma sweep_generator_draws_witness :
  match externalProposal_ (fst started) with
  | None =>
      generator_calls (fst (fst started_sweep))
      = (generator_calls (fst started)
         + Z.to_nat (last (blocks_ (fst started)) 0%Z))%nat
      /\ proposal_calls (fst (fst started_sweep))
         = proposal_calls (fst started)
  | Some _ =>
      generator_calls (fst (fst started_sweep))
      = generator_calls (fst started)
      /\ proposal_calls (fst (fst started_sweep))
         = (proposal_calls (fst started)
            + List.length (blocks_ (fst started)))%nat
  end.
Proof.
  apply (sweep_generator_draws (sample_env true) true (fst started)
           (fst (fst started_sweep)) (snd started) (snd (fst started_sweep))
           [0%N] (snd started_sweep)).
  vm_compute. reflexivity.
Defined.

(** Three parameters, each set by one call. *)
Lemma prior_ready_after_setting_all_witness :
  ((forall i, 0 <= i < 3 -> In i (map setting_index all_of_three)) ->
   forall x, exists p,
     calculatePrior (sample_env true) (set_current_ (configured all_of_three) x)
     = Ok p)
  /\ ((exists i, 0 <= i < 3 /\ ~ In i (map setting_index all_of_three)) ->
      forall x, exists msg,
        calculatePrior (sample_env true)
          (set_current_ (configured all_of_three) x)
        = Err (CheckFailed msg)).
Proof.
  apply (prior_ready_after_setting_all (sample_env true) garbage 3
           SimpleLikelihood all_of_three three_parameters
           (configured all_of_three));
    vm_compute; reflexivity.
Defined.

(** The same with the second parameter left out: the prior fails its check
    at the origin. *)
Lemma prior_after_setting_two_of_three :
  calculatePrior (sample_env true)
    (set_current_ (configured two_of_three) [0; 0; 0]%float)
  = Err (CheckFailed "invalid prior mode").
Proof. vm_compute. reflexivity. Qed.

(** [sample_engine] with a maximal length of 1. *)
Lemma configured_run_returns_witness :
  exists st' w' acc',
    run (sample_env true) 1 true sample_engine empty_world
    = Ok (st', w', acc').
Proof.
  assert (Hn : n_ sample_engine = 1) by (vm_compute; reflexivity).
  assert (Hsize : vector_size (blocks_ sample_engine) = 1)
    by (vm_compute; reflexivity).
  apply (configured_run_returns (sample_env true) 1 true sample_engine
           empty_world).
  - reflexivity.
  - reflexivity.
  - vm_compute. reflexivity.
  - vm_compute. split; reflexivity.
  - vm_compute. discriminate.
  - unfold blocks_in_range. rewrite Hsize. split; intros i Hi; [| lia].
    assert (i = 0) as -> by lia. vm_compute. split; discriminate.
  - right. rewrite Hn. intros i Hi.
    assert (i = 0) as -> by lia. vm_compute. reflexivity.
Defined.
